(** * The HTML processing pipeline of problem3: extraction and corpus analysis

    A shallow embedding of [problem3/processor/process.py] (the Extraction
    Stage) and [problem3/analyzer/analyze.py] (the Analysis Stage), and the
    properties of the two stages.

    Modelling conventions.
    - Python [str] is [string]; characters are taken in the ASCII range, so
      [\w] is [[A-Za-z0-9_]], [\s] and [str.strip] use the ASCII white space
      of CPython (9-13, 28-31, 32) and [str.lower] folds [A-Z].  A property
      that depends on which characters are letters or on case folding is
      stated for texts of ASCII characters ([is_ascii]).
    - Python [int] lengths and counts are [nat].  A Python [float] is the
      rational it denotes ([Qc]); [/] on two ints and [*] on two floats give
      the double nearest to the exact result, ties to even ([round_double]).
      The exponent is not bounded, as [nat] is not: the model has neither
      overflow nor underflow, and agrees with Python for results between
      2^-1022 and 2^1024, that is for all counts below 2^1022.  True division
      is partial and raises [ZeroDivisionError] on a zero divisor.
    - An exception is the [Err] case of [result].
    - [list], [dict] insertion order and [Counter] order are kept: a
      [Counter] is an association list in order of first insertion.
    - [set] is [gset string].
    - File system and console effects are recorded as a trace of events; a
      write event stands for a file opened, written and closed.
    - A stage takes the content of its input directory as [os.listdir]
      returns it, and the number of times its polling loop finds the marker
      missing before it shows up; a run in which the marker never shows up
      does not leave that loop and has no trace here.
    - Writing an output file is taken to succeed. *)

From Stdlib Require Import Ascii String QArith Qcanon Qround Qpower Lqa.
From stdpp Require Import base strings pretty list gmap sorting.

Local Open Scope string_scope.
Local Open Scope list_scope.
Local Open Scope nat_scope.

(** ** Exceptions and fallible computations *)

Inductive py_error :=
| NameError (name : string)
| ZeroDivisionError
| OSError (msg : string)
| JSONDecodeError
| AttributeError
| TypeError.

Inductive result (A : Type) :=
| Ok (a : A)
| Err (e : py_error).
Arguments Ok {A} a.
Arguments Err {A} e.

Definition rbind {A B} (x : result A) (f : A → result B) : result B :=
  match x with
  | Ok a => f a
  | Err e => Err e
  end.

Fixpoint rmapM {A B} (f : A → result B) (l : list A) : result (list B) :=
  match l with
  | [] => Ok []
  | x :: l' => rbind (f x) (λ y, rbind (rmapM f l') (λ ys, Ok (y :: ys)))
  end.

(** ** Numbers *)

Definition Qc_of_nat (n : nat) : Qc := Q2Qc (inject_Z (Z.of_nat n)).

(** The nearest integer, halves to the even one. *)
Definition round_half_even (x : Q) : Z :=
  let f := Qfloor x in
  match (x - inject_Z f ?= 1 # 2)%Q with
  | Lt => f
  | Gt => (f + 1)%Z
  | Eq => if Z.even f then f else (f + 1)%Z
  end.

(** The exponent of the last bit of the double nearest to a positive [x]:
    the [e] with [2^52 <= x / 2^e < 2^53]. *)
Definition ulp_exp (x : Q) : Z :=
  let l := (Z.log2 (Qnum x) - Z.log2 (Z.pos (Qden x)) - 53)%Z in
  if Qle_bool (2 ^ 53) (x * 2 ^ (- l)) then (l + 1)%Z else l.

Definition round_pos (x : Q) : Q :=
  (inject_Z (round_half_even (x * 2 ^ (- ulp_exp x))) * 2 ^ ulp_exp x)%Q.

Definition round_Q (x : Q) : Q :=
  match Qnum x with
  | Z0 => 0%Q
  | Z.pos _ => round_pos x
  | Z.neg _ => (- round_pos (- x))%Q
  end.

(** The double nearest to [x], ties to even (IEEE 754 binary64, 53-bit
    significand). *)
Definition round_double (x : Qc) : Qc := Q2Qc (round_Q x).

(** [a / b] on two Python ints: the correctly rounded quotient. *)
Definition py_truediv (a b : nat) : result Qc :=
  match b with
  | O => Err ZeroDivisionError
  | S _ => Ok (round_double (Qc_of_nat a / Qc_of_nat b))%Qc
  end.

(** [x * y] on two Python floats. *)
Definition py_mul (x y : Qc) : Qc := round_double (x * y)%Qc.

(** [sum(len(w) for w in ws)] *)
Definition sum_len (ws : list string) : nat :=
  foldr (λ w acc, String.length w + acc) 0 ws.

(** ** Characters and strings *)

Module PyStr.

Definition code (c : ascii) : N := N_of_ascii c.

Definition in_range (lo hi : N) (c : ascii) : bool :=
  (N.leb lo (code c) && N.leb (code c) hi)%bool.

Definition is_upper (c : ascii) : bool := in_range 65 90 c.
Definition is_lower (c : ascii) : bool := in_range 97 122 c.
Definition is_digit (c : ascii) : bool := in_range 48 57 c.

(** [\w] *)
Definition is_word (c : ascii) : bool :=
  (is_upper c || is_lower c || is_digit c || Ascii.eqb c "_"%char)%bool.

(** [\s], and the characters removed by [str.strip()] *)
Definition is_space (c : ascii) : bool :=
  (in_range 9 13 c || in_range 28 32 c)%bool.

Definition lower_char (c : ascii) : ascii :=
  if is_upper c then ascii_of_N (code c + 32) else c.

(** [s.lower()] *)
Fixpoint lower (s : string) : string :=
  match s with
  | EmptyString => EmptyString
  | String c s' => String (lower_char c) (lower s')
  end.

Fixpoint lstrip (s : string) : string :=
  match s with
  | EmptyString => EmptyString
  | String c s' => if is_space c then lstrip s' else s
  end.

(** [s.rstrip()]: a white space character is dropped when nothing but
    white space follows it. *)
Fixpoint rstrip (s : string) : string :=
  match s with
  | EmptyString => EmptyString
  | String c s' =>
      match rstrip s' with
      | EmptyString => if is_space c then EmptyString else String c EmptyString
      | r => String c r
      end
  end.

(** [s.strip()] *)
Definition strip (s : string) : string := rstrip (lstrip s).

(** truth value of a [str]: non-empty *)
Definition truthy (s : string) : bool :=
  match s with
  | EmptyString => false
  | String _ _ => true
  end.

(** [s.endswith(suffix)] *)
Definition endswith (s suffix : string) : bool :=
  let n := String.length s in
  let k := String.length suffix in
  (Nat.leb k n && String.eqb (String.substring (n - k) k s) suffix)%bool.

(** [sep.join(parts)] *)
Fixpoint join (sep : string) (parts : list string) : string :=
  match parts with
  | [] => EmptyString
  | [p] => p
  | p :: rest => p +:+ sep +:+ join sep rest
  end.

End PyStr.

(** ** Regular expressions

    The fragment of [re] the two programs use: literals (with or without
    [re.IGNORECASE]), character classes under [?], [*], [+] and the lazy
    [*?], the word boundary [\b], and one capturing group around a [+].
    Matching is by backtracking, leftmost and greedy-first as in [re]. *)

Module Re.

Inductive atom :=
| Lit (c : ascii)                  (* a literal character *)
| LitI (c : ascii)                 (* a literal under IGNORECASE *)
| Opt (p : ascii → bool)           (* [..]?  *)
| Star (p : ascii → bool)          (* [..]*  *)
| Plus (p : ascii → bool)          (* [..]+  *)
| LazyStar (p : ascii → bool)      (* [..]*? *)
| CapPlus (p : ascii → bool)       (* ([..]+) *)
| WordB.                           (* \b *)

Definition regex := list atom.

(** a successful match: the text matched, the text of the group if one
    took part, and the rest of the subject *)
Record mres := MRes { m_text : string; m_group : option string; m_rest : string }.

Definition consume (x : ascii) (m : mres) : mres :=
  MRes (String x (m_text m)) (m_group m) (m_rest m).

Definition cont := option ascii → string → option mres.

(** greedy repetition of a class, then [k]; returns what the repetition
    took and the result of [k] *)
Fixpoint greedy (p : ascii → bool) (k : cont) (prev : option ascii) (s : string)
  : option (string * mres) :=
  match s with
  | String x s' =>
      if p x then
        match greedy p k (Some x) s' with
        | Some (t, m) => Some (String x t, m)
        | None => (λ m, (EmptyString, m)) <$> k prev s
        end
      else (λ m, (EmptyString, m)) <$> k prev s
  | EmptyString => (λ m, (EmptyString, m)) <$> k prev s
  end.

(** lazy repetition of a class, then [k] *)
Fixpoint lazy_rep (p : ascii → bool) (k : cont) (prev : option ascii) (s : string)
  : option (string * mres) :=
  match k prev s with
  | Some m => Some (EmptyString, m)
  | None =>
      match s with
      | String x s' =>
          if p x then
            (λ tm, (String x (fst tm), snd tm)) <$> lazy_rep p k (Some x) s'
          else None
      | EmptyString => None
      end
  end.

Definition taken (tm : string * mres) : mres :=
  MRes (fst tm +:+ m_text (snd tm)) (m_group (snd tm)) (m_rest (snd tm)).

Definition captured (tm : string * mres) : mres :=
  MRes (fst tm +:+ m_text (snd tm)) (Some (fst tm)) (m_rest (snd tm)).

Definition word_at (c : option ascii) : bool :=
  match c with
  | Some x => PyStr.is_word x
  | None => false
  end.

Definition next_char (s : string) : option ascii :=
  match s with
  | String x _ => Some x
  | EmptyString => None
  end.

(** match [r] at the start of [s]; [prev] is the character before *)
Fixpoint match_here (r : regex) (prev : option ascii) (s : string) : option mres :=
  match r with
  | [] => Some (MRes EmptyString None s)
  | Lit c :: r' =>
      match s with
      | String x s' =>
          if Ascii.eqb x c then consume x <$> match_here r' (Some x) s' else None
      | EmptyString => None
      end
  | LitI c :: r' =>
      match s with
      | String x s' =>
          if Ascii.eqb (PyStr.lower_char x) (PyStr.lower_char c)
          then consume x <$> match_here r' (Some x) s' else None
      | EmptyString => None
      end
  | Opt p :: r' =>
      match s with
      | String x s' =>
          if p x then
            match match_here r' (Some x) s' with
            | Some m => Some (consume x m)
            | None => match_here r' prev s
            end
          else match_here r' prev s
      | EmptyString => match_here r' prev s
      end
  | Star p :: r' => taken <$> greedy p (match_here r') prev s
  | Plus p :: r' =>
      match s with
      | String x s' =>
          if p x then consume x <$> (taken <$> greedy p (match_here r') (Some x) s')
          else None
      | EmptyString => None
      end
  | LazyStar p :: r' => taken <$> lazy_rep p (match_here r') prev s
  | CapPlus p :: r' =>
      match s with
      | String x s' =>
          if p x then
            (λ tm, captured (String x (fst tm), snd tm))
              <$> greedy p (match_here r') (Some x) s'
          else None
      | EmptyString => None
      end
  | WordB :: r' =>
      if xorb (word_at prev) (word_at (next_char s)) then match_here r' prev s else None
  end.

(** The subject cut into the pieces between matches and the matches,
    scanning from the left; after a match the scan resumes behind it.
    [skip] counts the characters of the current match still to pass,
    [gap] holds the piece since the last match, reversed.  Every pattern of
    the two programs consumes at least one character, so a match is never
    empty (an empty one is passed over). *)
Inductive seg :=
| Gap (t : string)
| Hit (m : mres).

Fixpoint scan (r : regex) (prev : option ascii) (skip : nat) (gap : string) (s : string)
  : list seg :=
  match s with
  | EmptyString => [Gap (String.rev gap)]
  | String x s' =>
      match skip with
      | S k => scan r (Some x) k gap s'
      | O =>
          match match_here r prev s with
          | Some m =>
              match String.length (m_text m) with
              | S k => Gap (String.rev gap) :: Hit m :: scan r (Some x) k EmptyString s'
              | O => scan r (Some x) 0 (String x gap) s'
              end
          | None => scan r (Some x) 0 (String x gap) s'
          end
      end
  end.

Definition segments (r : regex) (s : string) : list seg := scan r None 0 EmptyString s.

(** [re.findall] for a pattern without group: the matched texts *)
Definition findall (r : regex) (s : string) : list string :=
  omap (λ g, match g with Hit m => Some (m_text m) | Gap _ => None end) (segments r s).

(** [re.findall] for a pattern with one group: the texts of the group *)
Definition findall_group (r : regex) (s : string) : list string :=
  omap (λ g, match g with
             | Hit m => Some (default EmptyString (m_group m))
             | Gap _ => None
             end) (segments r s).

(** [re.sub(r, repl, s)] for a literal replacement *)
Definition sub (r : regex) (repl : string) (s : string) : string :=
  foldr (λ g acc, match g with Gap t => t +:+ acc | Hit _ => repl +:+ acc end)
        EmptyString (segments r s).

(** [re.split] for a pattern without group: the pieces between matches *)
Definition split (r : regex) (s : string) : list string :=
  omap (λ g, match g with Gap t => Some t | Hit _ => None end) (segments r s).

(** a literal word as a sequence of atoms *)
Fixpoint lit (s : string) : regex :=
  match s with
  | EmptyString => []
  | String c s' => Lit c :: lit s'
  end.

Fixpoint lit_i (s : string) : regex :=
  match s with
  | EmptyString => []
  | String c s' => LitI c :: lit_i s'
  end.

Definition any (_ : ascii) : bool := true.
Definition none_of (cs : list ascii) (c : ascii) : bool :=
  negb (existsb (Ascii.eqb c) cs).
Definition one_of (cs : list ascii) (c : ascii) : bool :=
  existsb (Ascii.eqb c) cs.

End Re.

(** ** The records written, and the effects: a trace of events, a clock, exceptions *)

Record statistics := Statistics {
  word_count : nat;
  sentence_count : nat;
  paragraph_count : nat;
  avg_word_length : Qc
}.

(** the record written for one document ([out] in [process.py]) *)
Record processed_document := ProcessedDocument {
  source_file : string;
  text : string;
  doc_statistics : statistics;
  links : list string;
  images : list string;
  processed_at : string
}.

Record readability_metrics := Readability {
  avg_sentence_length : Qc;
  r_avg_word_length : Qc;
  complexity_score : Qc
}.

Record word_entry := WordEntry { word : string; count : nat; frequency : Qc }.
Record similarity_entry := SimilarityEntry { doc1 : string; doc2 : string; similarity : Qc }.

(** [report] in [analyze.py] *)
Record report := Report {
  processing_timestamp : string;
  documents_processed : nat;
  total_words : nat;
  unique_words : nat;
  top_100_words : list word_entry;
  document_similarity : list similarity_entry;
  top_bigrams : list (string * nat);
  top_trigrams : list (string * nat);
  readability : readability_metrics
}.

Inductive event :=
| Makedirs (path : string)
| Print (line : string)
| Sleep (seconds : nat)
| Listdir (path : string)
| ReadFile (path : string)
| WriteRecord (path : string) (doc : processed_document)
| WriteMarker (path : string) (timestamp : string) (files : list string)
| WriteReport (path : string) (r : report).

Module IO.

(** a computation reads the number of clock readings made so far and
    returns the events it caused, in order, the new number of clock
    readings, and its value or the exception that ended it *)
Definition io (A : Type) : Type := nat → list event * nat * result A.

Definition ret {A} (a : A) : io A := λ t, ([], t, Ok a).

Definition bind {A B} (m : io A) (f : A → io B) : io B :=
  λ t,
    match m t with
    | (ev, t', Ok a) =>
        match f a t' with
        | (ev', t'', r) => (ev ++ ev', t'', r)
        end
    | (ev, t', Err e) => (ev, t', Err e)
    end.

Definition emit (e : event) : io unit := λ t, ([e], t, Ok tt).

Definition lift {A} (r : result A) : io A := λ t, ([], t, r).

(** [for x in l: acc = body x acc] *)
Fixpoint for_each {A S} (l : list A) (body : A → S → io S) (acc : S) : io S :=
  match l with
  | [] => ret acc
  | x :: l' => bind (body x acc) (for_each l' body)
  end.

(** [n] rounds of a polling loop whose condition held [n] times *)
Fixpoint repeat_io (n : nat) (body : io unit) : io unit :=
  match n with
  | O => ret tt
  | S k => bind body (λ _, repeat_io k body)
  end.

Definition events {A} (x : list event * nat * result A) : list event := fst (fst x).
Definition outcome {A} (x : list event * nat * result A) : result A := snd x.

End IO.

Notation "x <- m ;; k" := (IO.bind m (λ x, k))
  (at level 100, m at next level, right associativity, only parsing).
Notation "m ;;; k" := (IO.bind m (λ _, k))
  (at level 100, right associativity, only parsing).

(** ** Sorting file names: [sorted(os.listdir(d))]

    [sorted] is stable and ascending for [str] comparison, which is
    lexicographic on code points. A directory entry is a name with what
    opening it gives. *)

Section Sorted.
Context {A : Type}.

Fixpoint insert_by_name (x : string * A) (l : list (string * A)) : list (string * A) :=
  match l with
  | [] => [x]
  | y :: l' =>
      if String.leb (fst x) (fst y) then x :: l else y :: insert_by_name x l'
  end.

Definition sorted (l : list (string * A)) : list (string * A) :=
  foldr insert_by_name [] l.
End Sorted.

(** ** [process.py] *)

Module Process.

Definition dq : ascii := "034"%char.
Definition sq : ascii := "039"%char.

(** [WORD_RE = re.compile(r"\b\w+\b")] *)
Definition WORD_RE : Re.regex := [Re.WordB; Re.Plus PyStr.is_word; Re.WordB].
(** [SENT_RE = re.compile(r"[.!?]+")] *)
Definition SENT_RE : Re.regex := [Re.Plus (Re.one_of ["."; "!"; "?"]%char)].
(** [P_TAG_RE = re.compile(r"<p\b", re.IGNORECASE)] *)
Definition P_TAG_RE : Re.regex := Re.lit_i "<p" ++ [Re.WordB].

(** [<script[^>]*>.*?</script>] with DOTALL and IGNORECASE *)
Definition SCRIPT_RE : Re.regex :=
  Re.lit_i "<script" ++ [Re.Star (Re.none_of [">"%char])] ++ Re.lit_i ">"
    ++ [Re.LazyStar Re.any] ++ Re.lit_i "</script>".
Definition STYLE_RE : Re.regex :=
  Re.lit_i "<style" ++ [Re.Star (Re.none_of [">"%char])] ++ Re.lit_i ">"
    ++ [Re.LazyStar Re.any] ++ Re.lit_i "</style>".
(** [href=[\'"]?([^\'" >]+)] with IGNORECASE *)
Definition HREF_RE : Re.regex :=
  Re.lit_i "href=" ++ [Re.Opt (Re.one_of [sq; dq]);
                       Re.CapPlus (Re.none_of [sq; dq; " "%char; ">"%char])].
Definition SRC_RE : Re.regex :=
  Re.lit_i "src=" ++ [Re.Opt (Re.one_of [sq; dq]);
                      Re.CapPlus (Re.none_of [sq; dq; " "%char; ">"%char])].
(** [<[^>]+>] *)
Definition TAG_RE : Re.regex :=
  [Re.Lit "<"%char; Re.Plus (Re.none_of [">"%char]); Re.Lit ">"%char].
(** [\s+] *)
Definition SPACE_RE : Re.regex := [Re.Plus PyStr.is_space].

Definition strip_html (html_content : string) : string * list string * list string :=
  let html_content := Re.sub SCRIPT_RE "" html_content in
  let html_content := Re.sub STYLE_RE "" html_content in
  let links := Re.findall_group HREF_RE html_content in
  let images := Re.findall_group SRC_RE html_content in
  let text := Re.sub TAG_RE " " html_content in
  let text := PyStr.strip (Re.sub SPACE_RE " " text) in
  (text, links, images).

(** [(sum(len(w) for w in words)/len(words)) if words else 0.0] *)
Definition mean_word_length (words : list string) : result Qc :=
  match words with
  | [] => Ok 0%Qc
  | _ :: _ => py_truediv (sum_len words) (length words)
  end.

(** the statistics of one document, lines 58-70 *)
Definition document_stats (html : string) (text : string) : result statistics :=
  let words := Re.findall WORD_RE text in
  let sentences :=
    PyStr.strip <$> filter (λ s, PyStr.truthy (PyStr.strip s) = true) (Re.split SENT_RE text) in
  let para_count := length (Re.findall P_TAG_RE html) in
  let para_count :=
    if (Nat.eqb para_count 0 && PyStr.truthy text)%bool then 1 else para_count in
  rbind (mean_word_length words) (λ avg,
    Ok (Statistics (length words) (length sentences) para_count avg)).

(** [os.path.splitext(fname)[0]] for a name without directory part: the
    extension starts at the last dot, unless only dots precede it *)
Fixpoint rfind_dot (s : string) : option nat :=
  match s with
  | EmptyString => None
  | String c s' =>
      match rfind_dot s' with
      | Some i => Some (S i)
      | None => if Ascii.eqb c "."%char then Some 0 else None
      end
  end.

Fixpoint all_dots (s : string) : bool :=
  match s with
  | EmptyString => true
  | String c s' => (Ascii.eqb c "."%char && all_dots s')%bool
  end.

Definition splitext_root (p : string) : string :=
  match rfind_dot p with
  | Some i =>
      let root := String.substring 0 i p in
      if all_dots root then p else root
  | None => p
  end.

(** what opening and reading a raw file gives: its text (undecodable
    bytes already dropped, as [errors="ignore"] does) or an [OSError] *)
Inductive raw_file :=
| RawText (html : string)
| RawUnreadable (msg : string).

Definition raw_dir : string := "/shared/raw".
Definition marker_path : string := "/shared/status/process_complete.json".

Definition out_name (fname : string) : string :=
  "/shared/processed/" +:+ splitext_root fname +:+ ".json".

Section Main.
(** the successive readings of the clock by [utc()] *)
Variable clock : nat → string.

Definition utc : IO.io string := λ t, ([], S t, Ok (clock t)).

(** [with open(path, "r", encoding="utf-8", errors="ignore") as f: f.read()] *)
Definition read_raw (path : string) (f : raw_file) : IO.io string :=
  IO.emit (ReadFile path) ;;;
  match f with
  | RawText html => IO.ret html
  | RawUnreadable msg => IO.lift (Err (OSError msg))
  end.

(** the body of the loop of [main] for one directory entry *)
Definition process_entry (entry : string * raw_file) (processed : list string)
  : IO.io (list string) :=
  let '(fname, file) := entry in
  if negb (PyStr.endswith fname ".html") then IO.ret processed else
  html <- read_raw (raw_dir +:+ "/" +:+ fname) file ;;
  let '(text, links, images) := strip_html html in
  stats <- IO.lift (document_stats html text) ;;
  now <- utc ;;
  let out := ProcessedDocument fname text stats links images now in
  IO.emit (WriteRecord (out_name fname) out) ;;;
  IO.ret (processed ++ [out_name fname]).

(** [main]: [absent] is the number of times the loop at line 43 found
    the marker of the fetcher missing; [raw] is the content of
    [/shared/raw] as [os.listdir] gives it *)
Definition main (absent : nat) (raw : list (string * raw_file)) : IO.io unit :=
  IO.emit (Makedirs "/shared/processed") ;;;
  IO.emit (Makedirs "/shared/status") ;;;
  IO.repeat_io absent
    (IO.emit (Print "Waiting for fetch_complete.json...") ;;; IO.emit (Sleep 2)) ;;;
  IO.emit (Listdir raw_dir) ;;;
  processed <- IO.for_each (sorted raw) process_entry [] ;;
  now <- utc ;;
  IO.emit (WriteMarker marker_path now processed).

End Main.

End Process.

(** ** [analyze.py] *)

Module Analyze.

(** [WORD_RE = re.compile(r"\b\w+\b")] *)
Definition WORD_RE : Re.regex := [Re.WordB; Re.Plus PyStr.is_word; Re.WordB].

Definition jaccard_similarity (doc1_words doc2_words : list string) : result Qc :=
  let set1 : gset string := list_to_set doc1_words in
  let set2 : gset string := list_to_set doc2_words in
  let intersection := set1 ∩ set2 in
  let union := set1 ∪ set2 in
  if bool_decide (union = ∅) then Ok 0%Qc
  else py_truediv (size intersection) (size union).

(** [[" ".join(tokens[i:i+n]) for i in range(len(tokens)-n+1)]] *)
Definition ngrams (tokens : list string) (n : nat) : list string :=
  (λ i, PyStr.join " " (take n (drop i tokens))) <$> seq 0 (length tokens + 1 - n).

(** *** [collections.Counter]

    A [Counter] is a [dict]: its items are kept in the order in which
    the keys were first inserted. *)

Definition counter := list (string * nat).

Fixpoint counter_add (w : string) (c : counter) : counter :=
  match c with
  | [] => [(w, 1)]
  | (k, n) :: c' => if String.eqb k w then (k, S n) :: c' else (k, n) :: counter_add w c'
  end.

(** [Counter(iterable)] *)
Definition Counter (items : list string) : counter :=
  foldl (λ c w, counter_add w c) [] items.

(** [c.elements()]: every key as many times as its count, in the order of
    the keys *)
Definition elements (c : counter) : list string :=
  flat_map (λ kn, replicate (snd kn) (fst kn)) c.

Fixpoint insert_by_count (x : string * nat) (l : counter) : counter :=
  match l with
  | [] => [x]
  | y :: l' => if Nat.ltb (snd x) (snd y) then y :: insert_by_count x l' else x :: l
  end.

(** [sorted(c.items(), key=itemgetter(1), reverse=True)]: a stable sort,
    so items of equal count stay in the order of the [Counter] *)
Definition sort_by_count (c : counter) : counter := foldr insert_by_count [] c.

(** [c.most_common(n)], that is [heapq.nlargest(n, c.items(), key=itemgetter(1))],
    which equals [sorted(c.items(), key=itemgetter(1), reverse=True)[:n]] *)
Definition most_common (n : nat) (c : counter) : counter := take n (sort_by_count c).

(** [itertools.combinations(l, 2)] *)
Fixpoint combinations2 {A} (l : list A) : list (A * A) :=
  match l with
  | [] => []
  | x :: l' => ((λ y, (x, y)) <$> l') ++ combinations2 l'
  end.

(** [enumerate(l)] *)
Definition enumerate {A} (l : list A) : list (nat * A) := zip (seq 0 (length l)) l.

(** The functions of two token lists that the module binds at top level.
    Calling a name that is not bound raises [NameError]. *)
Definition module_functions : list (string * (list string → list string → result Qc)) :=
  [("jaccard_similarity", jaccard_similarity)].

Fixpoint lookup_function (name : string)
    (env : list (string * (list string → list string → result Qc)))
  : result (list string → list string → result Qc) :=
  match env with
  | [] => Err (NameError name)
  | (k, f) :: env' => if String.eqb k name then Ok f else lookup_function name env'
  end.

Definition call_global (name : string) (a b : list string) : result Qc :=
  rbind (lookup_function name module_functions) (λ f, f a b).

Definition document := (string * list string)%type.

(** [w for _, t in docs for w in t] *)
Definition all_tokens (docs : list document) : list string :=
  flat_map snd docs.

(** [total_words], line 49 *)
Definition count_total_words (docs : list document) : nat :=
  foldr (λ d acc, length (snd d) + acc) 0 docs.

(** [vocab], line 50 *)
Definition vocab (docs : list document) : gset string := list_to_set (all_tokens docs).

(** [freq], line 51 *)
Definition freq (docs : list document) : counter := Counter (all_tokens docs).

(** [c/total_words if total_words else 0.0] *)
Definition relative_frequency (c total_words : nat) : result Qc :=
  if Nat.eqb total_words 0 then Ok 0%Qc else py_truediv c total_words.

(** [top100], lines 53-54 *)
Definition top100 (docs : list document) : result (list word_entry) :=
  rmapM (λ wc, rbind (relative_frequency (snd wc) (count_total_words docs))
                     (λ f, Ok (WordEntry (fst wc) (snd wc) f)))
        (most_common 100 (freq docs)).

(** the loop at lines 56-58, with [name] for the function it calls *)
Definition sims_calling (name : string) (docs : list document)
  : result (list similarity_entry) :=
  rmapM (λ p, let '((i, (f1, t1)), (j, (f2, t2))) := p in
              rbind (call_global name t1 t2)
                    (λ s, Ok (SimilarityEntry f1 f2 s)))
        (combinations2 (enumerate docs)).

(** [sims], lines 56-58: the loop calls [jaccard] *)
Definition sims (docs : list document) : result (list similarity_entry) :=
  sims_calling "jaccard" docs.

(** [bigrams] and [trigrams], lines 60-61 *)
Definition bigrams (docs : list document) : counter :=
  most_common 50 (Counter (flat_map (λ d, ngrams (snd d) 2) docs)).
Definition trigrams (docs : list document) : counter :=
  most_common 50 (Counter (flat_map (λ d, ngrams (snd d) 3) docs)).

(** [max(1, total_words // 20) if total_words else 0] *)
Definition sentence_est (total_words : nat) : nat :=
  if Nat.eqb total_words 0 then 0 else Nat.max 1 (total_words / 20).

(** [(total_words / sentence_est) if sentence_est else 0.0] *)
Definition avg_sentence_len (total_words : nat) : result Qc :=
  if Nat.eqb (sentence_est total_words) 0 then Ok 0%Qc
  else py_truediv total_words (sentence_est total_words).

(** [(sum(len(w) for w in freq.elements())/total_words) if total_words else 0.0] *)
Definition avg_word_len (fr : counter) (total_words : nat) : result Qc :=
  if Nat.eqb total_words 0 then Ok 0%Qc
  else py_truediv (sum_len (elements fr)) total_words.

(** lines 62-65 *)
Definition compute_readability (fr : counter) (total_words : nat)
  : result readability_metrics :=
  rbind (avg_sentence_len total_words) (λ asl,
  rbind (avg_word_len fr total_words) (λ awl,
  Ok (Readability asl awl (py_mul asl awl)))).

(** what opening a processed file and [json.load] give: an object whose
    ["text"] member is a string or is missing; an object whose ["text"]
    member is not a string ([null], a number, a list, ...); a JSON value that
    is not an object; or an exception *)
Inductive processed_file :=
| JsonObject (text : option string)
| JsonObjectOtherText
| JsonOther
| Unloadable (e : py_error).

Definition pdir : string := "/shared/processed".
Definition report_path : string := "/shared/analysis/final_report.json".

(** [[w.lower() for w in WORD_RE.findall(text)]] *)
Definition tokenize (text : string) : list string :=
  PyStr.lower <$> Re.findall WORD_RE text.

Section Main.
Variable clock : nat → string.

Definition utc : IO.io string := λ t, ([], S t, Ok (clock t)).

(** the body of the loop at lines 41-47 for one directory entry *)
Definition load_entry (entry : string * processed_file) (docs : list document)
  : IO.io (list document) :=
  let '(fname, file) := entry in
  if PyStr.endswith fname ".json" then
    IO.emit (ReadFile (pdir +:+ "/" +:+ fname)) ;;;
    match file with
    | JsonObject data =>
        let text := default "" data in
        IO.ret (docs ++ [(fname, tokenize text)])
    | JsonObjectOtherText => IO.lift (Err TypeError)
    | JsonOther => IO.lift (Err AttributeError)
    | Unloadable e => IO.lift (Err e)
    end
  else IO.ret docs.

(** lines 49-81: the report for the documents loaded *)
Definition build_report (docs : list document) : IO.io report :=
  let total := count_total_words docs in
  top <- IO.lift (top100 docs) ;;
  sm <- IO.lift (sims docs) ;;
  rd <- IO.lift (compute_readability (freq docs) total) ;;
  now <- utc ;;
  IO.ret (Report now (length docs) total (size (vocab docs)) top sm
                 (bigrams docs) (trigrams docs) rd).

(** [main]: [absent] is the number of times the loop at line 35 found
    the marker of the processor missing; [processed] is the content of
    [/shared/processed] as [os.listdir] gives it *)
Definition main (absent : nat) (processed : list (string * processed_file))
  : IO.io unit :=
  IO.emit (Makedirs "/shared/analysis") ;;;
  IO.emit (Makedirs "/shared/status") ;;;
  IO.repeat_io absent
    (IO.emit (Print "Waiting for process_complete.json...") ;;; IO.emit (Sleep 2)) ;;;
  IO.emit (Listdir pdir) ;;;
  docs <- IO.for_each (sorted processed) load_entry [] ;;
  r <- build_report docs ;;
  IO.emit (WriteReport report_path r).

End Main.

End Analyze.

(** * Vocabulary of the properties *)

(** the sum of the lengths of the keys, each weighted by its count *)
Definition weighted_len (fr : Analyze.counter) : nat :=
  foldr (λ kn acc, snd kn * String.length (fst kn) + acc) 0 fr.

(** the position at which [w] first occurs in [l] ([length l] if never) *)
Fixpoint first_index (w : string) (l : list string) : nat :=
  match l with
  | [] => 0
  | x :: l' => if String.eqb x w then 0 else S (first_index w l')
  end.

(** the ranking of the tables: higher count first, and among equal counts
    the key seen first in [items] first *)
Definition count_then_first_seen (items : list string) (a b : string * nat) : Prop :=
  snd b < snd a ∨ (snd a = snd b ∧ first_index (fst a) items < first_index (fst b) items).

(** the ranking by descending count, then ascending key *)
Definition count_then_key (a b : string * nat) : Prop :=
  snd b < snd a ∨ (snd a = snd b ∧ String.ltb (fst a) (fst b) = true).

Definition word_counts (table : list word_entry) : list (string * nat) :=
  (λ e, (word e, count e)) <$> table.

(** the reports, records and markers written in a trace *)
Definition written_reports (tr : list event) : list report :=
  omap (λ e, match e with WriteReport _ r => Some r | _ => None end) tr.

Definition written_records (tr : list event) : list (string * processed_document) :=
  omap (λ e, match e with WriteRecord p d => Some (p, d) | _ => None end) tr.

Definition written_markers (tr : list event) : list (list string) :=
  omap (λ e, match e with WriteMarker _ _ files => Some files | _ => None end) tr.

(** the files opened in a trace, and the lines printed *)
Definition files_read (tr : list event) : list string :=
  omap (λ e, match e with ReadFile p => Some p | _ => None end) tr.

Definition printed (tr : list event) : list string :=
  omap (λ e, match e with Print l => Some l | _ => None end) tr.

Definition is_json (entry : string * Analyze.processed_file) : bool :=
  PyStr.endswith (fst entry) ".json".

Definition is_html (entry : string * Process.raw_file) : bool :=
  PyStr.endswith (fst entry) ".html".

(** the events of a polling loop that found its marker missing [n] times *)
Definition waiting (n : nat) (msg : string) : list event :=
  concat (replicate n [Print msg; Sleep 2]).

Definition raw_path (fname : string) : string := Process.raw_dir +:+ "/" +:+ fname.
Definition processed_path (fname : string) : string := Analyze.pdir +:+ "/" +:+ fname.

(** the statistics of a document (they never fail, see [document_stats_ok]) *)
Definition stats_of (html text : string) : statistics :=
  match Process.document_stats html text with
  | Ok s => s
  | Err _ => Statistics 0 0 0 0%Qc
  end.

(** the record of the document [fname] with content [html], stamped with
    the [t]-th reading of the clock *)
Definition record_of (clock : nat → string) (fname html : string) (t : nat)
  : processed_document :=
  let '(text, links, images) := Process.strip_html html in
  ProcessedDocument fname text (stats_of html text) links images (clock t).

(** what the loop of [process.py] does for one document: read it, then
    write its record *)
Definition document_events (d : processed_document) : list event :=
  [ReadFile (raw_path (source_file d)); WriteRecord (Process.out_name (source_file d)) d].

Definition produced (docs : list processed_document) : list string :=
  (λ d, Process.out_name (source_file d)) <$> docs.

Definition is_readable (entry : string * Process.raw_file) : bool :=
  match snd entry with
  | Process.RawText _ => true
  | Process.RawUnreadable _ => false
  end.

Definition is_loadable (entry : string * Analyze.processed_file) : bool :=
  match snd entry with
  | Analyze.JsonObject _ => true
  | _ => false
  end.

(** the document loaded from a directory entry *)
Definition document_of (entry : string * Analyze.processed_file) : Analyze.document :=
  (fst entry,
   match snd entry with
   | Analyze.JsonObject data => Analyze.tokenize (default "" data)
   | _ => []
   end).

(** the records of the entries up to the first unreadable one, the first
    stamped with the [t]-th reading of the clock *)
Fixpoint records_from (clock : nat → string) (t : nat) (l : list (string * Process.raw_file))
  : list processed_document :=
  match l with
  | (f, Process.RawText html) :: l' => record_of clock f html t :: records_from clock (S t) l'
  | _ => []
  end.

Fixpoint first_unreadable (l : list (string * Process.raw_file)) : option (string * string) :=
  match l with
  | [] => None
  | (_, Process.RawText _) :: l' => first_unreadable l'
  | (f, Process.RawUnreadable msg) :: _ => Some (f, msg)
  end.

(** the documents of the entries up to the first that does not load *)
Fixpoint documents_from (l : list (string * Analyze.processed_file)) : list Analyze.document :=
  match l with
  | (f, Analyze.JsonObject data) :: l' =>
      document_of (f, Analyze.JsonObject data) :: documents_from l'
  | _ => []
  end.

Fixpoint first_unloadable (l : list (string * Analyze.processed_file))
  : option (string * py_error) :=
  match l with
  | [] => None
  | (_, Analyze.JsonObject _) :: l' => first_unloadable l'
  | (f, Analyze.JsonObjectOtherText) :: _ => Some (f, TypeError)
  | (f, Analyze.JsonOther) :: _ => Some (f, AttributeError)
  | (f, Analyze.Unloadable e) :: _ => Some (f, e)
  end.

(** what both stages do before they list their input directory *)
Definition extraction_start (absent : nat) : list event :=
  [Makedirs "/shared/processed"; Makedirs "/shared/status"]
    ++ waiting absent "Waiting for fetch_complete.json..." ++ [Listdir Process.raw_dir].

Definition analysis_start (absent : nat) : list event :=
  [Makedirs "/shared/analysis"; Makedirs "/shared/status"]
    ++ waiting absent "Waiting for process_complete.json..." ++ [Listdir Analyze.pdir].

(** the similarity list of the specification: the Jaccard index of every
    pair of documents, the pairs in the order of [itertools.combinations] *)
Definition pairwise_similarity (docs : list Analyze.document)
  : result (list similarity_entry) :=
  rmapM (λ p, rbind (Analyze.jaccard_similarity (snd (fst p)) (snd (snd p)))
                    (λ s, Ok (SimilarityEntry (fst (fst p)) (fst (snd p)) s)))
        (Analyze.combinations2 docs).


(** the readability block in the words of the specification, for [total]
    words of [chars] characters in all; every operation gives a double *)
Definition readability_of (total chars : nat) : readability_metrics :=
  let est := Nat.max 1 (total / 20) in
  let asl := round_double (Qc_of_nat total / Qc_of_nat est) in
  let awl := round_double (Qc_of_nat chars / Qc_of_nat total) in
  Readability asl awl (round_double (asl * awl)).

(** * Sample inputs and claims as stated *)

(** [<p>Hello world! Visit <a href="http://x.com">here</a>.</p>] *)
Definition sample_html : string :=
  "<p>Hello world! Visit <a href=" +:+ String Process.dq "http://x.com"
    +:+ String Process.dq ">here</a>.</p>".

(** the claim that a bad document is skipped with a warning and the batch
    goes on, for one run of the stage on the directory [raw] *)
Definition skips_and_continues (raw : list (string * Process.raw_file))
    (run : list event * nat * result unit) : Prop :=
  IO.outcome run = Ok tt
  ∧ (∀ f html, (f, Process.RawText html) ∈ raw → is_html (f, Process.RawText html) = true →
       Process.out_name f ∈ (written_records (IO.events run)).*1)
  ∧ (∀ f msg, (f, Process.RawUnreadable msg) ∈ raw →
       is_html (f, Process.RawUnreadable msg) = true →
       ∃ line, line ∈ printed (IO.events run)).

Definition sample_clock (t : nat) : string := "T" +:+ pretty t.

Definition raw_with_unreadable : list (string * Process.raw_file) :=
  [("a.html", Process.RawText "<p>first</p>");
   ("b.html", Process.RawUnreadable "Permission denied");
   ("c.html", Process.RawText "<p>third</p>")].

Definition raw_mixed : list (string * Process.raw_file) :=
  [("b.html", Process.RawText "<p>b</p>"); ("notes.txt", Process.RawText "n");
   ("a.html", Process.RawText "<p>a</p>"); ("a.htm", Process.RawUnreadable "?")].

Definition two_documents : list (string * Analyze.processed_file) :=
  [("a.json", Analyze.JsonObject (Some "a b c")); ("b.json", Analyze.JsonObject (Some "b c d"))].

(** the claim of C3 about one table *)
(** two records without a word: an empty text, and no text at all *)
Definition two_empty_documents : list (string * Analyze.processed_file) :=
  [("a.json", Analyze.JsonObject (Some "")); ("b.json", Analyze.JsonObject None)].

Definition ranked_by_count_then_key (table : list (string * nat)) : Prop :=
  StronglySorted count_then_key table.

Definition one_document_b_a : list (string * Analyze.processed_file) :=
  [("a.json", Analyze.JsonObject (Some "b a"))].

(** the report written for the single document "b a" *)
Definition report_b_a : report :=
  Eval vm_compute in
    default (Report "" 0 0 0 [] [] [] [] (Readability 0%Qc 0%Qc 0%Qc))
            (head (written_reports
                     (IO.events (Analyze.main sample_clock 0 one_document_b_a 0)))).

(** one document of 45 words *)


(** the number of times [w] occurs in [items] *)
Definition occurrences (w : string) (items : list string) : nat :=
  length (filter (λ x, x = w) items).

(** the count a [Counter] holds for [w] ([c[w]], 0 for a missing key) *)
Fixpoint get_count (w : string) (c : Analyze.counter) : nat :=
  match c with
  | [] => 0
  | (k, n) :: c' => if String.eqb k w then n else get_count w c'
  end.

(** [sum(c.values())] *)
Definition sum_counts (c : Analyze.counter) : nat :=
  foldr (λ kn acc, snd kn + acc) 0 c.

(** a table holds the [n] most counted items of a [Counter]: as many as
    there are, up to [n]; only items of the [Counter]; and no item left out
    has a higher count than one it holds *)
Definition holds_top (n : nat) (c table : Analyze.counter) : Prop :=
  length table = Nat.min n (length c)
  ∧ (∀ a, a ∈ table → a ∈ c)
  ∧ (∀ a b, a ∈ table → b ∈ c → b ∉ table → snd b ≤ snd a).

(** every character of [s] satisfies [p] *)
Fixpoint all_chars (p : ascii → bool) (s : string) : bool :=
  match s with
  | EmptyString => true
  | String c s' => (p c && all_chars p s')%bool
  end.

(** every character of [s] is in the ASCII range, where the character
    classes and the case folding of the model are those of Python *)
Definition is_ascii (s : string) : bool :=
  all_chars (λ c, Nat.ltb (nat_of_ascii c) 128) s.

(** [s[n:]] *)
Fixpoint drop_chars (n : nat) (s : string) : string :=
  match n, s with
  | S k, String _ s' => drop_chars k s'
  | _, _ => s
  end.

(** the text of a piece of the subject, and the pieces put together again *)
Definition seg_text (g : Re.seg) : string :=
  match g with
  | Re.Gap t => t
  | Re.Hit m => Re.m_text m
  end.

Definition flatten (segs : list Re.seg) : string :=
  foldr (λ g acc, seg_text g +:+ acc) EmptyString segs.

(** the longest prefix of [s] whose characters satisfy [p], and the rest *)
Fixpoint take_run (p : ascii → bool) (s : string) : string :=
  match s with
  | EmptyString => EmptyString
  | String c s' => if p c then String c (take_run p s') else EmptyString
  end.

Fixpoint drop_run (p : ascii → bool) (s : string) : string :=
  match s with
  | EmptyString => EmptyString
  | String c s' => if p c then drop_run p s' else s
  end.

(** the character before the end of [t], when [prev] is the one before [t] *)
Fixpoint last_char (prev : option ascii) (t : string) : option ascii :=
  match t with
  | EmptyString => prev
  | String c t' => last_char (Some c) t'
  end.

(** the texts of the matches of a scan *)
Definition hits (segs : list Re.seg) : list string :=
  omap (λ g, match g with Re.Hit m => Some (Re.m_text m) | Re.Gap _ => None end) segs.

(** the maximal runs of word characters of a text, in order; [cur] is the
    run being read, reversed *)
Fixpoint word_runs_go (cur : string) (s : string) : list string :=
  match s with
  | EmptyString =>
      match cur with
      | EmptyString => []
      | _ => [String.rev cur]
      end
  | String c s' =>
      if PyStr.is_word c then word_runs_go (String c cur) s'
      else match cur with
           | EmptyString => word_runs_go EmptyString s'
           | _ => String.rev cur :: word_runs_go EmptyString s'
           end
  end.

Definition word_runs (s : string) : list string := word_runs_go EmptyString s.

(** a text with every run of white space replaced by one blank; [in_run]
    says that the character before was white space *)
Fixpoint collapse (in_run : bool) (s : string) : string :=
  match s with
  | EmptyString => EmptyString
  | String c s' =>
      if PyStr.is_space c then
        if in_run then collapse true s' else String " " (collapse true s')
      else String c (collapse false s')
  end.

Definition starts_with_space (s : string) : bool :=
  match s with
  | String c _ => PyStr.is_space c
  | EmptyString => false
  end.

(** every white space character is a blank, and no white space follows it *)
Fixpoint blanks_apart (s : string) : bool :=
  match s with
  | EmptyString => true
  | String c s' =>
      ((if PyStr.is_space c then Ascii.eqb c " " && negb (starts_with_space s') else true)
       && blanks_apart s')%bool
  end.

(** every white space character is a blank followed by a character that is
    not white space *)
Fixpoint single_spaced (s : string) : bool :=
  match s with
  | EmptyString => true
  | String c s' =>
      ((if PyStr.is_space c
        then Ascii.eqb c " " && match s' with
                                | String d _ => negb (PyStr.is_space d)
                                | EmptyString => false
                                end
        else true)
       && single_spaced s')%bool
  end.

(** some character of [s] satisfies [p] *)
Fixpoint any_char (p : ascii → bool) (s : string) : bool :=
  match s with
  | EmptyString => false
  | String c s' => (p c || any_char p s')%bool
  end.

(** the directory entry that the record of a document leaves in the
    processed store: the file name of its path, and the object that
    [json.load] gives back for what [json.dump] wrote, whose ["text"] is the
    text of the record *)
Definition stored (d : processed_document) : string * Analyze.processed_file :=
  (Process.splitext_root (source_file d) +:+ ".json", Analyze.JsonObject (Some (text d))).

(** the processed store after one more record is written: the file of its
    path is created, or replaced if a record was written there before *)
Definition write_record (store : list (string * Analyze.processed_file))
    (d : processed_document) : list (string * Analyze.processed_file) :=
  filter (λ e, fst e ≠ fst (stored d)) store ++ [stored d].

(** the processed store after the records [ds] were written in turn *)
Definition store_after (ds : list processed_document)
  : list (string * Analyze.processed_file) :=
  foldl write_record [] ds.

(** the records of the documents [inputs]: name, content, and the clock
    reading at which each is stamped *)
Definition records_of (clock : nat → string) (inputs : list (string * string * nat))
  : list processed_document :=
  (λ i, record_of clock i.1.1 i.1.2 i.2) <$> inputs.

(** [sum(d.statistics.word_count for d in docs)] *)
Definition sum_word_counts (docs : list processed_document) : nat :=
  foldr (λ d acc, word_count (doc_statistics d) + acc) 0 docs.

(** the pauses of a trace, in seconds *)
Definition slept (tr : list event) : list nat :=
  omap (λ e, match e with Sleep n => Some n | _ => None end) tr.

(** the directories listed in a trace *)
Definition listed (tr : list event) : list string :=
  omap (λ e, match e with Listdir p => Some p | _ => None end) tr.

(** the number of windows of [n] adjacent tokens, document by document *)
Definition windows (n : nat) (docs : list Analyze.document) : nat :=
  foldr (λ d acc, (length (snd d) + 1 - n) + acc) 0 docs.

(** [a b] opens a paragraph tag: [<p] or [<P] with no word character behind *)
Definition opens_p_tag (a b : ascii) (rest : string) : bool :=
  (Ascii.eqb a "<" && (Ascii.eqb b "p" || Ascii.eqb b "P")
   && negb (Re.word_at (Re.next_char rest)))%bool.

Fixpoint count_p_tags (s : string) : nat :=
  match s with
  | String a s' =>
      match s' with
      | String b rest => (if opens_p_tag a b rest then 1 else 0) + count_p_tags s'
      | EmptyString => 0
      end
  | EmptyString => 0
  end.

(** the second record reads [{"text": null}] *)
Definition processed_with_null_text : list (string * Analyze.processed_file) :=
  [("b.json", Analyze.JsonObjectOtherText);
   ("a.json", Analyze.JsonObject (Some "one two"));
   ("c.json", Analyze.JsonObject (Some "three"))].

Definition two_pages : list (string * string * nat) :=
  [("a.html", "<p>one two</p>", 0); ("b.html", "<p>three</p>", 1)].

Definition processed_with_corrupt : list (string * Analyze.processed_file) :=
  [("b.json", Analyze.Unloadable JSONDecodeError);
   ("a.json", Analyze.JsonObject (Some "one two"));
   ("c.json", Analyze.JsonObject (Some "three"))].

Definition starts_with (c : ascii) (s : string) : bool :=
  match s with
  | String x _ => Ascii.eqb x c
  | EmptyString => false
  end.

(** no [<] of [s] opens a tag: each has [>] right behind it, or no [>]
    behind it at all *)
Fixpoint tag_free (s : string) : bool :=
  match s with
  | EmptyString => true
  | String a s' =>
      ((negb (Ascii.eqb a "<") || starts_with ">" s'
        || all_chars (Re.none_of [">"%char]) s')
       && tag_free s')%bool
  end.

(** * Properties *)

(** ** Rounding *)

Section Rounding.
Local Open Scope Q_scope.

Lemma round_half_even_Z (z : Z) : round_half_even (inject_Z z) = z.
Proof.
  unfold round_half_even. rewrite Qfloor_Z.
  destruct (Qcompare_spec (inject_Z z - inject_Z z) (1 # 2)) as [H|H|H]; [lra|reflexivity|lra].
Qed.

Lemma round_half_even_floor (x : Q) :
  (Qfloor x <= round_half_even x <= Qfloor x + 1)%Z.
Proof.
  unfold round_half_even. destruct (_ ?= _); [destruct (Z.even _)| |]; lia.
Qed.

Lemma round_half_even_mono (x y : Q) : x <= y → (round_half_even x <= round_half_even y)%Z.
Proof.
  intros Hxy. pose proof (Qfloor_resp_le x y Hxy) as Hf.
  destruct (Z.eq_dec (Qfloor x) (Qfloor y)) as [Heq|Hne].
  - unfold round_half_even. rewrite <- Heq.
    destruct (Qcompare_spec (x - inject_Z (Qfloor x)) (1 # 2)) as [Hx|Hx|Hx];
    destruct (Qcompare_spec (y - inject_Z (Qfloor x)) (1 # 2)) as [Hy|Hy|Hy];
    try destruct (Z.even (Qfloor x)); try lia; lra.
  - pose proof (round_half_even_floor x). pose proof (round_half_even_floor y). lia.
Qed.

Lemma round_half_even_eq (x y : Q) : x == y → round_half_even x = round_half_even y.
Proof.
  intros Hxy. apply Z.le_antisymm; apply round_half_even_mono; lra.
Qed.

Lemma pow2_pos (e : Z) : 0 < 2 ^ e.
Proof. by apply Qpower_0_lt. Qed.

Lemma pow2_plus (a b : Z) : 2 ^ (a + b) == 2 ^ a * 2 ^ b.
Proof. by apply Qpower_plus. Qed.

Lemma pow2_opp (a : Z) : 2 ^ (- a) == / 2 ^ a.
Proof. apply Qpower_opp. Qed.

Lemma pow2_log2 (n : Z) :
  (0 < n)%Z → 2 ^ Z.log2 n <= inject_Z n ∧ inject_Z n < 2 * 2 ^ Z.log2 n.
Proof.
  intros Hn. destruct (Z.log2_spec n Hn) as [Hlo Hhi].
  pose proof (Z.log2_nonneg n) as Hl.
  rewrite <- (Zpower_Qpower 2 (Z.log2 n)) by done. split.
  - by rewrite <- Zle_Qle.
  - change 2 with (inject_Z 2) at 1. rewrite <- inject_Z_mult, <- Zlt_Qlt.
    rewrite Z.pow_succ_r in Hhi by done. done.
Qed.

(** the scaled value lies in one binade *)
Lemma ulp_exp_spec (x : Q) :
  0 < x → 2 ^ 52 <= x * 2 ^ (- ulp_exp x) ∧ x * 2 ^ (- ulp_exp x) < 2 ^ 53.
Proof.
  intros Hx. unfold ulp_exp.
  set (l := (Z.log2 (Qnum x) - Z.log2 (Z.pos (Qden x)) - 53)%Z).
  assert (Hnum : (0 < Qnum x)%Z).
  { destruct x as [n d]. unfold Qlt in Hx. cbn in *. lia. }
  destruct (pow2_log2 (Qnum x) Hnum) as [Hp1 Hp2].
  destruct (pow2_log2 (Z.pos (Qden x)) ltac:(done)) as [Hq1 Hq2].
  pose proof (pow2_pos (Z.log2 (Qnum x))) as HA.
  pose proof (pow2_pos (Z.log2 (Z.pos (Qden x)))) as HB.
  set (A := 2 ^ Z.log2 (Qnum x)) in *. set (B := 2 ^ Z.log2 (Z.pos (Qden x))) in *.
  assert (Hx' : x == inject_Z (Qnum x) / inject_Z (Z.pos (Qden x))).
  { destruct x as [n d]. apply Qmake_Qdiv. }
  set (P := inject_Z (Qnum x)) in *. set (D := inject_Z (Z.pos (Qden x))) in *.
  assert (HD : 0 < D) by lra.
  assert (Hl : 2 ^ (- l) == 2 ^ 53 * B / A).
  { unfold l, A, B.
    replace (- (Z.log2 (Qnum x) - Z.log2 (Z.pos (Qden x)) - 53))%Z
      with (53 + (Z.log2 (Z.pos (Qden x)) + - Z.log2 (Qnum x)))%Z by lia.
    rewrite !pow2_plus, pow2_opp. field. fold A. lra. }
  assert (Hy : x * 2 ^ (- l) == 2 ^ 53 * ((P / A) * (B / D))).
  { rewrite Hl, Hx'. field. split; lra. }
  assert (Hu1 : 1 <= P / A) by (apply Qle_shift_div_l; lra).
  assert (Hu2 : P / A < 2) by (apply Qlt_shift_div_r; lra).
  assert (Hv1 : 1 # 2 < B / D) by (apply Qlt_shift_div_l; lra).
  assert (Hv2 : B / D <= 1) by (apply Qle_shift_div_r; lra).
  set (u := P / A) in *. set (v := B / D) in *.
  assert (Huv1 : 1 # 2 < u * v) by nra.
  assert (Huv2 : u * v < 2) by nra.
  assert (H53 : 2 ^ 53 == 2 * 2 ^ 52) by reflexivity.
  destruct (Qle_bool (2 ^ 53) (x * 2 ^ (- l))) eqn:Hb.
  - apply Qle_bool_iff in Hb.
    replace (- (l + 1))%Z with (- l + - 1)%Z by lia.
    rewrite pow2_plus. change (2 ^ (-1)) with (1 # 2). rewrite Qmult_assoc.
    set (y := x * 2 ^ (- l)) in *. split; [lra|]. 
    assert (y < 2 * 2 ^ 53); [|lra]. rewrite Hy. 
    assert (0 < 2 ^ 53) by apply pow2_pos. nra.
  - assert (Hlt : x * 2 ^ (- l) < 2 ^ 53).
    { apply Qnot_le_lt. intros H. apply Qle_bool_iff in H. congruence. }
    split; [|done]. rewrite Hy. assert (0 < 2 ^ 52) by apply pow2_pos. 
    rewrite H53. nra.
Qed.

Lemma pow2_53 : 2 ^ 53 == inject_Z (2 ^ 53).
Proof. reflexivity. Qed.

Lemma pow2_52 : 2 ^ 52 == inject_Z (2 ^ 52).
Proof. reflexivity. Qed.

(** the significand has 53 bits *)
Lemma significand_range (x : Q) :
  0 < x →
  (2 ^ 52 <= round_half_even (x * 2 ^ (- ulp_exp x)) <= 2 ^ 53)%Z.
Proof.
  intros Hx. destruct (ulp_exp_spec x Hx) as [Hlo Hhi]. split.
  - rewrite <- (round_half_even_Z (2 ^ 52)). apply round_half_even_mono.
    by rewrite <- pow2_52.
  - rewrite <- (round_half_even_Z (2 ^ 53)). apply round_half_even_mono.
    rewrite <- pow2_53. lra.
Qed.

Lemma round_pos_lower (x : Q) : 0 < x → 2 ^ 52 * 2 ^ ulp_exp x <= round_pos x.
Proof.
  intros Hx. unfold round_pos. apply Qmult_le_compat_r; [|apply Qlt_le_weak, pow2_pos].
  rewrite pow2_52, <- Zle_Qle. apply significand_range, Hx.
Qed.

Lemma round_pos_upper (x : Q) : 0 < x → round_pos x <= 2 ^ 53 * 2 ^ ulp_exp x.
Proof.
  intros Hx. unfold round_pos. apply Qmult_le_compat_r; [|apply Qlt_le_weak, pow2_pos].
  rewrite pow2_53, <- Zle_Qle. apply significand_range, Hx.
Qed.

Lemma round_pos_pos (x : Q) : 0 < x → 0 < round_pos x.
Proof.
  intros Hx. eapply Qlt_le_trans; [|apply round_pos_lower, Hx].
  pose proof (pow2_pos 52). pose proof (pow2_pos (ulp_exp x)). nra.
Qed.

Lemma ulp_exp_mono (x y : Q) : 0 < x → x <= y → (ulp_exp x <= ulp_exp y)%Z.
Proof.
  intros Hx Hxy. assert (Hy : 0 < y) by lra.
  destruct (ulp_exp_spec x Hx) as [Hlo _]. destruct (ulp_exp_spec y Hy) as [_ Hhi].
  destruct (Z.le_gt_cases (ulp_exp x) (ulp_exp y)) as [|Hgt]; [done|]. exfalso.
  assert (He : 2 ^ (- ulp_exp y) == 2 ^ (- ulp_exp x) * 2 ^ (ulp_exp x - ulp_exp y)).
  { rewrite <- pow2_plus. by replace (- ulp_exp x + (ulp_exp x - ulp_exp y))%Z
      with (- ulp_exp y)%Z by lia. }
  assert (H2 : 2 <= 2 ^ (ulp_exp x - ulp_exp y)).
  { change 2 with (2 ^ 1) at 1. apply Qpower_le_compat_l; [lia|done]. }
  pose proof (pow2_pos (- ulp_exp y)) as Hpy. pose proof (pow2_pos (- ulp_exp x)) as Hpx.
  assert (H53 : 2 ^ 53 == 2 * 2 ^ 52) by reflexivity.
  assert (Hxs : x * 2 ^ (- ulp_exp y) <= y * 2 ^ (- ulp_exp y)) by nra.
  rewrite He in Hxs at 1. rewrite Qmult_assoc in Hxs.
  set (a := x * 2 ^ (- ulp_exp x)) in *. set (b := 2 ^ (ulp_exp x - ulp_exp y)) in *.
  assert (0 < 2 ^ 52) by apply pow2_pos. nra.
Qed.

Lemma round_pos_mono (x y : Q) : 0 < x → x <= y → round_pos x <= round_pos y.
Proof.
  intros Hx Hxy. assert (Hy : 0 < y) by lra.
  pose proof (ulp_exp_mono x y Hx Hxy) as He.
  destruct (Z.eq_dec (ulp_exp x) (ulp_exp y)) as [Heq|Hne].
  - unfold round_pos. rewrite Heq.
    apply Qmult_le_compat_r; [|apply Qlt_le_weak, pow2_pos].
    rewrite <- Zle_Qle. apply round_half_even_mono.
    apply Qmult_le_compat_r; [done|apply Qlt_le_weak, pow2_pos].
  - eapply Qle_trans; [apply round_pos_upper, Hx|].
    eapply Qle_trans; [|apply round_pos_lower, Hy].
    rewrite <- !pow2_plus. apply Qpower_le_compat_l; [lia|done].
Qed.

Lemma round_Q_nonneg (x : Q) : 0 <= x → 0 <= round_Q x.
Proof.
  intros Hx. unfold round_Q. destruct x as [[|p|p] d]; cbn [Qnum]; [done| |done].
  apply Qlt_le_weak, round_pos_pos. done.
Qed.

Lemma round_Q_mono (x y : Q) : 0 <= x → x <= y → round_Q x <= round_Q y.
Proof.
  intros Hx Hxy. destruct x as [[|p|p] d].
  - apply round_Q_nonneg. lra.
  - assert (Hx' : 0 < Z.pos p # d) by done.
    assert (Hy : 0 < y) by lra.
    destruct y as [[|p'|p'] d']; [done| |done].
    unfold round_Q. cbn [Qnum]. by apply round_pos_mono.
  - done.
Qed.

Lemma round_Q_zero (x : Q) : 0 <= x → round_Q x == 0 → x == 0.
Proof.
  intros Hx Hz. destruct x as [[|p|p] d]; [done| |done].
  unfold round_Q in Hz. cbn [Qnum] in Hz.
  assert (H : 0 < round_pos (Z.pos p # d)) by by apply round_pos_pos. lra.
Qed.

(** an integer below 2^53 is a double *)
Lemma round_Q_Z (n : Z) : (0 <= n < 2 ^ 53)%Z → round_Q (inject_Z n) == inject_Z n.
Proof.
  intros [Hn0 Hn]. destruct n as [|p|p]; [done| |lia].
  unfold round_Q. cbn [Qnum inject_Z]. change (Z.pos p # 1) with (inject_Z (Z.pos p)).
  set (x := inject_Z (Z.pos p)). assert (Hx : 0 < x) by done.
  destruct (ulp_exp_spec x Hx) as [Hlo Hhi].
  assert (He : (ulp_exp x <= 0)%Z).
  { destruct (Z.le_gt_cases (ulp_exp x) 0) as [|Hgt]; [done|]. exfalso.
    assert (H2 : 2 ^ (- ulp_exp x) <= 2 ^ (-1)).
    { apply Qpower_le_compat_l; [lia|done]. }
    change (2 ^ (-1)) with (1 # 2) in H2.
    assert (Hx53 : x < 2 ^ 53) by (rewrite pow2_53; unfold x; by rewrite <- Zlt_Qlt).
    assert (H53 : 2 ^ 53 == 2 * 2 ^ 52) by reflexivity.
    pose proof (pow2_pos (- ulp_exp x)). assert (0 < 2 ^ 52) by apply pow2_pos. nra. }
  unfold round_pos.
  assert (Hs : x * 2 ^ (- ulp_exp x) == inject_Z (Z.pos p * 2 ^ (- ulp_exp x))).
  { rewrite inject_Z_mult, (Zpower_Qpower 2) by lia. done. }
  assert (Hr : round_half_even (x * 2 ^ (- ulp_exp x)) = (Z.pos p * 2 ^ (- ulp_exp x))%Z).
  { rewrite (round_half_even_eq _ _ Hs). apply round_half_even_Z. }
  rewrite Hr, inject_Z_mult, (Zpower_Qpower 2) by lia. fold x.
  rewrite <- Qmult_assoc, <- pow2_plus. replace (- ulp_exp x + ulp_exp x)%Z with 0%Z by lia.
  change (2 ^ 0) with 1. lra.
Qed.

End Rounding.


(** ** Arithmetic of ratios *)

Lemma Qc_of_nat_S_neq_0 (n : nat) : Qc_of_nat (S n) ≠ 0%Qc.
Proof.
  unfold Qc_of_nat. intros H.
  apply (f_equal this) in H. simpl in H.
  assert (Hq : (Qred (inject_Z (Z.of_nat (S n))) == 0)%Q) by (rewrite H; reflexivity).
  rewrite Qred_correct in Hq. unfold Qeq in Hq. simpl in Hq. lia.
Qed.

Section Fractions.

Lemma Qc_of_nat_val (n : nat) : (this (Qc_of_nat n) == inject_Z (Z.of_nat n))%Q.
Proof. unfold Qc_of_nat. simpl. apply Qred_correct. Qed.



Lemma Zpos_of_nat (b : nat) : b ≠ 0 → Z.pos (Pos.of_nat b) = Z.of_nat b.
Proof. intros Hb. rewrite <- positive_nat_Z, Nat2Pos.id by done. done. Qed.

(** the value of [a / b] *)
Lemma truediv_val (a b : nat) :
  b ≠ 0 → (this (Qc_of_nat a / Qc_of_nat b) == Z.of_nat a # Pos.of_nat b)%Q.
Proof.
  intros Hb. unfold Qcdiv, Qcmult, Qcinv, Q2Qc. cbn [this].
  rewrite !Qred_correct, !Qc_of_nat_val.
  unfold Qeq, Qmult, Qinv, inject_Z. cbn [Qnum Qden].
  destruct (Z.of_nat b) as [|p|p] eqn:Hp; [lia| |lia].
  cbn [Qnum Qden]. rewrite Zpos_of_nat by done. lia.
Qed.

Lemma truediv_le (a b k : nat) :
  b ≠ 0 → (Qc_of_nat a / Qc_of_nat b <= Qc_of_nat k)%Qc ↔ a ≤ k * b.
Proof.
  intros Hb. unfold Qcle. rewrite truediv_val, Qc_of_nat_val by done.
  unfold Qle, inject_Z. cbn [Qnum Qden]. rewrite Zpos_of_nat by done. lia.
Qed.

Lemma truediv_ge (a b k : nat) :
  b ≠ 0 → (Qc_of_nat k <= Qc_of_nat a / Qc_of_nat b)%Qc ↔ k * b ≤ a.
Proof.
  intros Hb. unfold Qcle. rewrite truediv_val, Qc_of_nat_val by done.
  unfold Qle, inject_Z. cbn [Qnum Qden]. rewrite Zpos_of_nat by done. lia.
Qed.


Lemma truediv_eq (a b k : nat) :
  b ≠ 0 → (Qc_of_nat a / Qc_of_nat b)%Qc = Qc_of_nat k ↔ a = k * b.
Proof.
  intros Hb. split.
  - intros H. apply (f_equal this) in H.
    assert (Hq : (Z.of_nat a # Pos.of_nat b == inject_Z (Z.of_nat k))%Q).
    { rewrite <- truediv_val, <- Qc_of_nat_val by done. by rewrite H. }
    unfold Qeq, inject_Z in Hq. cbn [Qnum Qden] in Hq. rewrite Zpos_of_nat in Hq by done. lia.
  - intros ->. apply Qc_is_canon. rewrite truediv_val, Qc_of_nat_val by done.
    unfold Qeq, inject_Z. cbn [Qnum Qden]. rewrite Zpos_of_nat by done. lia.
Qed.

Lemma Qc_of_nat_0 : Qc_of_nat 0 = 0%Qc.
Proof. by apply Qc_is_canon. Qed.

Lemma Qc_of_nat_1 : Qc_of_nat 1 = 1%Qc.
Proof. by apply Qc_is_canon. Qed.

End Fractions.

(** ** Doubles *)

Section Doubles.

Lemma round_Q_eq (x y : Q) : (0 <= x)%Q → (x == y)%Q → (round_Q x == round_Q y)%Q.
Proof.
  intros Hx Hxy. apply Qle_antisym; apply round_Q_mono; lra.
Qed.

Lemma round_double_val (x : Qc) : (this (round_double x) == round_Q x)%Q.
Proof. apply Qred_correct. Qed.

Lemma round_double_mono (x y : Qc) :
  (0 <= x)%Qc → (x <= y)%Qc → (round_double x <= round_double y)%Qc.
Proof.
  unfold Qcle. intros Hx Hxy. rewrite !round_double_val. by apply round_Q_mono.
Qed.

Lemma round_double_nonneg (x : Qc) : (0 <= x)%Qc → (0 <= round_double x)%Qc.
Proof.
  unfold Qcle. intros Hx. rewrite round_double_val. by apply round_Q_nonneg.
Qed.

Lemma round_double_zero (x : Qc) : (0 <= x)%Qc → round_double x = 0%Qc → x = 0%Qc.
Proof.
  intros Hx Hz. apply Qc_is_canon. apply round_Q_zero; [exact Hx|].
  rewrite <- round_double_val, Hz. reflexivity.
Qed.

(** a count below 2^53 is a double *)
Lemma round_double_nat (n : nat) :
  (Z.of_nat n < 2 ^ 53)%Z → round_double (Qc_of_nat n) = Qc_of_nat n.
Proof.
  intros Hn. apply Qc_is_canon. rewrite round_double_val.
  rewrite (round_Q_eq _ (inject_Z (Z.of_nat n))).
  - rewrite round_Q_Z by lia. symmetry. apply Qc_of_nat_val.
  - rewrite Qc_of_nat_val. rewrite <- (Zle_Qle 0). lia.
  - apply Qc_of_nat_val.
Qed.

Lemma round_double_0 : round_double 0 = 0%Qc.
Proof. by apply Qc_is_canon. Qed.

Lemma round_double_1 : round_double 1 = 1%Qc.
Proof. by apply Qc_is_canon. Qed.

Lemma quotient_nonneg (a b : nat) : b ≠ 0 → (0 <= Qc_of_nat a / Qc_of_nat b)%Qc.
Proof. intros Hb. rewrite <- Qc_of_nat_0. apply truediv_ge; [done|lia]. Qed.

Lemma rounded_le (a b k : nat) :
  b ≠ 0 → (Z.of_nat k < 2 ^ 53)%Z → a ≤ k * b →
  (round_double (Qc_of_nat a / Qc_of_nat b) <= Qc_of_nat k)%Qc.
Proof.
  intros Hb Hk Hab. rewrite <- (round_double_nat k Hk).
  apply round_double_mono; [by apply quotient_nonneg|by apply truediv_le].
Qed.

Lemma rounded_ge (a b k : nat) :
  b ≠ 0 → (Z.of_nat k < 2 ^ 53)%Z → k * b ≤ a →
  (Qc_of_nat k <= round_double (Qc_of_nat a / Qc_of_nat b))%Qc.
Proof.
  intros Hb Hk Hab. rewrite <- (round_double_nat k Hk) at 1.
  apply round_double_mono; [|by apply truediv_ge].
  rewrite <- Qc_of_nat_0. unfold Qcle. rewrite !Qc_of_nat_val, <- Zle_Qle. lia.
Qed.

Lemma rounded_eq (a b k : nat) :
  b ≠ 0 → (Z.of_nat k < 2 ^ 53)%Z → a = k * b →
  round_double (Qc_of_nat a / Qc_of_nat b) = Qc_of_nat k.
Proof.
  intros Hb Hk Hab. apply (proj2 (truediv_eq a b k Hb)) in Hab. rewrite Hab.
  by apply round_double_nat.
Qed.

Lemma rounded_zero (a b : nat) :
  b ≠ 0 → round_double (Qc_of_nat a / Qc_of_nat b) = 0%Qc → a = 0.
Proof.
  intros Hb Hz. apply round_double_zero in Hz; [|by apply quotient_nonneg].
  rewrite <- Qc_of_nat_0 in Hz. apply truediv_eq in Hz; [lia|done].
Qed.

(** a proper fraction of counts up to 2^53 stays below 1 *)
Lemma rounded_lt_1 (a b : nat) :
  (Z.of_nat b <= 2 ^ 53)%Z → a < b →
  (round_double (Qc_of_nat a / Qc_of_nat b) < 1)%Qc.
Proof.
  intros Hb Hab. assert (Hb0 : b ≠ 0) by lia.
  set (c := Q2Qc ((2 ^ 53 - 1) # (2 ^ 53))).
  assert (Hc : round_double c = c) by by apply Qc_is_canon.
  apply Qcle_lt_trans with c; [|done].
  rewrite <- Hc. apply round_double_mono; [by apply quotient_nonneg|].
  unfold Qcle. rewrite truediv_val by done. unfold c, Q2Qc. cbn [this].
  rewrite Qred_correct. unfold Qle. cbn [Qnum Qden]. rewrite Zpos_of_nat by done. lia.
Qed.

End Doubles.

Lemma py_truediv_self (n : nat) : n ≠ 0 → py_truediv n n = Ok 1%Qc.
Proof.
  destruct n as [|k]; [done|]. intros _. cbn [py_truediv]. f_equal. unfold Qcdiv.
  rewrite Qcmult_inv_r by apply Qc_of_nat_S_neq_0. apply round_double_1.
Qed.

Lemma py_truediv_ok (a b : nat) :
  b ≠ 0 → py_truediv a b = Ok (round_double (Qc_of_nat a / Qc_of_nat b)%Qc).
Proof. destruct b; [done|]. reflexivity. Qed.

(** ** The similarity function *)

Section Jaccard.
Import Analyze.

Lemma list_to_set_empty_inv (l : list string) :
  list_to_set (C := gset string) l = ∅ → l = [].
Proof.
  destruct l as [|x l]; [done|]. simpl. intros H.
  assert (x ∈ (∅ : gset string)) by (rewrite <- H; set_solver).
  set_solver.
Qed.

Lemma jaccard_similarity_total (a b : list string) :
  ∃ q, jaccard_similarity a b = Ok q.
Proof.
  unfold jaccard_similarity. case_bool_decide as Hu; [eauto|].
  rewrite py_truediv_ok; [eauto|].
  intros Hz. apply size_empty_inv in Hz. apply Hu. by apply leibniz_equiv.
Qed.

Lemma jaccard_similarity_comm (a b : list string) :
  jaccard_similarity a b = jaccard_similarity b a.
Proof.
  unfold jaccard_similarity.
  rewrite (comm_L (∪) (list_to_set b) (list_to_set a)).
  by rewrite (comm_L (∩) (list_to_set b) (list_to_set a)).
Qed.

Lemma jaccard_similarity_self (a : list string) :
  a ≠ [] → jaccard_similarity a a = Ok 1%Qc.
Proof.
  intros Ha. unfold jaccard_similarity.
  rewrite (idemp_L (∪)), (idemp_L (∩)).
  case_bool_decide as Hu.
  - by apply list_to_set_empty_inv in Hu.
  - apply py_truediv_self. intros Hz. apply size_empty_inv in Hz.
    apply Hu. by apply leibniz_equiv.
Qed.

Lemma jaccard_similarity_empty_union (a b : list string) :
  size (list_to_set (C := gset string) a ∪ list_to_set b) = 0 →
  jaccard_similarity a b = Ok 0%Qc.
Proof.
  intros Hz. apply size_empty_inv in Hz. apply leibniz_equiv in Hz.
  unfold jaccard_similarity. by rewrite bool_decide_eq_true_2.
Qed.
End Jaccard.

(** The example of the specification: token sets {a,b,c} and {b,c,d}. *)
Example jaccard_similarity_half :
  Analyze.jaccard_similarity ["a"; "b"; "c"] ["b"; "c"; "d"] = Ok (Q2Qc (1 # 2)).
Proof. vm_compute. f_equal. apply Qc_is_canon. reflexivity. Qed.

(** ** Ratios with a zero denominator *)

Section Ratios.
Import Analyze.

Lemma mean_word_length_total (words : list string) :
  ∃ q, Process.mean_word_length words = Ok q.
Proof. destruct words; simpl; eauto. Qed.

Lemma relative_frequency_total (c total : nat) :
  ∃ q, relative_frequency c total = Ok q.
Proof. unfold relative_frequency. destruct total; simpl; eauto. Qed.

Lemma sentence_est_pos (total : nat) : total ≠ 0 → sentence_est total ≠ 0.
Proof. unfold sentence_est. destruct (Nat.eqb_spec total 0); [done|lia]. Qed.

Lemma avg_sentence_len_total (total : nat) : ∃ q, avg_sentence_len total = Ok q.
Proof.
  unfold avg_sentence_len. destruct (Nat.eqb_spec (sentence_est total) 0); [eauto|].
  rewrite py_truediv_ok by done. eauto.
Qed.

Lemma avg_word_len_total (fr : counter) (total : nat) :
  ∃ q, avg_word_len fr total = Ok q.
Proof. unfold avg_word_len. destruct total; simpl; eauto. Qed.

Lemma compute_readability_total (fr : counter) (total : nat) :
  ∃ asl awl,
    avg_sentence_len total = Ok asl ∧ avg_word_len fr total = Ok awl ∧
    compute_readability fr total = Ok (Readability asl awl (py_mul asl awl)).
Proof.
  destruct (avg_sentence_len_total total) as [asl Ha].
  destruct (avg_word_len_total fr total) as [awl Hw].
  exists asl, awl. unfold compute_readability. by rewrite Ha, Hw.
Qed.

Lemma compute_readability_zero (fr : counter) :
  compute_readability fr 0 = Ok (Readability 0%Qc 0%Qc 0%Qc).
Proof. reflexivity. Qed.
End Ratios.

(** ** Readability *)

Section ReadabilityFacts.
Import Analyze.

Lemma sum_len_app (l1 l2 : list string) :
  sum_len (l1 ++ l2) = sum_len l1 + sum_len l2.
Proof. induction l1 as [|x l1 IH]; simpl; [done|]. rewrite IH. lia. Qed.

Lemma sum_len_replicate (n : nat) (w : string) :
  sum_len (replicate n w) = n * String.length w.
Proof. induction n as [|n IH]; simpl; [done|]. rewrite IH. lia. Qed.

Lemma sum_len_elements (fr : counter) : sum_len (elements fr) = weighted_len fr.
Proof.
  induction fr as [|[k n] fr IH]; [done|].
  unfold elements in *. simpl. rewrite sum_len_app, sum_len_replicate, IH. done.
Qed.

Lemma weighted_len_add (w : string) (c : counter) :
  weighted_len (counter_add w c) = String.length w + weighted_len c.
Proof.
  induction c as [|[k n] c IH]; simpl; [lia|].
  destruct (String.eqb_spec k w) as [->|Hne]; simpl; [lia|]. rewrite IH. lia.
Qed.

Lemma weighted_len_foldl (items : list string) (c : counter) :
  weighted_len (foldl (λ c w, counter_add w c) c items) = weighted_len c + sum_len items.
Proof.
  revert c. induction items as [|w items IH]; intros c; simpl; [lia|].
  rewrite IH, weighted_len_add. lia.
Qed.

Lemma weighted_len_Counter (items : list string) :
  weighted_len (Counter items) = sum_len items.
Proof. unfold Counter. by rewrite weighted_len_foldl. Qed.



Lemma count_total_words_length (docs : list document) :
  count_total_words docs = length (all_tokens docs).
Proof.
  unfold all_tokens. induction docs as [|d docs IH]; simpl; [done|].
  rewrite length_app. by rewrite IH.
Qed.
End ReadabilityFacts.

(** ** Ranked tables *)

Section Ranking.
Import Analyze.

Lemma insert_by_count_perm (x : string * nat) (l : counter) :
  insert_by_count x l ≡ₚ x :: l.
Proof.
  induction l as [|y l IH]; simpl; [done|].
  destruct (snd x <? snd y)%nat; [|done].
  rewrite IH. apply Permutation_swap.
Qed.

Lemma sort_by_count_perm (c : counter) : sort_by_count c ≡ₚ c.
Proof.
  induction c as [|x c IH]; simpl; [done|].
  rewrite insert_by_count_perm. by rewrite IH.
Qed.

(** inserting an element that precedes all others keeps the ranking *)
Lemma insert_by_count_ranked (B : string * nat → string * nat → Prop)
    (x : string * nat) (l : counter) :
  StronglySorted (λ a b, snd b < snd a ∨ (snd a = snd b ∧ B a b)) l →
  Forall (B x) l →
  StronglySorted (λ a b, snd b < snd a ∨ (snd a = snd b ∧ B a b)) (insert_by_count x l).
Proof.
  induction l as [|y l IH]; intros Hs Hb; simpl.
  - repeat constructor.
  - apply StronglySorted_inv in Hs as [Hs Hy].
    apply Forall_cons in Hb as [Hxy Hb].
    destruct (Nat.ltb_spec (snd x) (snd y)) as [Hlt|Hge].
    + constructor; [by apply IH|].
      rewrite insert_by_count_perm. constructor; [by left|done].
    + constructor; [by constructor|].
      constructor.
      * destruct (decide (snd y = snd x)) as [Heq|Hne]; [right; by split|left; lia].
      * rewrite Forall_forall in Hy, Hb |- *. intros z Hz.
        assert (snd z ≤ snd y)%nat by (destruct (Hy z Hz) as [?|[? _]]; lia).
        destruct (decide (snd z = snd x)) as [Heq|Hne]; [right; split; auto|left; lia].
Qed.

Lemma sort_by_count_ranked (B : string * nat → string * nat → Prop) (c : counter) :
  StronglySorted B c →
  StronglySorted (λ a b, snd b < snd a ∨ (snd a = snd b ∧ B a b)) (sort_by_count c).
Proof.
  induction c as [|x c IH]; intros Hs; simpl; [constructor|].
  apply StronglySorted_inv in Hs as [Hs Hx].
  apply insert_by_count_ranked; [by apply IH|].
  by rewrite sort_by_count_perm.
Qed.

Lemma StronglySorted_take {A} (R : A → A → Prop) (n : nat) (l : list A) :
  StronglySorted R l → StronglySorted R (take n l).
Proof.
  intros Hs. rewrite <- (take_drop n l) in Hs.
  by apply StronglySorted_app_1_l in Hs.
Qed.

(** *** The keys of a [Counter] are in order of first occurrence *)

Lemma counter_add_keys (w : string) (c : counter) :
  (counter_add w c).*1 = if bool_decide (w ∈ c.*1) then c.*1 else c.*1 ++ [w].
Proof.
  induction c as [|[k n] c IH].
  - rewrite bool_decide_eq_false_2; [done|]. apply not_elem_of_nil.
  - cbn [counter_add]. destruct (String.eqb_spec k w) as [->|Hne]; rewrite !fmap_cons.
    + rewrite bool_decide_eq_true_2; [done|]. apply elem_of_cons. by left.
    + rewrite IH. cbn [fst]. case_bool_decide as Hin.
      * rewrite bool_decide_eq_true_2; [done|]. apply elem_of_cons. by right.
      * rewrite bool_decide_eq_false_2; [done|].
        intros [?|?]%elem_of_cons; congruence.
Qed.

Lemma first_index_in_prefix (w : string) (pre rest : list string) :
  w ∈ pre → first_index w (pre ++ rest) < length pre.
Proof.
  induction pre as [|x pre IH]; intros Hin; [set_solver|]. simpl.
  destruct (String.eqb_spec x w) as [->|Hne]; [lia|].
  apply elem_of_cons in Hin as [->|Hin]; [done|]. specialize (IH Hin). lia.
Qed.

Lemma first_index_not_in_prefix (w : string) (pre rest : list string) :
  w ∉ pre → (length pre ≤ first_index w (pre ++ rest))%nat.
Proof.
  induction pre as [|x pre IH]; intros Hin; simpl; [lia|].
  destruct (String.eqb_spec x w) as [->|Hne]; [set_solver|].
  assert (w ∉ pre) by set_solver. specialize (IH H). lia.
Qed.

Lemma Counter_keys_order_gen (rest pre : list string) (c : counter) :
  (∀ k, k ∈ c.*1 ↔ k ∈ pre) →
  StronglySorted (λ k1 k2, first_index k1 (pre ++ rest) < first_index k2 (pre ++ rest)) c.*1 →
  StronglySorted (λ k1 k2, first_index k1 (pre ++ rest) < first_index k2 (pre ++ rest))
    (foldl (λ c w, counter_add w c) c rest).*1.
Proof.
  revert pre c. induction rest as [|w rest IH]; intros pre c Hkeys Hs; simpl; [done|].
  replace (pre ++ w :: rest) with ((pre ++ [w]) ++ rest) in * by by rewrite <- app_assoc.
  apply IH.
  - intros k. rewrite counter_add_keys. case_bool_decide as Hin.
    + rewrite Hkeys, elem_of_app, list_elem_of_singleton. apply Hkeys in Hin.
      split; [by left|]. by intros [?| ->].
    + rewrite !elem_of_app, Hkeys. done.
  - rewrite counter_add_keys. case_bool_decide as Hin; [done|].
    apply StronglySorted_app; split; [|split; [done|repeat constructor]].
    intros k1 k2 Hk1 Hk2. apply list_elem_of_singleton in Hk2 as ->.
    apply Hkeys in Hk1. rewrite Hkeys in Hin.
    rewrite <- !app_assoc. simpl.
    pose proof (first_index_in_prefix k1 pre (w :: rest) Hk1).
    pose proof (first_index_not_in_prefix w pre (w :: rest) Hin). lia.
Qed.

Lemma StronglySorted_fmap_fst (R : string → string → Prop) (c : counter) :
  StronglySorted R c.*1 → StronglySorted (λ a b, R (fst a) (fst b)) c.
Proof.
  induction c as [|x c IH]; simpl; intros Hs; [constructor|].
  apply StronglySorted_inv in Hs as [Hs Hx]. constructor; [by apply IH|].
  rewrite Forall_fmap in Hx. done.
Qed.

Lemma Counter_keys_order (items : list string) :
  StronglySorted (λ a b, first_index (fst a) items < first_index (fst b) items)
    (Counter items).
Proof.
  apply (StronglySorted_fmap_fst (λ k1 k2, first_index k1 items < first_index k2 items)).
  pose proof (Counter_keys_order_gen items [] []) as H. simpl in H.
  apply H; [set_solver|constructor].
Qed.

(** [most_common] returns at most [n] items, ranked by descending count
    and, among equal counts, by first occurrence *)
Lemma most_common_length (n : nat) (c : counter) : (length (most_common n c) ≤ n)%nat.
Proof. unfold most_common. rewrite length_take. lia. Qed.

Lemma most_common_ranked (n : nat) (items : list string) :
  StronglySorted (count_then_first_seen items) (most_common n (Counter items)).
Proof.
  unfold most_common. apply StronglySorted_take.
  apply (sort_by_count_ranked
           (λ a b, first_index (fst a) items < first_index (fst b) items)).
  apply Counter_keys_order.
Qed.

End Ranking.

(** ** Sorted directory listings *)

Section SortedFacts.
Context {A : Type}.
Implicit Types (l : list (string * A)) (x : string * A).

Lemma insert_by_name_perm x l : insert_by_name x l ≡ₚ x :: l.
Proof.
  induction l as [|y l IH]; simpl; [done|].
  destruct (String.leb (fst x) (fst y)); [done|].
  rewrite IH. apply Permutation_swap.
Qed.

Lemma sorted_perm l : sorted l ≡ₚ l.
Proof.
  induction l as [|x l IH]; simpl; [done|].
  rewrite insert_by_name_perm. by rewrite IH.
Qed.

Lemma leb_false_le (s1 s2 : string) : String.leb s1 s2 = false → String.le s2 s1.
Proof.
  intros Hf. unfold String.le. destruct (String.leb_total s1 s2) as [H|H].
  - congruence.
  - by rewrite H.
Qed.

Lemma insert_by_name_sorted x l :
  StronglySorted (λ a b, String.le (fst a) (fst b)) l →
  StronglySorted (λ a b, String.le (fst a) (fst b)) (insert_by_name x l).
Proof.
  induction l as [|y l IH]; intros Hs; simpl.
  - repeat constructor.
  - apply StronglySorted_inv in Hs as [Hs Hy].
    destruct (String.leb (fst x) (fst y)) eqn:Hxy.
    + constructor; [by constructor|].
      assert (Hle : String.le (fst x) (fst y)) by (unfold String.le; by rewrite Hxy).
      constructor; [done|].
      eapply Forall_impl; [exact Hy|]. intros z Hz. simpl in Hz. by etrans.
    + constructor; [by apply IH|].
      rewrite insert_by_name_perm. constructor; [by apply leb_false_le|done].
Qed.

Lemma sorted_sorted l : StronglySorted (λ a b, String.le (fst a) (fst b)) (sorted l).
Proof.
  induction l as [|x l IH]; simpl; [constructor|]. by apply insert_by_name_sorted.
Qed.

Lemma filter_cons_bool {B} (P : B → bool) (x : B) (l : list B) :
  filter (λ e, P e = true) (x :: l)
  = if P x then x :: filter (λ e, P e = true) l else filter (λ e, P e = true) l.
Proof.
  rewrite filter_cons. destruct (P x) eqn:Hx.
  - by rewrite decide_True.
  - by rewrite decide_False.
Qed.

Lemma Forall_filter_keep {B} (Q : B → Prop) (P : B → Prop) `{∀ b, Decision (P b)}
    (l : list B) :
  Forall Q l → Forall Q (filter P l).
Proof.
  rewrite !Forall_forall. intros HQ z Hz. apply HQ.
  by apply list_elem_of_filter in Hz as [_ Hz].
Qed.

Lemma insert_by_name_head x l :
  Forall (λ z, String.le (fst x) (fst z)) l → insert_by_name x l = x :: l.
Proof.
  destruct l as [|y l]; [done|]. intros [Hy _]%Forall_cons. simpl.
  unfold String.le in Hy. by destruct (String.leb (fst x) (fst y)).
Qed.

Lemma filter_insert_by_name (P : string * A → bool) x l :
  StronglySorted (λ a b, String.le (fst a) (fst b)) l →
  filter (λ e, P e = true) (insert_by_name x l)
  = if P x then insert_by_name x (filter (λ e, P e = true) l)
    else filter (λ e, P e = true) l.
Proof.
  induction l as [|y l IH]; intros Hs; simpl.
  - rewrite filter_cons_bool. by destruct (P x).
  - apply StronglySorted_inv in Hs as [Hs Hy]. specialize (IH Hs).
    destruct (String.leb (fst x) (fst y)) eqn:Hxy.
    + rewrite !filter_cons_bool. destruct (P x) eqn:Hx; [|done].
      destruct (P y) eqn:Hy'.
      * simpl. by rewrite Hxy.
      * symmetry. apply insert_by_name_head. apply Forall_filter_keep.
        eapply Forall_impl; [exact Hy|]. intros z Hz. simpl in Hz.
        etrans; [|exact Hz]. unfold String.le. by rewrite Hxy.
    + rewrite !filter_cons_bool, IH. destruct (P y) eqn:Hy'; [|done].
      destruct (P x); [|done]. simpl. by rewrite Hxy.
Qed.

(** sorting and selecting by name commute *)
Lemma filter_sorted (P : string * A → bool) l :
  filter (λ e, P e = true) (sorted l) = sorted (filter (λ e, P e = true) l).
Proof.
  induction l as [|x l IH]; simpl; [done|].
  rewrite filter_insert_by_name by apply sorted_sorted.
  rewrite filter_cons_bool. destruct (P x) eqn:Hx; [|done].
  simpl. by rewrite IH.
Qed.

Lemma filter_filter_same (P : string * A → bool) l :
  filter (λ e, P e = true) (filter (λ e, P e = true) l) = filter (λ e, P e = true) l.
Proof.
  induction l as [|x l IH]; [done|].
  rewrite filter_cons_bool. destruct (P x) eqn:Hx; [|done].
  rewrite filter_cons_bool, Hx. by rewrite IH.
Qed.

Lemma StronglySorted_filter {B} (R : B → B → Prop) (P : B → Prop)
    `{∀ b, Decision (P b)} (k : list B) :
  StronglySorted R k → StronglySorted R (filter P k).
Proof.
  induction 1 as [|b k Hs IH Hx]; [constructor|].
  rewrite filter_cons. case_decide; [|done].
  constructor; [done|]. by apply Forall_filter_keep.
Qed.

Lemma names_sorted (P : string * A → bool) l :
  StronglySorted String.le (filter (λ e, P e = true) (sorted l)).*1.
Proof.
  pose proof (StronglySorted_filter _ (λ e, P e = true) _ (sorted_sorted l)) as Hs.
  induction Hs as [|x l' Hs IH Hx]; simpl; [constructor|].
  constructor; [done|]. by rewrite Forall_fmap.
Qed.

Lemma names_perm (P : string * A → bool) l :
  (filter (λ e, P e = true) (sorted l)).*1 ≡ₚ (filter (λ e, P e = true) l).*1.
Proof. by rewrite sorted_perm. Qed.

End SortedFacts.

(** ** Traces of the two stages *)

Lemma repeat_io_waiting (n : nat) (msg : string) (t : nat) :
  IO.repeat_io n (IO.emit (Print msg) ;;; IO.emit (Sleep 2)) t = (waiting n msg, t, Ok tt).
Proof.
  unfold waiting. induction n as [|n IH]; [done|].
  simpl. unfold IO.bind at 1. simpl. rewrite IH. done.
Qed.

Lemma for_each_cons {A S} (x : A) (l : list A) (body : A → S → IO.io S) (acc : S) (t : nat) :
  IO.for_each (x :: l) body acc t
  = match body x acc t with
    | (ev, t', Ok a) =>
        match IO.for_each l body a t' with
        | (ev', t'', r) => (ev ++ ev', t'', r)
        end
    | (ev, t', Err e) => (ev, t', Err e)
    end.
Proof. reflexivity. Qed.

Section ProcessTrace.
Import Process.
Variable clock : nat → string.

Lemma document_stats_ok (html text : string) :
  document_stats html text = Ok (stats_of html text).
Proof.
  unfold stats_of, document_stats.
  destruct (mean_word_length_total (Re.findall WORD_RE text)) as [q ->]. done.
Qed.

Lemma process_entry_other (f : string) (file : raw_file) (acc : list string) (t : nat) :
  is_html (f, file) = false → process_entry clock (f, file) acc t = ([], t, Ok acc).
Proof. unfold is_html, process_entry. simpl. by intros ->. Qed.

Lemma process_entry_readable (f html : string) (acc : list string) (t : nat) :
  is_html (f, RawText html) = true →
  process_entry clock (f, RawText html) acc t
  = (document_events (record_of clock f html t), S t, Ok (acc ++ [out_name f])).
Proof.
  unfold is_html, process_entry, record_of, document_events. simpl. intros ->. simpl.
  unfold read_raw, IO.bind, IO.emit, IO.ret, IO.lift, utc. simpl.
  destruct (strip_html html) as [[text links] images]. simpl.
  by rewrite document_stats_ok.
Qed.

Lemma process_entry_unreadable (f msg : string) (acc : list string) (t : nat) :
  is_html (f, RawUnreadable msg) = true →
  process_entry clock (f, RawUnreadable msg) acc t
  = ([ReadFile (raw_path f)], t, Err (OSError msg)).
Proof. unfold is_html, process_entry. simpl. by intros ->. Qed.

Lemma source_file_record_of (f html : string) (t : nat) :
  source_file (record_of clock f html t) = f.
Proof. unfold record_of. by destruct (strip_html html) as [[? ?] ?]. Qed.

(** The loop over the directory entries: the [.html] entries up to the
    first unreadable one give their two events each; the loop ends with the
    list of the records produced, or stops at the first unreadable entry,
    right after trying to read it. *)
Lemma process_loop (l : list (string * raw_file)) (acc : list string) (t : nat) :
  IO.for_each l (process_entry clock) acc t
  = match first_unreadable (filter (λ e, is_html e = true) l) with
    | None =>
        (flat_map document_events (records_from clock t (filter (λ e, is_html e = true) l)),
         t + length (records_from clock t (filter (λ e, is_html e = true) l)),
         Ok (acc ++ produced (records_from clock t (filter (λ e, is_html e = true) l))))
    | Some (f, msg) =>
        (flat_map document_events (records_from clock t (filter (λ e, is_html e = true) l))
           ++ [ReadFile (raw_path f)],
         t + length (records_from clock t (filter (λ e, is_html e = true) l)),
         Err (OSError msg))
    end.
Proof.
  revert acc t. induction l as [|[f file] l IH]; intros acc t.
  - rewrite filter_nil. simpl. unfold IO.ret. by rewrite Nat.add_0_r, app_nil_r.
  - rewrite for_each_cons, filter_cons_bool.
    destruct (is_html (f, file)) eqn:Hh.
    + destruct file as [html|msg].
      * rewrite process_entry_readable by done. rewrite IH.
        cbn [first_unreadable records_from flat_map length].
        unfold produced. rewrite fmap_cons, source_file_record_of.
        destruct (first_unreadable _) as [[f' msg]|].
        -- rewrite <- !app_assoc. do 2 f_equal. lia.
        -- rewrite <- !app_assoc. do 2 f_equal. lia.
      * rewrite process_entry_unreadable by done. simpl. by rewrite Nat.add_0_r.
    + rewrite process_entry_other by done. rewrite IH.
      by destruct (first_unreadable _) as [[f' msg]|].
Qed.

(** the run of [main] *)
Lemma process_main_trace (absent : nat) (raw : list (string * raw_file)) (t : nat) :
  main clock absent raw t
  = match first_unreadable (filter (λ e, is_html e = true) (sorted raw)) with
    | None =>
        (extraction_start absent
           ++ flat_map document_events
                (records_from clock t (filter (λ e, is_html e = true) (sorted raw)))
           ++ [WriteMarker marker_path
                 (clock (t + length (records_from clock t
                                       (filter (λ e, is_html e = true) (sorted raw)))))
                 (produced (records_from clock t
                              (filter (λ e, is_html e = true) (sorted raw))))],
         S (t + length (records_from clock t (filter (λ e, is_html e = true) (sorted raw)))),
         Ok tt)
    | Some (f, msg) =>
        (extraction_start absent
           ++ flat_map document_events
                (records_from clock t (filter (λ e, is_html e = true) (sorted raw)))
           ++ [ReadFile (raw_path f)],
         t + length (records_from clock t (filter (λ e, is_html e = true) (sorted raw))),
         Err (OSError msg))
    end.
Proof.
  unfold main. unfold IO.bind at 1 2 3. simpl.
  rewrite repeat_io_waiting. unfold IO.bind at 1. simpl. unfold IO.bind at 1.
  rewrite process_loop.
  destruct (first_unreadable _) as [[f msg]|]; simpl.
  - unfold extraction_start. simpl. by rewrite <- !app_assoc.
  - unfold extraction_start. simpl. by rewrite <- !app_assoc.
Qed.

(** the readable prefix of a list of entries *)
Lemma first_unreadable_None (l : list (string * raw_file)) (t : nat) :
  first_unreadable l = None →
  Forall (λ e, is_readable e = true) l ∧ source_file <$> records_from clock t l = l.*1.
Proof.
  revert t. induction l as [|[f [html|msg]] l IH]; intros t Hn; simpl in *; [done| |done].
  destruct (IH (S t) Hn) as [Hr Hs]. split; [by constructor|].
  by f_equal.
Qed.

Lemma first_unreadable_Some (l : list (string * raw_file)) (t : nat) (f msg : string) :
  first_unreadable l = Some (f, msg) →
  ∃ l1 l2, l = l1 ++ (f, RawUnreadable msg) :: l2
           ∧ Forall (λ e, is_readable e = true) l1
           ∧ source_file <$> records_from clock t l = l1.*1.
Proof.
  revert t. induction l as [|[f' [html|msg']] l IH]; intros t Hn; simpl in *; [done| |].
  - destruct (IH (S t) Hn) as (l1 & l2 & -> & Hr & Hs).
    exists ((f', RawText html) :: l1), l2. split; [done|]. split; [by constructor|].
    simpl. by f_equal.
  - injection Hn as -> ->. by exists [], l.
Qed.

Lemma first_unreadable_app (l1 l2 : list (string * raw_file)) (f msg : string) :
  Forall (λ e, is_readable e = true) l1 →
  first_unreadable (l1 ++ (f, RawUnreadable msg) :: l2) = Some (f, msg).
Proof.
  induction l1 as [|[f' [html|msg']] l1 IH]; intros Hr; simpl; [done| |].
  - apply Forall_cons in Hr as [_ Hr]. by apply IH.
  - by apply Forall_cons in Hr as [Hr _].
Qed.

Lemma first_unreadable_readable (l : list (string * raw_file)) :
  Forall (λ e, is_readable e = true) l → first_unreadable l = None.
Proof.
  induction l as [|[f' [html|msg']] l IH]; intros Hr; simpl; [done| |].
  - apply Forall_cons in Hr as [_ Hr]. by apply IH.
  - by apply Forall_cons in Hr as [Hr _].
Qed.

Lemma records_from_app (l1 l2 : list (string * raw_file)) (f msg : string) (t : nat) :
  Forall (λ e, is_readable e = true) l1 →
  source_file <$> records_from clock t (l1 ++ (f, RawUnreadable msg) :: l2) = l1.*1.
Proof.
  revert t. induction l1 as [|[f' [html|msg']] l1 IH]; intros t Hr; simpl; [done| |].
  - apply Forall_cons in Hr as [_ Hr]. f_equal. by apply IH.
  - by apply Forall_cons in Hr as [Hr _].
Qed.

End ProcessTrace.

Section AnalyzeTrace.
Import Analyze.
Variable clock : nat → string.

Lemma load_entry_other (f : string) (file : processed_file) (acc : list document) (t : nat) :
  is_json (f, file) = false → load_entry (f, file) acc t = ([], t, Ok acc).
Proof. unfold is_json, load_entry. simpl. by intros ->. Qed.

Lemma load_entry_loadable (f : string) (data : option string) (acc : list document) (t : nat) :
  is_json (f, JsonObject data) = true →
  load_entry (f, JsonObject data) acc t
  = ([ReadFile (processed_path f)], t, Ok (acc ++ [document_of (f, JsonObject data)])).
Proof. unfold is_json, load_entry. simpl. by intros ->. Qed.

Lemma load_entry_other_text (f : string) (acc : list document) (t : nat) :
  is_json (f, JsonObjectOtherText) = true →
  load_entry (f, JsonObjectOtherText) acc t = ([ReadFile (processed_path f)], t, Err TypeError).
Proof. unfold is_json, load_entry. simpl. by intros ->. Qed.

Lemma load_entry_not_object (f : string) (acc : list document) (t : nat) :
  is_json (f, JsonOther) = true →
  load_entry (f, JsonOther) acc t = ([ReadFile (processed_path f)], t, Err AttributeError).
Proof. unfold is_json, load_entry. simpl. by intros ->. Qed.

Lemma load_entry_unloadable (f : string) (e : py_error) (acc : list document) (t : nat) :
  is_json (f, Unloadable e) = true →
  load_entry (f, Unloadable e) acc t = ([ReadFile (processed_path f)], t, Err e).
Proof. unfold is_json, load_entry. simpl. by intros ->. Qed.

(** The loop at lines 41-47: the [.json] entries are read in turn, up to
    the first that does not load. *)
Lemma load_loop (l : list (string * processed_file)) (acc : list document) (t : nat) :
  IO.for_each l load_entry acc t
  = match first_unloadable (filter (λ e, is_json e = true) l) with
    | None =>
        ((λ d, ReadFile (processed_path (fst d)))
           <$> documents_from (filter (λ e, is_json e = true) l),
         t, Ok (acc ++ documents_from (filter (λ e, is_json e = true) l)))
    | Some (f, e) =>
        (((λ d, ReadFile (processed_path (fst d)))
            <$> documents_from (filter (λ e, is_json e = true) l))
           ++ [ReadFile (processed_path f)],
         t, Err e)
    end.
Proof.
  revert acc. induction l as [|[f file] l IH]; intros acc.
  - rewrite filter_nil. simpl. unfold IO.ret. by rewrite app_nil_r.
  - rewrite for_each_cons, filter_cons_bool.
    destruct (is_json (f, file)) eqn:Hj.
    + destruct file as [data| | |e].
      * rewrite load_entry_loadable by done. rewrite IH.
        cbn [first_unloadable documents_from].
        destruct (first_unloadable _) as [[f' e]|]; [done|].
        rewrite fmap_cons, <- app_assoc. done.
      * rewrite load_entry_other_text by done. done.
      * rewrite load_entry_not_object by done. done.
      * rewrite load_entry_unloadable by done. done.
    + rewrite load_entry_other by done. rewrite IH.
      by destruct (first_unloadable _) as [[f' e]|].
Qed.

(** the report of the documents loaded, lines 49-81 *)
Lemma top100_ok (docs : list document) :
  ∃ top, top100 docs = Ok top ∧ word_counts top = most_common 100 (freq docs).
Proof.
  unfold top100. generalize (most_common 100 (freq docs)). intros l.
  induction l as [|[w c] l (top & Ht & Hw)].
  - by exists [].
  - destruct (relative_frequency_total c (count_total_words docs)) as [q Hq].
    exists (WordEntry w c q :: top). simpl. rewrite Hq. simpl. rewrite Ht. simpl.
    split; [done|]. unfold word_counts in *. simpl. by f_equal.
Qed.

Lemma sims_at_most_one (docs : list document) : length docs ≤ 1 → sims docs = Ok [].
Proof.
  destruct docs as [|[f1 t1] [|d2 docs]]; simpl; [done|done|lia].
Qed.

(** with two documents or more, the first pair already fails: the loop
    calls [jaccard], a name the module does not bind *)
Lemma sims_two_or_more (docs : list document) :
  2 ≤ length docs → sims docs = Err (NameError "jaccard").
Proof.
  destruct docs as [|[f1 t1] [|[f2 t2] docs]]; simpl; [lia|lia|]. done.
Qed.

Lemma build_report_one (docs : list document) (t : nat) :
  length docs ≤ 1 →
  ∃ top rd,
    top100 docs = Ok top
    ∧ compute_readability (freq docs) (count_total_words docs) = Ok rd
    ∧ build_report clock docs t
      = ([], S t,
         Ok (Report (clock t) (length docs) (count_total_words docs) (size (vocab docs))
                    top [] (bigrams docs) (trigrams docs) rd)).
Proof.
  intros Hlen. destruct (top100_ok docs) as (top & Ht & _).
  destruct (compute_readability_total (freq docs) (count_total_words docs))
    as (asl & awl & _ & _ & Hrd).
  exists top, (Readability asl awl (py_mul asl awl)). split; [done|]. split; [done|].
  unfold build_report, IO.bind, IO.lift, IO.ret, utc.
  by rewrite Ht, (sims_at_most_one docs Hlen), Hrd.
Qed.

Lemma build_report_many (docs : list document) (t : nat) :
  2 ≤ length docs → build_report clock docs t = ([], t, Err (NameError "jaccard")).
Proof.
  intros Hlen. destruct (top100_ok docs) as (top & Ht & _).
  unfold build_report, IO.bind, IO.lift.
  by rewrite Ht, (sims_two_or_more docs Hlen).
Qed.

(** the run of [main] *)
Lemma analyze_main_trace (absent : nat) (processed : list (string * processed_file))
    (t : nat) :
  main clock absent processed t
  = match first_unloadable (filter (λ e, is_json e = true) (sorted processed)) with
    | None =>
        match build_report clock
                (documents_from (filter (λ e, is_json e = true) (sorted processed))) t with
        | (_, t', Ok r) =>
            (analysis_start absent
               ++ ((λ d, ReadFile (processed_path (fst d)))
                     <$> documents_from (filter (λ e, is_json e = true) (sorted processed)))
               ++ [WriteReport report_path r],
             t', Ok tt)
        | (_, t', Err e) =>
            (analysis_start absent
               ++ ((λ d, ReadFile (processed_path (fst d)))
                     <$> documents_from (filter (λ e, is_json e = true) (sorted processed))),
             t', Err e)
        end
    | Some (f, e) =>
        (analysis_start absent
           ++ ((λ d, ReadFile (processed_path (fst d)))
                 <$> documents_from (filter (λ e, is_json e = true) (sorted processed)))
           ++ [ReadFile (processed_path f)],
         t, Err e)
    end.
Proof.
  unfold main. unfold IO.bind at 1 2 3. simpl.
  rewrite repeat_io_waiting. unfold IO.bind at 1. simpl. unfold IO.bind at 1.
  rewrite load_loop.
  destruct (first_unloadable _) as [[f e]|]; simpl.
  - unfold analysis_start. simpl. by rewrite <- !app_assoc.
  - unfold IO.bind at 1.
    set (docs := documents_from _).
    destruct (Nat.le_gt_cases (length docs) 1) as [Hlen|Hlen].
    + destruct (build_report_one docs t Hlen) as (top & rd & _ & _ & ->).
      unfold analysis_start, IO.emit. simpl. by rewrite <- ?app_assoc, ?app_nil_r.
    + rewrite (build_report_many docs t) by lia.
      unfold analysis_start. simpl. by rewrite <- ?app_assoc, ?app_nil_r.
Qed.

Lemma first_unloadable_loadable (l : list (string * processed_file)) :
  Forall (λ e, is_loadable e = true) l → first_unloadable l = None.
Proof.
  induction l as [|[f [data| | |e]] l IH]; intros Hr; simpl; [done| | | |];
    [|by apply Forall_cons in Hr as [Hr _]..].
  apply Forall_cons in Hr as [_ Hr]. by apply IH.
Qed.

Lemma documents_from_loadable (l : list (string * processed_file)) :
  Forall (λ e, is_loadable e = true) l → documents_from l = document_of <$> l.
Proof.
  induction l as [|[f [data| | |e]] l IH]; intros Hr; simpl; [done| | | |];
    [|by apply Forall_cons in Hr as [Hr _]..].
  apply Forall_cons in Hr as [_ Hr]. f_equal. by apply IH.
Qed.

Lemma documents_from_prefix (l : list (string * processed_file)) :
  (documents_from l).*1 `prefix_of` l.*1.
Proof.
  induction l as [|[f [data| | |e]] l IH]; simpl; [done| |apply prefix_nil..].
  by apply prefix_cons.
Qed.

Lemma first_unloadable_Some (l : list (string * processed_file)) (f : string) (e : py_error) :
  first_unloadable l = Some (f, e) →
  ∃ l2, l.*1 = (documents_from l).*1 ++ f :: l2.
Proof.
  induction l as [|[f' [data| | |e']] l IH]; intros Hn; simpl in *; [done| | | |].
  - destruct (IH Hn) as (l2 & H). exists l2. by f_equal.
  - injection Hn as -> _. by exists l.*1.
  - injection Hn as -> _. by exists l.*1.
  - injection Hn as -> ->. by exists l.*1.
Qed.

End AnalyzeTrace.

(** ** What a trace holds *)

Section Projections.

Lemma files_read_app (tr1 tr2 : list event) :
  files_read (tr1 ++ tr2) = files_read tr1 ++ files_read tr2.
Proof. apply omap_app. Qed.

Lemma written_records_app (tr1 tr2 : list event) :
  written_records (tr1 ++ tr2) = written_records tr1 ++ written_records tr2.
Proof. apply omap_app. Qed.

Lemma written_markers_app (tr1 tr2 : list event) :
  written_markers (tr1 ++ tr2) = written_markers tr1 ++ written_markers tr2.
Proof. apply omap_app. Qed.

Lemma written_reports_app (tr1 tr2 : list event) :
  written_reports (tr1 ++ tr2) = written_reports tr1 ++ written_reports tr2.
Proof. apply omap_app. Qed.

Lemma printed_app (tr1 tr2 : list event) : printed (tr1 ++ tr2) = printed tr1 ++ printed tr2.
Proof. apply omap_app. Qed.

Lemma waiting_S (n : nat) (msg : string) :
  waiting (S n) msg = Print msg :: Sleep 2 :: waiting n msg.
Proof. reflexivity. Qed.

Lemma waiting_quiet (n : nat) (msg : string) :
  files_read (waiting n msg) = [] ∧ written_records (waiting n msg) = []
  ∧ written_markers (waiting n msg) = [] ∧ written_reports (waiting n msg) = []
  ∧ printed (waiting n msg) = replicate n msg.
Proof.
  induction n as [|n (Hf & Hr & Hm & Hp & Hl)]; [done|].
  rewrite waiting_S. repeat split; try done. cbn. by rewrite <- Hl.
Qed.

Lemma extraction_start_quiet (absent : nat) :
  files_read (extraction_start absent) = [] ∧ written_records (extraction_start absent) = []
  ∧ written_markers (extraction_start absent) = []
  ∧ printed (extraction_start absent) = replicate absent "Waiting for fetch_complete.json...".
Proof.
  destruct (waiting_quiet absent "Waiting for fetch_complete.json...")
    as (Hf & Hr & Hm & _ & Hl).
  unfold extraction_start.
  rewrite !files_read_app, !written_records_app, !written_markers_app, !printed_app.
  rewrite Hf, Hr, Hm, Hl. cbn. by rewrite app_nil_r.
Qed.

Lemma analysis_start_quiet (absent : nat) :
  files_read (analysis_start absent) = [] ∧ written_reports (analysis_start absent) = []
  ∧ printed (analysis_start absent) = replicate absent "Waiting for process_complete.json...".
Proof.
  destruct (waiting_quiet absent "Waiting for process_complete.json...")
    as (Hf & _ & _ & Hp & Hl).
  unfold analysis_start. rewrite !files_read_app, !written_reports_app, !printed_app.
  rewrite Hf, Hp, Hl. cbn. by rewrite app_nil_r.
Qed.

Lemma document_events_projections (docs : list processed_document) :
  files_read (flat_map document_events docs) = (λ d, raw_path (source_file d)) <$> docs
  ∧ (written_records (flat_map document_events docs)).*1 = produced docs
  ∧ (written_records (flat_map document_events docs)).*2 = docs
  ∧ written_markers (flat_map document_events docs) = []
  ∧ printed (flat_map document_events docs) = [].
Proof.
  induction docs as [|d docs (Hf & Hr & Hd & Hm & Hp)]; [done|].
  cbn [flat_map document_events].
  rewrite files_read_app, written_records_app, written_markers_app, printed_app.
  rewrite Hf, Hm, Hp. unfold produced in *. rewrite !fmap_app, Hr, Hd. done.
Qed.

Lemma reads_projections (docs : list Analyze.document) :
  files_read ((λ d, ReadFile (processed_path (fst d))) <$> docs) = processed_path <$> docs.*1
  ∧ written_reports ((λ d, ReadFile (processed_path (fst d))) <$> docs) = []
  ∧ printed ((λ d, ReadFile (processed_path (fst d))) <$> docs) = [].
Proof.
  induction docs as [|d docs (Hf & Hr & Hp)]; [done|].
  rewrite !fmap_cons. split; [|split].
  - cbn. cbn in Hf. by f_equal.
  - done.
  - done.
Qed.

End Projections.

(** ** Which entries the stages visit *)

Lemma first_unloadable_None (l : list (string * Analyze.processed_file)) :
  first_unloadable l = None → Forall (λ e, is_loadable e = true) l.
Proof.
  induction l as [|[f [data| | |e]] l IH]; intros Hn; simpl in *; [done| |done..].
  constructor; [done|]. by apply IH.
Qed.

Lemma document_of_names (l : list (string * Analyze.processed_file)) :
  (document_of <$> l).*1 = l.*1.
Proof. by rewrite <- list_fmap_compose. Qed.

Lemma process_main_ignores_others (clock : nat → string) (absent : nat)
    (raw : list (string * Process.raw_file)) (t : nat) :
  Process.main clock absent raw t
  = Process.main clock absent (filter (λ e, is_html e = true) raw) t.
Proof.
  rewrite !process_main_trace.
  assert (filter (λ e, is_html e = true) (sorted (filter (λ e, is_html e = true) raw))
          = filter (λ e, is_html e = true) (sorted raw)) as ->; [|done].
  by rewrite !(filter_sorted is_html), filter_filter_same.
Qed.

Lemma analyze_main_ignores_others (clock : nat → string) (absent : nat)
    (processed : list (string * Analyze.processed_file)) (t : nat) :
  Analyze.main clock absent processed t
  = Analyze.main clock absent (filter (λ e, is_json e = true) processed) t.
Proof.
  rewrite !analyze_main_trace.
  assert (filter (λ e, is_json e = true) (sorted (filter (λ e, is_json e = true) processed))
          = filter (λ e, is_json e = true) (sorted processed)) as ->; [|done].
  by rewrite !(filter_sorted is_json), filter_filter_same.
Qed.

Lemma process_main_reads (clock : nat → string) (absent : nat)
    (raw : list (string * Process.raw_file)) (t : nat) :
  files_read (IO.events (Process.main clock absent raw t))
    `prefix_of` (raw_path <$> (filter (λ e, is_html e = true) (sorted raw)).*1)
  ∧ (Forall (λ e, is_readable e = true) (filter (λ e, is_html e = true) raw) →
     files_read (IO.events (Process.main clock absent raw t))
     = raw_path <$> (filter (λ e, is_html e = true) (sorted raw)).*1).
Proof.
  rewrite process_main_trace.
  set (H := filter (λ e, is_html e = true) (sorted raw)).
  set (docs := records_from clock t H).
  destruct (extraction_start_quiet absent) as (Hsf & _).
  destruct (document_events_projections docs) as (Hf & _).
  destruct (first_unreadable H) as [[f msg]|] eqn:Hfirst; unfold IO.events; cbn [fst snd];
    rewrite !files_read_app, Hsf, Hf; cbn.
  - destruct (first_unreadable_Some clock H t f msg Hfirst) as (l1 & l2 & Hsplit & Hl1 & Hsrc).
    fold docs in Hsrc. split.
    + rewrite Hsplit, fmap_app, fmap_app, <- Hsrc, <- list_fmap_compose.
      apply prefix_app, prefix_cons, prefix_nil.
    + intros Hall. exfalso.
      assert (Hall' : Forall (λ e, is_readable e = true) H).
      { unfold H. by rewrite sorted_perm. }
      by rewrite (first_unreadable_readable H Hall') in Hfirst.
  - destruct (first_unreadable_None clock H t Hfirst) as (_ & Hsrc). fold docs in Hsrc.
    rewrite app_nil_r, <- Hsrc, <- list_fmap_compose. done.
Qed.

Lemma analyze_main_reads (clock : nat → string) (absent : nat)
    (processed : list (string * Analyze.processed_file)) (t : nat) :
  files_read (IO.events (Analyze.main clock absent processed t))
    `prefix_of` (processed_path <$> (filter (λ e, is_json e = true) (sorted processed)).*1)
  ∧ (Forall (λ e, is_loadable e = true) (filter (λ e, is_json e = true) processed) →
     files_read (IO.events (Analyze.main clock absent processed t))
     = processed_path <$> (filter (λ e, is_json e = true) (sorted processed)).*1).
Proof.
  rewrite analyze_main_trace.
  set (J := filter (λ e, is_json e = true) (sorted processed)).
  set (docs := documents_from J).
  destruct (analysis_start_quiet absent) as (Hsf & _).
  destruct (reads_projections docs) as (Hf & _).
  destruct (first_unloadable J) as [[f e]|] eqn:Hfirst.
  - unfold IO.events; cbn [fst snd]. rewrite !files_read_app, Hsf, Hf. cbn.
    destruct (first_unloadable_Some J f e Hfirst) as (l2 & Hsplit). fold docs in Hsplit.
    split.
    + rewrite Hsplit, fmap_app. apply prefix_app, prefix_cons, prefix_nil.
    + intros Hall. exfalso.
      assert (Hall' : Forall (λ e, is_loadable e = true) J).
      { unfold J. by rewrite sorted_perm. }
      by rewrite (first_unloadable_loadable J Hall') in Hfirst.
  - assert (Hnames : docs.*1 = J.*1).
    { unfold docs. rewrite documents_from_loadable by by apply first_unloadable_None.
      apply document_of_names. }
    destruct (Analyze.build_report clock docs t) as [[ev t'] [r|e]];
      unfold IO.events; cbn [fst snd]; rewrite !files_read_app, Hsf, Hf, Hnames; cbn;
      by rewrite ?app_nil_r.
Qed.

(** ** The report *)

Section ReportFacts.
Import Analyze.
Variable clock : nat → string.

(** a report is written only when every [.json] entry loads and there is at
    most one document; it is then the report of these documents *)
Lemma analysis_report_written (absent : nat) (processed : list (string * processed_file))
    (t : nat) (r : report) :
  r ∈ written_reports (IO.events (main clock absent processed t)) →
  length (document_of <$> filter (λ e, is_json e = true) (sorted processed)) ≤ 1
  ∧ ∃ top rd,
      top100 (document_of <$> filter (λ e, is_json e = true) (sorted processed)) = Ok top
      ∧ compute_readability
          (freq (document_of <$> filter (λ e, is_json e = true) (sorted processed)))
          (count_total_words (document_of <$> filter (λ e, is_json e = true) (sorted processed)))
        = Ok rd
      ∧ r = Report (clock t)
              (length (document_of <$> filter (λ e, is_json e = true) (sorted processed)))
              (count_total_words (document_of <$> filter (λ e, is_json e = true) (sorted processed)))
              (size (vocab (document_of <$> filter (λ e, is_json e = true) (sorted processed))))
              top []
              (bigrams (document_of <$> filter (λ e, is_json e = true) (sorted processed)))
              (trigrams (document_of <$> filter (λ e, is_json e = true) (sorted processed)))
              rd.
Proof.
  rewrite analyze_main_trace.
  set (J := filter (λ e, is_json e = true) (sorted processed)).
  destruct (analysis_start_quiet absent) as (_ & Hsr & _).
  destruct (reads_projections (documents_from J)) as (_ & Hr & _).
  destruct (first_unloadable J) as [[f e]|] eqn:Hfirst.
  - unfold IO.events; cbn [fst snd]. rewrite !written_reports_app, Hsr, Hr. cbn.
    by intros ?%elem_of_nil.
  - rewrite (documents_from_loadable J) in * by by apply first_unloadable_None.
    set (docs := document_of <$> J) in *.
    destruct (Nat.le_gt_cases (length docs) 1) as [Hlen|Hlen].
    + destruct (build_report_one clock docs t Hlen) as (top & rd & Ht & Hrd & ->).
      unfold IO.events; cbn [fst snd]. rewrite !written_reports_app, Hsr, Hr. cbn.
      intros ->%list_elem_of_singleton. split; [done|]. by exists top, rd.
    + rewrite (build_report_many clock docs t) by lia.
      unfold IO.events; cbn [fst snd]. rewrite !written_reports_app, Hsr, Hr. cbn.
      by intros ?%elem_of_nil.
Qed.

(** with two loadable documents or more the run ends in the [NameError] and
    writes no report *)
Lemma analysis_fails_on_two_documents (absent : nat)
    (processed : list (string * processed_file)) (t : nat) :
  Forall (λ e, is_loadable e = true) (filter (λ e, is_json e = true) (sorted processed)) →
  2 ≤ length (filter (λ e, is_json e = true) (sorted processed)) →
  IO.outcome (main clock absent processed t) = Err (NameError "jaccard")
  ∧ written_reports (IO.events (main clock absent processed t)) = [].
Proof.
  intros Hall Hlen. rewrite analyze_main_trace.
  rewrite (first_unloadable_loadable _ Hall), (documents_from_loadable _ Hall).
  rewrite build_report_many by by rewrite length_fmap.
  destruct (analysis_start_quiet absent) as (_ & Hsr & _).
  destruct (reads_projections (document_of <$> filter (λ e, is_json e = true) (sorted processed)))
    as (_ & Hr & _).
  unfold IO.events, IO.outcome; cbn [fst snd]. split; [done|].
  by rewrite !written_reports_app, Hsr, Hr.
Qed.

Lemma filter_none (l : list (string * processed_file)) :
  Forall (λ e, is_json e = false) l → filter (λ e, is_json e = true) l = [].
Proof.
  induction l as [|x l IH]; [done|]. intros [Hx Hl]%Forall_cons.
  rewrite filter_cons_bool, Hx. by apply IH.
Qed.

End ReportFacts.

(** ** The similarity loop with the name the module binds *)

Section IntendedLoop.
Import Analyze.

Lemma combinations2_fmap {A B} (f : A → B) (l : list A) :
  combinations2 (f <$> l) = (λ p, (f (fst p), f (snd p))) <$> combinations2 l.
Proof.
  induction l as [|x l IH]; [done|].
  cbn [combinations2]. rewrite fmap_cons. cbn [combinations2].
  rewrite fmap_app, IH, <- !list_fmap_compose. done.
Qed.

Lemma enumerate_snd {A} (l : list A) : (enumerate l).*2 = l.
Proof. unfold enumerate. apply snd_zip. by rewrite length_seq. Qed.

Lemma rmapM_fmap {A B C} (g : B → result C) (h : A → B) (l : list A) :
  rmapM g (h <$> l) = rmapM (λ x, g (h x)) l.
Proof. induction l as [|x l IH]; [done|]. rewrite fmap_cons. simpl. by rewrite IH. Qed.

Lemma rmapM_ext {A B} (g1 g2 : A → result B) (l : list A) :
  (∀ x, g1 x = g2 x) → rmapM g1 l = rmapM g2 l.
Proof. intros Hg. induction l as [|x l IH]; [done|]. simpl. by rewrite Hg, IH. Qed.

(** had the loop called [jaccard_similarity], the list would hold the
    Jaccard index of every pair of documents, each pair once, in the order of
    the documents *)
Lemma sims_calling_defined (docs : list document) :
  sims_calling "jaccard_similarity" docs = pairwise_similarity docs.
Proof.
  unfold sims_calling, pairwise_similarity.
  rewrite <- (enumerate_snd docs) at 2.
  rewrite combinations2_fmap, rmapM_fmap.
  apply rmapM_ext. by intros [[i [f1 t1]] [j [f2 t2]]].
Qed.

Lemma pairwise_similarity_total (docs : list document) :
  ∃ l, pairwise_similarity docs = Ok l
       ∧ (λ e, (doc1 e, doc2 e)) <$> l = combinations2 docs.*1.
Proof.
  unfold pairwise_similarity. rewrite combinations2_fmap. unfold document in *.
  induction (combinations2 docs) as [|[[f1 t1] [f2 t2]] l (l' & Hl & Hn)].
  - by exists [].
  - destruct (jaccard_similarity_total t1 t2) as [q Hq].
    exists (SimilarityEntry f1 f2 q :: l'). simpl. rewrite Hq. simpl. rewrite Hl. simpl.
    split; [done|]. by f_equal.
Qed.

End IntendedLoop.

(** * The claims *)

(** C1, at a store of two documents with token sets {a,b,c} and {b,c,d}: the
    stage reads both, then ends in [NameError: jaccard]; no similarity is
    computed and no report is written. *)
Theorem similarity_loop_name_error :
  Analyze.main sample_clock 0 two_documents 0
  = ([Makedirs "/shared/analysis"; Makedirs "/shared/status"; Listdir "/shared/processed";
      ReadFile "/shared/processed/a.json"; ReadFile "/shared/processed/b.json"],
     0, Err (NameError "jaccard")).
Proof. vm_compute. reflexivity. Qed.

(** C2. In every run of the extraction stage the trace is: the start, then
    for each document in turn its read immediately followed by the write of
    its record, then one last event.  So every record is written before the
    next document is read; no marker is written before the last event; in a
    run that completes the last event is the write of the marker, it comes
    after the records of all [.html] entries and lists exactly the records
    written, in order; a run that ends in an error ends on a read and writes
    no marker. *)
Theorem records_before_marker (clock : nat → string) (absent : nat)
    (raw : list (string * Process.raw_file)) (t : nat) :
  ∃ last : event,
    IO.events (Process.main clock absent raw t)
    = extraction_start absent
      ++ flat_map document_events
           (records_from clock t (filter (λ e, is_html e = true) (sorted raw)))
      ++ [last]
    ∧ written_markers
        (extraction_start absent
         ++ flat_map document_events
              (records_from clock t (filter (λ e, is_html e = true) (sorted raw)))) = []
    ∧ (written_records (IO.events (Process.main clock absent raw t))).*1
      = produced (records_from clock t (filter (λ e, is_html e = true) (sorted raw)))
    ∧ match IO.outcome (Process.main clock absent raw t) with
      | Ok _ =>
          last = WriteMarker Process.marker_path
                   (clock (t + length (records_from clock t
                                         (filter (λ e, is_html e = true) (sorted raw)))))
                   (produced (records_from clock t
                                (filter (λ e, is_html e = true) (sorted raw))))
          ∧ source_file <$> records_from clock t (filter (λ e, is_html e = true) (sorted raw))
            = (filter (λ e, is_html e = true) (sorted raw)).*1
      | Err _ => ∃ f, last = ReadFile (raw_path f)
      end.
Proof.
  rewrite process_main_trace.
  set (docs := records_from clock t _).
  destruct (extraction_start_quiet absent) as (_ & Hsr & Hsm & _).
  destruct (document_events_projections docs) as (_ & Hr & _ & Hm & _).
  assert (Hquiet : written_markers (extraction_start absent ++ flat_map document_events docs)
                   = []) by by rewrite written_markers_app, Hsm, Hm.
  destruct (first_unreadable _) as [[f msg]|] eqn:Hfirst.
  - exists (ReadFile (raw_path f)). unfold IO.events, IO.outcome; cbn [fst snd].
    split; [done|]. split; [done|]. split; [|by exists f].
    by rewrite !written_records_app, Hsr, !fmap_app, Hr, app_nil_r.
  - eexists. unfold IO.events, IO.outcome; cbn [fst snd].
    split; [done|]. split; [done|]. split.
    + by rewrite !written_records_app, Hsr, !fmap_app, Hr, app_nil_r.
    + split; [done|]. by apply first_unreadable_None.
Qed.

(** C3, as stated, fails: for the single document "b a" the word table of
    the report is [b; a], both with count 1. *)
Lemma word_table_not_by_key :
  ∃ r, written_reports (IO.events (Analyze.main sample_clock 0 one_document_b_a 0)) = [r]
       ∧ word_counts (top_100_words r) = [("b", 1); ("a", 1)]
       ∧ ¬ ranked_by_count_then_key (word_counts (top_100_words r)).
Proof.
  eexists. split; [vm_compute; reflexivity|]. split; [reflexivity|].
  cbn. intros Hs. apply StronglySorted_inv in Hs as [_ Hb].
  apply Forall_cons in Hb as [[Hlt|[_ Hlt]] _]; cbn in Hlt; [lia|discriminate].
Qed.

(** C3, amended. For every corpus the word table has at most 100 entries
    and the bigram and trigram tables at most 50 each, and each table is
    ranked by descending count, entries of equal count standing in the order
    in which their keys first occur in the corpus (documents in the order of
    their file names, tokens and n-grams in the order of the text).  The
    tables of a report are these tables, for the documents of the store. *)
Theorem tables_ranked (docs : list Analyze.document) :
  (∃ top, Analyze.top100 docs = Ok top
          ∧ length top ≤ 100
          ∧ StronglySorted (count_then_first_seen (Analyze.all_tokens docs)) (word_counts top))
  ∧ length (Analyze.bigrams docs) ≤ 50
  ∧ StronglySorted
      (count_then_first_seen (flat_map (λ d, Analyze.ngrams (snd d) 2) docs))
      (Analyze.bigrams docs)
  ∧ length (Analyze.trigrams docs) ≤ 50
  ∧ StronglySorted
      (count_then_first_seen (flat_map (λ d, Analyze.ngrams (snd d) 3) docs))
      (Analyze.trigrams docs)
  ∧ (∀ clock absent processed t r,
       docs = document_of <$> filter (λ e, is_json e = true) (sorted processed) →
       r ∈ written_reports (IO.events (Analyze.main clock absent processed t)) →
       Analyze.top100 docs = Ok (top_100_words r)
       ∧ top_bigrams r = Analyze.bigrams docs
       ∧ top_trigrams r = Analyze.trigrams docs).
Proof.
  split.
  { destruct (top100_ok docs) as (top & Htop & Hwc). exists top. split; [done|].
    assert (Hlen : length top = length (word_counts top))
      by (unfold word_counts; by rewrite length_fmap).
    rewrite Hlen, Hwc. split; [apply most_common_length|apply most_common_ranked]. }
  split; [apply most_common_length|]. split; [apply most_common_ranked|].
  split; [apply most_common_length|]. split; [apply most_common_ranked|].
  intros clock absent processed t r -> Hr.
  apply analysis_report_written in Hr as (_ & top & rd & Htop & _ & ->). done.
Qed.

Lemma tables_ranked_witness :
  Analyze.top100 [("a.json", ["b"; "a"])] = Ok (top_100_words report_b_a)
  ∧ top_bigrams report_b_a = Analyze.bigrams [("a.json", ["b"; "a"])].
Proof.
  destruct (tables_ranked [("a.json", ["b"; "a"])]) as (_ & _ & _ & _ & _ & H).
  destruct (H sample_clock 0 one_document_b_a 0 report_b_a) as (Ht & Hb & _).
  - vm_compute. reflexivity.
  - assert (written_reports (IO.events (Analyze.main sample_clock 0 one_document_b_a 0))
            = [report_b_a]) as -> by (vm_compute; reflexivity).
    by apply list_elem_of_singleton.
  - split; [exact Ht|exact Hb].
Defined.

(** C4. The guarded ratios are 0.0 when their denominator is zero, and
    never fail: the mean word length of the extraction (denominator the
    number of words), the relative frequency and the mean word length of the
    analysis (denominator total_words), the mean sentence length
    (denominator the estimated number of sentences) and the complexity
    score, their product.  The similarity is not among them: [main] calls
    [jaccard], a name the module does not bind, so on two documents without
    a word, where the similarity has the denominator zero and
    [jaccard_similarity] gives 0.0, the run ends in [NameError] and writes
    no report; so does every run on two loadable documents or more. *)
Theorem similarity_zero_denominator_fails :
  (∀ words, length words = 0 → Process.mean_word_length words = Ok 0%Qc)
  ∧ (∀ c, Analyze.relative_frequency c 0 = Ok 0%Qc)
  ∧ (∀ total, Analyze.sentence_est total = 0 → Analyze.avg_sentence_len total = Ok 0%Qc)
  ∧ (∀ fr, Analyze.avg_word_len fr 0 = Ok 0%Qc)
  ∧ (∀ fr, Analyze.compute_readability fr 0 = Ok (Readability 0%Qc 0%Qc 0%Qc))
  ∧ (∀ words, ∃ q, Process.mean_word_length words = Ok q)
  ∧ (∀ c total, ∃ q, Analyze.relative_frequency c total = Ok q)
  ∧ (∀ total, ∃ q, Analyze.avg_sentence_len total = Ok q)
  ∧ (∀ fr total, ∃ q, Analyze.avg_word_len fr total = Ok q)
  ∧ (∀ fr total, ∃ r, Analyze.compute_readability fr total = Ok r)
  ∧ Analyze.jaccard_similarity [] [] = Ok 0%Qc
  ∧ Analyze.main sample_clock 0 two_empty_documents 0
    = ([Makedirs "/shared/analysis"; Makedirs "/shared/status"; Listdir "/shared/processed";
        ReadFile "/shared/processed/a.json"; ReadFile "/shared/processed/b.json"],
       0, Err (NameError "jaccard"))
  ∧ (∀ clock absent processed t,
       Forall (λ e, is_loadable e = true)
         (filter (λ e, is_json e = true) (sorted processed)) →
       2 ≤ length (filter (λ e, is_json e = true) (sorted processed)) →
       IO.outcome (Analyze.main clock absent processed t) = Err (NameError "jaccard")
       ∧ written_reports (IO.events (Analyze.main clock absent processed t)) = []).
Proof.
  split; [intros words Hw; by destruct words|].
  split; [done|].
  split; [intros total Hz; unfold Analyze.avg_sentence_len; by rewrite Hz|].
  split; [done|].
  split; [apply compute_readability_zero|].
  split; [apply mean_word_length_total|].
  split; [apply relative_frequency_total|].
  split; [apply avg_sentence_len_total|].
  split; [apply avg_word_len_total|].
  split.
  { intros fr total. destruct (compute_readability_total fr total) as (?&?&?&?&?). eauto. }
  split; [reflexivity|].
  split; [vm_compute; reflexivity|].
  intros clock absent processed t. apply analysis_fails_on_two_documents.
Qed.

(** C5. The similarity of a non-empty token set with itself is 1.0, the
    similarity of the empty set with itself is 0.0, and the similarity is
    symmetric. *)
Theorem jaccard_similarity_laws :
  (∀ a : list string, a ≠ [] → Analyze.jaccard_similarity a a = Ok 1%Qc)
  ∧ Analyze.jaccard_similarity [] [] = Ok 0%Qc
  ∧ (∀ a b : list string, Analyze.jaccard_similarity a b = Analyze.jaccard_similarity b a).
Proof.
  split; [exact jaccard_similarity_self|]. split; [reflexivity|].
  exact jaccard_similarity_comm.
Qed.

Lemma jaccard_similarity_laws_witness :
  Analyze.jaccard_similarity ["a"; "b"; "a"] ["a"; "b"; "a"] = Ok 1%Qc.
Proof. apply (proj1 jaccard_similarity_laws). discriminate. Defined.

(** C6. When the processed store holds no [.json] entry and the marker is
    there at the first look, the analysis stage completes and writes one
    report with [total_words = 0], [unique_words = 0], empty word, similarity,
    bigram and trigram lists and the three readability fields [0.0]. *)
Theorem empty_corpus_report (clock : nat → string) (t : nat)
    (processed : list (string * Analyze.processed_file)) :
  Forall (λ e, is_json e = false) processed →
  Analyze.main clock 0 processed t
  = ([Makedirs "/shared/analysis"; Makedirs "/shared/status"; Listdir "/shared/processed";
      WriteReport "/shared/analysis/final_report.json"
        (Report (clock t) 0 0 0 [] [] [] [] (Readability 0%Qc 0%Qc 0%Qc))],
     S t, Ok tt).
Proof.
  intros Hnone. rewrite analyze_main_ignores_others, (filter_none _ Hnone). reflexivity.
Qed.

Lemma empty_corpus_report_witness :
  Analyze.main sample_clock 0 [("README.txt", Analyze.JsonObject None)] 0
  = ([Makedirs "/shared/analysis"; Makedirs "/shared/status"; Listdir "/shared/processed";
      WriteReport "/shared/analysis/final_report.json"
        (Report "T0" 0 0 0 [] [] [] [] (Readability 0%Qc 0%Qc 0%Qc))],
     1, Ok tt).
Proof. apply (empty_corpus_report sample_clock 0). repeat constructor. Defined.

(** C7. The document [<p>Hello world! Visit <a href="http://x.com">here</a>.</p>]
    is extracted to the text "Hello world! Visit here ." with the single
    link http://x.com, 4 words, 2 sentences and 1 paragraph, and this is the
    record the stage writes for it. *)
Theorem extraction_example (clock : nat → string) :
  Process.strip_html sample_html = ("Hello world! Visit here .", ["http://x.com"], [])
  ∧ Process.document_stats sample_html "Hello world! Visit here ."
    = Ok (Statistics 4 2 1 (Q2Qc (19 # 4)))
  ∧ IO.events (Process.main clock 0 [("page.html", Process.RawText sample_html)] 0)
    = [Makedirs "/shared/processed"; Makedirs "/shared/status"; Listdir "/shared/raw";
       ReadFile "/shared/raw/page.html";
       WriteRecord "/shared/processed/page.json"
         (ProcessedDocument "page.html" "Hello world! Visit here ."
            (Statistics 4 2 1 (Q2Qc (19 # 4))) ["http://x.com"] [] (clock 0));
       WriteMarker "/shared/status/process_complete.json" (clock 1)
         ["/shared/processed/page.json"]].
Proof.
  assert (Hq : round_double (Qc_of_nat 19 / Qc_of_nat 4) = Q2Qc (19 # 4))
    by (apply Qc_is_canon; vm_compute; reflexivity).
  rewrite <- Hq. split; [|split]; vm_compute; reflexivity.
Qed.

(** C8, as stated, fails: with an unreadable second document the run ends
    in the error, the third document gets no record and nothing is printed. *)
Lemma unreadable_document_not_skipped :
  ¬ skips_and_continues raw_with_unreadable (Process.main sample_clock 0 raw_with_unreadable 0).
Proof. intros (Hok & _). vm_compute in Hok. discriminate. Qed.

(** C8, amended. The stage prints nothing about a document.  When every
    [.html] entry can be read, whatever its content, the run completes and
    every entry has its record.  When an entry cannot be read, the run ends
    at that entry with its error: the entries before it have been read and
    have their records, the entry itself was the last one opened, the later
    ones are neither read nor given a record, and no marker is written. *)
Theorem unreadable_document_aborts (clock : nat → string) (absent : nat)
    (raw : list (string * Process.raw_file)) (t : nat) :
  printed (IO.events (Process.main clock absent raw t))
  = replicate absent "Waiting for fetch_complete.json..."
  ∧ (Forall (λ e, is_readable e = true) (filter (λ e, is_html e = true) (sorted raw)) →
     IO.outcome (Process.main clock absent raw t) = Ok tt
     ∧ (written_records (IO.events (Process.main clock absent raw t))).*1
       = Process.out_name <$> (filter (λ e, is_html e = true) (sorted raw)).*1)
  ∧ (∀ l1 f msg l2,
       filter (λ e, is_html e = true) (sorted raw) = l1 ++ (f, Process.RawUnreadable msg) :: l2 →
       Forall (λ e, is_readable e = true) l1 →
       IO.outcome (Process.main clock absent raw t) = Err (OSError msg)
       ∧ written_markers (IO.events (Process.main clock absent raw t)) = []
       ∧ (written_records (IO.events (Process.main clock absent raw t))).*1
         = Process.out_name <$> l1.*1
       ∧ files_read (IO.events (Process.main clock absent raw t))
         = raw_path <$> (l1.*1 ++ [f])).
Proof.
  rewrite process_main_trace.
  set (H := filter (λ e, is_html e = true) (sorted raw)).
  set (docs := records_from clock t H).
  destruct (extraction_start_quiet absent) as (Hsf & Hsr & Hsm & Hsp).
  destruct (document_events_projections docs) as (Hf & Hr & _ & Hm & Hp).
  split; [|split].
  - destruct (first_unreadable H) as [[f msg]|]; unfold IO.events; cbn [fst snd];
      by rewrite !printed_app, Hsp, Hp, !app_nil_r.
  - intros Hall. rewrite (first_unreadable_readable H Hall).
    unfold IO.events, IO.outcome; cbn [fst snd]. split; [done|].
    rewrite !written_records_app, Hsr, !fmap_app, Hr. simpl. rewrite app_nil_r.
    unfold produced. rewrite <- (proj2 (first_unreadable_None clock H t
                                         (first_unreadable_readable H Hall))).
    by rewrite <- list_fmap_compose.
  - intros l1 f msg l2 Hsplit Hl1.
    assert (Hsrc : source_file <$> docs = l1.*1).
    { unfold docs. rewrite Hsplit. by apply records_from_app. }
    rewrite Hsplit, (first_unreadable_app l1 l2 f msg Hl1).
    unfold IO.events, IO.outcome; cbn [fst snd]. split; [done|]. split; [|split].
    + by rewrite !written_markers_app, Hsm, Hm.
    + rewrite !written_records_app, Hsr, !fmap_app, Hr. simpl. rewrite app_nil_r.
      unfold produced. rewrite <- Hsrc. by rewrite <- list_fmap_compose.
    + rewrite !files_read_app, Hsf, Hf. simpl.
      rewrite fmap_app, <- Hsrc. by rewrite <- list_fmap_compose.
Qed.

Lemma unreadable_document_aborts_witness :
  IO.outcome (Process.main sample_clock 0 raw_with_unreadable 0)
  = Err (OSError "Permission denied")
  ∧ written_markers (IO.events (Process.main sample_clock 0 raw_with_unreadable 0)) = []
  ∧ (written_records (IO.events (Process.main sample_clock 0 raw_with_unreadable 0))).*1
    = ["/shared/processed/a.json"]
  ∧ files_read (IO.events (Process.main sample_clock 0 raw_with_unreadable 0))
    = ["/shared/raw/a.html"; "/shared/raw/b.html"].
Proof.
  destruct (unreadable_document_aborts sample_clock 0 raw_with_unreadable 0) as (_ & _ & H).
  apply (H [("a.html", Process.RawText "<p>first</p>")] "b.html" "Permission denied"
           [("c.html", Process.RawText "<p>third</p>")]).
  - vm_compute. reflexivity.
  - repeat constructor.
Defined.



(** the corpus of seven words and 29 characters: the mean word length is
    4.142857142857143 and the score 29.000000000000004, not 29 *)
Example readability_rounds :
  readability_of 7 29
  = Readability (Qc_of_nat 7) (Q2Qc (4664442471205157 # 1125899906842624))
      (Q2Qc (8162774324609025 # 281474976710656)).
Proof. unfold readability_of. cbv zeta. f_equal; apply Qc_is_canon; vm_compute; reflexivity. Qed.

(** C10. The extraction stage visits exactly the entries of the raw store
    whose name ends in [.html], the analysis stage exactly the entries of the
    processed store whose name ends in [.json], both in ascending order of
    the names: the files opened are, in that order, those entries (all of
    them when every one can be read or loaded, otherwise up to the first that
    cannot); and a run is the same, event for event, as the run on the
    directory without the other entries, which thus give no record and no
    log entry. *)
Theorem stages_visit_by_extension (clock : nat → string) (absent : nat) (t : nat)
    (raw : list (string * Process.raw_file))
    (processed : list (string * Analyze.processed_file)) :
  (StronglySorted String.le (filter (λ e, is_html e = true) (sorted raw)).*1
   ∧ (filter (λ e, is_html e = true) (sorted raw)).*1
       ≡ₚ (filter (λ e, is_html e = true) raw).*1
   ∧ files_read (IO.events (Process.main clock absent raw t))
       `prefix_of` (raw_path <$> (filter (λ e, is_html e = true) (sorted raw)).*1)
   ∧ (Forall (λ e, is_readable e = true) (filter (λ e, is_html e = true) raw) →
      files_read (IO.events (Process.main clock absent raw t))
      = raw_path <$> (filter (λ e, is_html e = true) (sorted raw)).*1)
   ∧ Process.main clock absent raw t
     = Process.main clock absent (filter (λ e, is_html e = true) raw) t)
  ∧ (StronglySorted String.le (filter (λ e, is_json e = true) (sorted processed)).*1
     ∧ (filter (λ e, is_json e = true) (sorted processed)).*1
         ≡ₚ (filter (λ e, is_json e = true) processed).*1
     ∧ files_read (IO.events (Analyze.main clock absent processed t))
         `prefix_of` (processed_path <$> (filter (λ e, is_json e = true) (sorted processed)).*1)
     ∧ (Forall (λ e, is_loadable e = true) (filter (λ e, is_json e = true) processed) →
        files_read (IO.events (Analyze.main clock absent processed t))
        = processed_path <$> (filter (λ e, is_json e = true) (sorted processed)).*1)
     ∧ Analyze.main clock absent processed t
       = Analyze.main clock absent (filter (λ e, is_json e = true) processed) t).
Proof.
  split.
  - split; [apply names_sorted|]. split; [apply names_perm|].
    split; [apply process_main_reads|]. split; [apply process_main_reads|].
    apply process_main_ignores_others.
  - split; [apply names_sorted|]. split; [apply names_perm|].
    split; [apply analyze_main_reads|]. split; [apply analyze_main_reads|].
    apply analyze_main_ignores_others.
Qed.

Lemma stages_visit_by_extension_witness :
  files_read (IO.events (Process.main sample_clock 0 raw_mixed 0))
  = ["/shared/raw/a.html"; "/shared/raw/b.html"].
Proof.
  destruct (stages_visit_by_extension sample_clock 0 0 raw_mixed []) as ((_ & _ & _ & H & _) & _).
  rewrite H; [vm_compute; reflexivity|]. vm_compute. repeat constructor.
Defined.

(** * Further properties of the two programs *)

(** ** What a [Counter] counts *)

Section CounterFacts.
Import Analyze.

Lemma occurrences_app (w : string) (l1 l2 : list string) :
  occurrences w (l1 ++ l2) = occurrences w l1 + occurrences w l2.
Proof. unfold occurrences. by rewrite filter_app, length_app. Qed.

Lemma occurrences_cons (w x : string) (l : list string) :
  occurrences w (x :: l) = (if String.eqb x w then 1 else 0) + occurrences w l.
Proof.
  unfold occurrences. rewrite filter_cons.
  destruct (String.eqb_spec x w) as [->|Hne].
  - by rewrite decide_True.
  - by rewrite decide_False.
Qed.

Lemma occurrences_pos (w : string) (l : list string) : 0 < occurrences w l ↔ w ∈ l.
Proof.
  induction l as [|x l IH].
  - split; [cbn; lia|by intros ?%elem_of_nil].
  - rewrite occurrences_cons, elem_of_cons.
    destruct (String.eqb_spec x w) as [->|Hne].
    + split; [by left|lia].
    + rewrite Nat.add_0_l, IH. split; [by right|]. by intros [?|?]; [congruence|].
Qed.

Lemma get_count_add (x w : string) (c : counter) :
  get_count x (counter_add w c) = get_count x c + (if String.eqb w x then 1 else 0).
Proof.
  induction c as [|[k n] c IH]; cbn [counter_add get_count].
  - destruct (String.eqb_spec w x); lia.
  - destruct (String.eqb_spec k w) as [->|Hkw]; cbn [get_count].
    + destruct (String.eqb_spec w x); lia.
    + destruct (String.eqb_spec k x) as [->|Hkx].
      * destruct (String.eqb_spec w x); [congruence|lia].
      * apply IH.
Qed.

Lemma get_count_foldl (x : string) (items : list string) (c : counter) :
  get_count x (foldl (λ c w, counter_add w c) c items) = get_count x c + occurrences x items.
Proof.
  revert c. induction items as [|w items IH]; intros c; cbn [foldl].
  - cbn. lia.
  - rewrite IH, get_count_add, occurrences_cons. lia.
Qed.

Lemma get_count_Counter (x : string) (items : list string) :
  get_count x (Counter items) = occurrences x items.
Proof. unfold Counter. by rewrite get_count_foldl. Qed.

Lemma counter_add_NoDup (w : string) (c : counter) :
  NoDup c.*1 → NoDup (counter_add w c).*1.
Proof.
  intros Hnd. rewrite counter_add_keys. case_bool_decide as Hin; [done|].
  apply NoDup_app. split; [done|]. split; [|apply NoDup_singleton].
  intros x Hx ->%list_elem_of_singleton. done.
Qed.

Lemma foldl_counter_add_NoDup (items : list string) (c : counter) :
  NoDup c.*1 → NoDup (foldl (λ c w, counter_add w c) c items).*1.
Proof.
  revert c. induction items as [|w items IH]; intros c Hnd; [done|].
  cbn [foldl]. by apply IH, counter_add_NoDup.
Qed.

Lemma Counter_NoDup (items : list string) : NoDup (Counter items).*1.
Proof. apply foldl_counter_add_NoDup. constructor. Qed.

Lemma counter_add_positive (w : string) (c : counter) :
  Forall (λ kn, 0 < snd kn) c → Forall (λ kn, 0 < snd kn) (counter_add w c).
Proof.
  induction c as [|[k n] c IH]; intros Hc; cbn [counter_add].
  - repeat constructor.
  - apply Forall_cons in Hc as [Hn Hc]. destruct (String.eqb k w).
    + constructor; [cbn; lia|done].
    + constructor; [done|by apply IH].
Qed.

Lemma Counter_positive (items : list string) : Forall (λ kn, 0 < snd kn) (Counter items).
Proof.
  unfold Counter. generalize (Forall_nil_2 (λ kn : string * nat, 0 < snd kn)).
  generalize ([] : counter). induction items as [|w items IH]; intros c Hc; [done|].
  cbn [foldl]. by apply IH, counter_add_positive.
Qed.

Lemma get_count_elem_of (w : string) (n : nat) (c : counter) :
  NoDup c.*1 → (w, n) ∈ c → get_count w c = n.
Proof.
  induction c as [|[k m] c IH]; intros Hnd Hin; [by apply elem_of_nil in Hin|].
  rewrite fmap_cons in Hnd. apply NoDup_cons in Hnd as [Hk Hnd].
  cbn [get_count]. apply elem_of_cons in Hin as [Heq|Hin].
  - injection Heq as -> ->. by rewrite String.eqb_refl.
  - destruct (String.eqb_spec k w) as [->|Hne]; [|by apply IH].
    exfalso. apply Hk. cbn. apply list_elem_of_fmap. by exists (w, n).
Qed.

Lemma sum_counts_add (w : string) (c : counter) :
  sum_counts (counter_add w c) = S (sum_counts c).
Proof.
  induction c as [|[k n] c IH]; [done|]. cbn [counter_add].
  destruct (String.eqb k w); cbn; [lia|]. unfold sum_counts in IH. rewrite IH. lia.
Qed.

Lemma sum_counts_Counter (items : list string) : sum_counts (Counter items) = length items.
Proof.
  unfold Counter.
  assert (H : ∀ c, sum_counts (foldl (λ c w, counter_add w c) c items)
                   = sum_counts c + length items).
  { induction items as [|w items IH]; intros c; cbn [foldl length]; [lia|].
    rewrite IH, sum_counts_add. lia. }
  by rewrite H.
Qed.

Lemma get_count_pos (x : string) (c : counter) :
  Forall (λ kn, 0 < snd kn) c → (x ∈ c.*1 ↔ 0 < get_count x c).
Proof.
  induction c as [|[k n] c IH]; intros Hpos; cbn [get_count].
  - split; [by intros ?%elem_of_nil|lia].
  - apply Forall_cons in Hpos as [Hn Hpos]. cbn in Hn. rewrite fmap_cons, elem_of_cons.
    cbn [fst]. destruct (String.eqb_spec k x) as [->|Hne].
    + split; [done|by left].
    + rewrite <- (IH Hpos). split; [by intros [?|?]; [congruence|]|by right].
Qed.

Lemma Counter_keys_elem_of (x : string) (items : list string) :
  x ∈ (Counter items).*1 ↔ x ∈ items.
Proof.
  rewrite (get_count_pos x _ (Counter_positive items)), get_count_Counter.
  apply occurrences_pos.
Qed.

Lemma Counter_length (items : list string) :
  length (Counter items) = size (list_to_set (C := gset string) items).
Proof.
  rewrite <- (length_fmap fst), <- (size_list_to_set (C := gset string)) by apply Counter_NoDup.
  f_equal. apply set_eq. intros x. rewrite !elem_of_list_to_set. apply Counter_keys_elem_of.
Qed.

Lemma most_common_subseteq (n : nat) (c : counter) (a : string * nat) :
  a ∈ most_common n c → a ∈ c.
Proof.
  unfold most_common. intros Ha. rewrite <- (sort_by_count_perm c).
  rewrite <- (take_drop n (sort_by_count c)). apply elem_of_app. by left.
Qed.

Lemma most_common_all (n : nat) (c : counter) : length c ≤ n → most_common n c ≡ₚ c.
Proof.
  intros Hn. unfold most_common. rewrite firstn_all2; [apply sort_by_count_perm|].
  by rewrite (Permutation_length (sort_by_count_perm c)).
Qed.

Lemma most_common_highest (n : nat) (c : counter) (a b : string * nat) :
  a ∈ most_common n c → b ∈ c → b ∉ most_common n c → snd b ≤ snd a.
Proof.
  unfold most_common. intros Ha Hb Hnb.
  assert (Hs : StronglySorted (λ a b : string * nat, snd b < snd a ∨ (snd a = snd b ∧ True))
                 (sort_by_count c)).
  { apply (sort_by_count_ranked (λ _ _, True)).
    clear. induction c as [|x c IH]; constructor; [done|]. by apply Forall_true. }
  rewrite <- (sort_by_count_perm c), <- (take_drop n (sort_by_count c)) in Hb.
  apply elem_of_app in Hb as [Hb|Hb]; [done|].
  rewrite <- (take_drop n (sort_by_count c)) in Hs.
  destruct (StronglySorted_app_1_elem_of _ _ _ _ _ Hs Ha Hb) as [?|[? _]]; lia.
Qed.

End CounterFacts.

(** ** The counts and tables of the report *)

Section ReportTables.
Import Analyze.

Lemma length_le_sum_counts (c : counter) :
  Forall (λ kn, 0 < snd kn) c → length c ≤ sum_counts c.
Proof.
  induction c as [|[k n] c IH]; intros Hc; [done|].
  apply Forall_cons in Hc as [Hn Hc]. specialize (IH Hc).
  change (sum_counts ((k, n) :: c)) with (n + sum_counts c). cbn in Hn. cbn [length]. lia.
Qed.

Lemma sum_counts_perm (c1 c2 : counter) : c1 ≡ₚ c2 → sum_counts c1 = sum_counts c2.
Proof.
  induction 1 as [|x c1 c2 _ IH|x y c|c1 c2 c3 _ IH1 _ IH2]; cbn in *;
    unfold sum_counts in *; cbn; lia.
Qed.

Lemma sum_counts_app (c1 c2 : counter) :
  sum_counts (c1 ++ c2) = sum_counts c1 + sum_counts c2.
Proof. unfold sum_counts. induction c1 as [|x c1 IH]; cbn; [done|]. rewrite IH. lia. Qed.

Lemma sum_counts_most_common (n : nat) (c : counter) :
  sum_counts (most_common n c) ≤ sum_counts c.
Proof.
  unfold most_common. rewrite <- (sum_counts_perm _ _ (sort_by_count_perm c)).
  rewrite <- (take_drop n (sort_by_count c)) at 2. rewrite sum_counts_app. lia.
Qed.

Lemma most_common_holds_top (n : nat) (c : counter) : holds_top n c (most_common n c).
Proof.
  split; [|split].
  - unfold most_common. rewrite length_take.
    by rewrite (Permutation_length (sort_by_count_perm c)).
  - apply most_common_subseteq.
  - apply most_common_highest.
Qed.

Lemma most_common_NoDup (n : nat) (c : counter) :
  NoDup c.*1 → NoDup (most_common n c).*1.
Proof.
  intros Hnd. unfold most_common.
  assert (Hs : NoDup (sort_by_count c).*1) by by rewrite sort_by_count_perm.
  rewrite <- (take_drop n (sort_by_count c)), fmap_app in Hs.
  by apply NoDup_app in Hs as (Hs & _).
Qed.

(** the entries of the word table, one by one *)
Lemma top100_entries (docs : list document) (top : list word_entry) :
  top100 docs = Ok top →
  Forall (λ e, relative_frequency (count e) (count_total_words docs) = Ok (frequency e)) top.
Proof.
  unfold top100. generalize (most_common 100 (freq docs)). intros l. revert top.
  induction l as [|[w c] l IH]; intros top Htop; cbn in Htop.
  - injection Htop as <-. constructor.
  - destruct (relative_frequency c (count_total_words docs)) as [q|e] eqn:Hq; [|done].
    cbn in Htop.
    destruct (rmapM _ l) as [top'|e] eqn:Hl; [|done]. cbn in Htop. injection Htop as <-.
    constructor; [done|]. by apply IH.
Qed.

Lemma occurrences_le_length (w : string) (l : list string) : occurrences w l ≤ length l.
Proof. unfold occurrences. apply length_filter. Qed.

End ReportTables.

Lemma corpus_counts_parts (docs : list Analyze.document) :
  size (Analyze.vocab docs) = length (Analyze.freq docs)
  ∧ sum_counts (Analyze.freq docs) = Analyze.count_total_words docs.
Proof.
  unfold Analyze.vocab, Analyze.freq.
  by rewrite <- Counter_length, sum_counts_Counter, count_total_words_length.
Qed.

(** X1. The counts of the report agree: the number of distinct words is the
    number of keys counted, the counts add up to the number of words, there
    are no more distinct words than words, and one is zero exactly when the
    other is. *)
Theorem corpus_counts_consistent (docs : list Analyze.document) :
  size (Analyze.vocab docs) = length (Analyze.freq docs)
  ∧ sum_counts (Analyze.freq docs) = Analyze.count_total_words docs
  ∧ size (Analyze.vocab docs) ≤ Analyze.count_total_words docs
  ∧ (Analyze.count_total_words docs = 0 ↔ size (Analyze.vocab docs) = 0).
Proof.
  unfold Analyze.vocab, Analyze.freq.
  rewrite <- Counter_length, sum_counts_Counter, count_total_words_length.
  pose proof (length_le_sum_counts _ (Counter_positive (Analyze.all_tokens docs))) as Hle.
  rewrite sum_counts_Counter in Hle.
  split; [done|]. split; [done|]. split; [done|]. split.
  - intros Hz. lia.
  - intros Hz. rewrite Counter_length in Hz. apply size_empty_inv in Hz.
    destruct (Analyze.all_tokens docs) as [|w l]; [done|].
    exfalso. assert (w ∈ (∅ : gset string)) as Hw; [|by apply not_elem_of_empty in Hw].
    rewrite <- Hz. apply elem_of_list_to_set. by left.
Qed.

(** X2. Every entry of the word table is a word of the corpus with the
    number of its occurrences as count (at least 1); its frequency is the
    double nearest to that count divided by the number of words, and lies
    above 0 and not above 1; no word is listed twice. *)
Theorem word_table_entries (docs : list Analyze.document) :
  ∃ top, Analyze.top100 docs = Ok top
         ∧ NoDup (word <$> top)
         ∧ ∀ e, e ∈ top →
             word e ∈ Analyze.all_tokens docs
             ∧ count e = occurrences (word e) (Analyze.all_tokens docs)
             ∧ 0 < count e
             ∧ frequency e = round_double (Qc_of_nat (count e)
                                           / Qc_of_nat (Analyze.count_total_words docs))
             ∧ (0 < frequency e)%Qc ∧ (frequency e <= 1)%Qc.
Proof.
  destruct (top100_ok docs) as (top & Htop & Hwc). exists top. split; [done|].
  pose proof (top100_entries docs top Htop) as Hfreq.
  assert (Hkeys : word <$> top = (word_counts top).*1).
  { unfold word_counts. by rewrite <- list_fmap_compose. }
  split.
  - rewrite Hkeys, Hwc. apply most_common_NoDup, Counter_NoDup.
  - intros e He.
    assert (Hin : (word e, count e) ∈ Analyze.freq docs).
    { apply (most_common_subseteq 100). rewrite <- Hwc.
      unfold word_counts. apply list_elem_of_fmap. by exists e. }
    assert (Hcount : count e = occurrences (word e) (Analyze.all_tokens docs)).
    { rewrite <- get_count_Counter. symmetry.
      apply get_count_elem_of; [apply Counter_NoDup|done]. }
    assert (Hpos : 0 < count e).
    { pose proof (Counter_positive (Analyze.all_tokens docs)) as Hp.
      rewrite Forall_forall in Hp. apply (Hp _ Hin). }
    split; [apply occurrences_pos; lia|]. split; [done|]. split; [done|].
    rewrite Forall_forall in Hfreq. specialize (Hfreq e He).
    unfold Analyze.relative_frequency in Hfreq.
    assert (Hle : count e ≤ Analyze.count_total_words docs).
    { rewrite count_total_words_length, Hcount. apply occurrences_le_length. }
    assert (Htot : Analyze.count_total_words docs ≠ 0) by lia.
    destruct (Nat.eqb_spec (Analyze.count_total_words docs) 0); [done|].
    rewrite py_truediv_ok in Hfreq by done. injection Hfreq as <-.
    split; [done|]. split.
    + destruct (Qclt_le_dec 0 (round_double (Qc_of_nat (count e)
                  / Qc_of_nat (Analyze.count_total_words docs)))) as [|Hz]; [done|].
      exfalso. pose proof (round_double_nonneg _ (quotient_nonneg (count e) _ Htot)) as Hn.
      pose proof (Qcle_antisym _ _ Hz Hn) as H0. apply rounded_zero in H0; [lia|done].
    + rewrite <- Qc_of_nat_1. apply rounded_le; [done|done|lia].
Qed.

(** X3. Each table holds the most counted items: the word table the 100
    most frequent words, the bigram and trigram tables the 50 most frequent
    n-grams; an item left out never has a higher count than a listed one, and
    with no more distinct items than the limit all of them are listed. *)
Theorem tables_hold_top (docs : list Analyze.document) :
  (∃ top, Analyze.top100 docs = Ok top
          ∧ holds_top 100 (Analyze.freq docs) (word_counts top))
  ∧ holds_top 50 (Analyze.Counter (flat_map (λ d, Analyze.ngrams (snd d) 2) docs))
      (Analyze.bigrams docs)
  ∧ holds_top 50 (Analyze.Counter (flat_map (λ d, Analyze.ngrams (snd d) 3) docs))
      (Analyze.trigrams docs).
Proof.
  split; [|split; apply most_common_holds_top].
  destruct (top100_ok docs) as (top & Htop & Hwc). exists top. split; [done|].
  rewrite Hwc. apply most_common_holds_top.
Qed.

(** X4. The counts of the word table add up to at most the number of
    words of the corpus, and to exactly that number when the corpus has at
    most 100 distinct words: the table then accounts for every occurrence. *)
Theorem word_table_counts_sum (docs : list Analyze.document) :
  ∃ top, Analyze.top100 docs = Ok top
         ∧ sum_counts (word_counts top) ≤ Analyze.count_total_words docs
         ∧ (size (Analyze.vocab docs) ≤ 100 →
            sum_counts (word_counts top) = Analyze.count_total_words docs).
Proof.
  destruct (top100_ok docs) as (top & Htop & Hwc). exists top. split; [done|].
  rewrite Hwc. destruct (corpus_counts_parts docs) as (Hsize & Hsum).
  split.
  - pose proof (sum_counts_most_common 100 (Analyze.freq docs)). lia.
  - intros Hsmall.
    rewrite (sum_counts_perm _ _ (most_common_all 100 (Analyze.freq docs) ltac:(lia))). lia.
Qed.

(** X5. The similarity of two token lists lies between 0 and 1; it is 1
    when the two lists hold the same words and are not empty, and only then
    as long as they hold no more than 2^53 distinct words (beyond that a
    quotient below 1 can round to 1.0); it is 0 exactly when they share no
    word. *)
Theorem jaccard_similarity_range (a b : list string) :
  ∃ q, Analyze.jaccard_similarity a b = Ok q
       ∧ (0 <= q)%Qc ∧ (q <= 1)%Qc
       ∧ (list_to_set (C := gset string) a = list_to_set b ∧ a ≠ [] → q = 1%Qc)
       ∧ ((Z.of_nat (size (list_to_set (C := gset string) a ∪ list_to_set b)) <= 2 ^ 53)%Z →
          q = 1%Qc → list_to_set (C := gset string) a = list_to_set b ∧ a ≠ [])
       ∧ (q = 0%Qc ↔ list_to_set (C := gset string) a ∩ list_to_set b = ∅).
Proof.
  unfold Analyze.jaccard_similarity.
  assert (Hnil : list_to_set (C := gset string) a = ∅ ↔ a = []).
  { split; [apply list_to_set_empty_inv|by intros ->]. }
  revert Hnil.
  generalize (list_to_set (C := gset string) a), (list_to_set (C := gset string) b).
  intros A B Hnil.
  case_bool_decide as Hu.
  - apply empty_union_L in Hu as [-> ->].
    exists 0%Qc. split; [done|]. split; [done|]. split; [done|]. split; [|split].
    + intros [_ Ha]. exfalso. by apply Ha, Hnil.
    + done.
    + split; [|done]. intros _. apply (idemp_L (∩)).
  - assert (Hsize : size (A ∪ B) ≠ 0).
    { intros Hz. apply size_empty_inv in Hz. apply Hu. by apply leibniz_equiv. }
    assert (Hsub : A ∩ B ⊆ A ∪ B).
    { intros x [Hx _]%elem_of_intersection. apply elem_of_union. by left. }
    pose proof (subseteq_size _ _ Hsub) as Hle.
    rewrite py_truediv_ok by done. eexists. split; [done|].
    split; [apply round_double_nonneg, quotient_nonneg; done|].
    split; [rewrite <- Qc_of_nat_1; apply rounded_le; [done|done|lia]|].
    split; [|split].
    + intros [-> _]. rewrite (idemp_L (∩)), (idemp_L (∪)).
      rewrite <- Qc_of_nat_1. apply rounded_eq; [by rewrite (idemp_L (∪)) in Hsize|done|lia].
    + intros Hbound Heq.
      assert (Hsz : size (A ∩ B) = size (A ∪ B)).
      { destruct (decide (size (A ∩ B) = size (A ∪ B))) as [|Hne]; [done|]. exfalso.
        pose proof (rounded_lt_1 (size (A ∩ B)) (size (A ∪ B)) Hbound ltac:(lia)) as Hlt.
        rewrite Heq in Hlt. by apply Qclt_not_eq in Hlt. }
      assert (Hsame : A ∩ B = A ∪ B) by (apply set_subseteq_size_eq; [done|lia]).
      assert (HAB : A = B).
      { apply set_eq. intros x. split; intros Hx.
        - assert (Hx' : x ∈ A ∩ B) by (rewrite Hsame; apply elem_of_union; by left).
          by apply elem_of_intersection in Hx' as [_ ?].
        - assert (Hx' : x ∈ A ∩ B) by (rewrite Hsame; apply elem_of_union; by right).
          by apply elem_of_intersection in Hx' as [? _]. }
      split; [done|]. intros Ha. apply Hnil in Ha. apply Hu.
      rewrite <- HAB, Ha. apply (idemp_L (∪)).
    + split.
      * intros Hz. apply rounded_zero in Hz; [|done].
        apply leibniz_equiv. by apply size_empty_inv.
      * intros ->. rewrite size_empty, <- Qc_of_nat_0. apply rounded_eq; [done|done|lia].
Qed.

(** beyond 2^53 a quotient below 1 rounds to 1.0 *)
Example quotient_rounds_to_one :
  round_double (Q2Qc ((2 ^ 54 - 1) # 2 ^ 54)) = 1%Qc.
Proof. by apply Qc_is_canon. Qed.

(** X6. The mean sentence length of the report is the number of words when
    the corpus has fewer than 20, and otherwise lies between 20 (included)
    and 40 (excluded), whatever the text. *)
Theorem avg_sentence_len_bounds (total : nat) :
  (0 < total < 20 → Analyze.avg_sentence_len total = Ok (Qc_of_nat total))
  ∧ (20 ≤ total →
     ∃ q, Analyze.avg_sentence_len total = Ok q
          ∧ (Qc_of_nat 20 <= q)%Qc ∧ (q < Qc_of_nat 40)%Qc).
Proof.
  unfold Analyze.avg_sentence_len, Analyze.sentence_est. split.
  - intros Ht. destruct (Nat.eqb_spec total 0); [lia|].
    assert (total / 20 = 0) as -> by (apply Nat.div_small; lia). cbn [Nat.max Nat.eqb].
    rewrite py_truediv_ok by done. f_equal. apply rounded_eq; [done|lia|lia].
  - intros Ht. destruct (Nat.eqb_spec total 0); [lia|].
    pose proof (Nat.div_mod_eq total 20) as Hdm.
    pose proof (Nat.mod_upper_bound total 20 ltac:(done)) as Hm.
    assert (Hd : 1 ≤ total / 20) by (apply Nat.div_le_lower_bound; lia).
    rewrite Nat.max_r by done.
    destruct (Nat.eqb_spec (total / 20) 0); [lia|].
    rewrite py_truediv_ok by done. eexists. split; [done|]. split.
    + apply rounded_ge; [done|done|lia].
    + apply Qcle_lt_trans with (Qc_of_nat 39); [apply rounded_le; [done|done|lia]|done].
Qed.

(** ** Strings *)

Section StringFacts.

Lemma app_cons (x : ascii) (s t : string) : String x s +:+ t = String x (s +:+ t).
Proof. reflexivity. Qed.

Lemma app_empty_l (s : string) : EmptyString +:+ s = s.
Proof. reflexivity. Qed.

Lemma app_empty_r (s : string) : s +:+ EmptyString = s.
Proof. induction s as [|x s IH]; [done|]. by rewrite app_cons, IH. Qed.

Lemma app_assoc_str (s t u : string) : (s +:+ t) +:+ u = s +:+ (t +:+ u).
Proof. induction s as [|x s IH]; [done|]. by rewrite !app_cons, IH. Qed.

Lemma rev_app_spec (s t : string) : String.rev_app s t = String.rev s +:+ t.
Proof.
  unfold String.rev. revert t. induction s as [|x s IH]; intros t; [done|].
  cbn [String.rev_app]. rewrite (IH (String x EmptyString)), IH, app_assoc_str. done.
Qed.

Lemma rev_cons (x : ascii) (s : string) :
  String.rev (String x s) = String.rev s +:+ String x EmptyString.
Proof. unfold String.rev at 1. cbn [String.rev_app]. apply rev_app_spec. Qed.

Lemma length_app_str (s t : string) :
  String.length (s +:+ t) = String.length s + String.length t.
Proof. induction s as [|x s IH]; [done|]. rewrite app_cons. cbn. by rewrite IH. Qed.

Lemma drop_chars_app (t r : string) : drop_chars (String.length t) (t +:+ r) = r.
Proof. induction t as [|x t IH]; [by destruct r|]. rewrite app_cons. cbn. apply IH. Qed.

Lemma all_chars_app (p : ascii → bool) (s t : string) :
  all_chars p (s +:+ t) = (all_chars p s && all_chars p t)%bool.
Proof.
  induction s as [|x s IH]; [done|]. rewrite app_cons. cbn. rewrite IH.
  by rewrite andb_assoc.
Qed.

End StringFacts.

(** ** The matcher *)

Section MatcherFacts.
Import Re.

(** what a greedy or lazy repetition takes satisfies the class, and the
    rest was matched by the continuation *)
Lemma greedy_spec (p : ascii → bool) (k : cont) (prev : option ascii) (s t : string)
    (m : mres) :
  greedy p k prev s = Some (t, m) →
  all_chars p t = true ∧ ∃ prev' s', s = t +:+ s' ∧ k prev' s' = Some m.
Proof.
  revert prev t. induction s as [|x s IH]; intros prev t Hg; cbn [greedy] in Hg.
  - destruct (k prev EmptyString) as [m'|] eqn:Hk; [|done]. cbn in Hg.
    injection Hg as <- <-. split; [done|]. by exists prev, EmptyString.
  - destruct (p x) eqn:Hp.
    + destruct (greedy p k (Some x) s) as [[t' m']|] eqn:Hrec.
      * injection Hg as <- <-. destruct (IH _ _ Hrec) as (Ht & prev' & s' & -> & Hk).
        split; [cbn; by rewrite Hp|]. by exists prev', s'.
      * destruct (k prev (String x s)) as [m'|] eqn:Hk; [|done]. cbn in Hg.
        injection Hg as <- <-. split; [done|]. by exists prev, (String x s).
    + destruct (k prev (String x s)) as [m'|] eqn:Hk; [|done]. cbn in Hg.
      injection Hg as <- <-. split; [done|]. by exists prev, (String x s).
Qed.

Lemma lazy_rep_spec (p : ascii → bool) (k : cont) (prev : option ascii) (s t : string)
    (m : mres) :
  lazy_rep p k prev s = Some (t, m) →
  all_chars p t = true ∧ ∃ prev' s', s = t +:+ s' ∧ k prev' s' = Some m.
Proof.
  revert prev t. induction s as [|x s IH]; intros prev t Hg; cbn [lazy_rep] in Hg.
  - destruct (k prev EmptyString) as [m'|] eqn:Hk; [|done].
    injection Hg as <- <-. split; [done|]. by exists prev, EmptyString.
  - destruct (k prev (String x s)) as [m'|] eqn:Hk.
    + injection Hg as <- <-. split; [done|]. by exists prev, (String x s).
    + destruct (p x) eqn:Hp; [|done].
      destruct (lazy_rep p k (Some x) s) as [[t' m']|] eqn:Hrec; [|done].
      cbn in Hg. injection Hg as <- <-.
      destruct (IH _ _ Hrec) as (Ht & prev' & s' & -> & Hk').
      split; [cbn; by rewrite Hp|]. by exists prev', s'.
Qed.

(** a match is a prefix of the subject *)
Lemma match_here_sound (r : regex) (prev : option ascii) (s : string) (m : mres) :
  match_here r prev s = Some m → s = m_text m +:+ m_rest m.
Proof.
  revert prev s m. induction r as [|a r IH]; intros prev s m Hm.
  - cbn in Hm. by injection Hm as <-.
  - destruct a as [c|c|p|p|p|p|p|]; cbn [match_here] in Hm.
    + destruct s as [|x s]; [done|]. destruct (Ascii.eqb x c); [|done].
      destruct (match_here r (Some x) s) as [m'|] eqn:Hr; [|done].
      cbn in Hm. injection Hm as <-. cbn. rewrite ?app_cons. by rewrite <- (IH _ _ _ Hr).
    + destruct s as [|x s]; [done|].
      destruct (Ascii.eqb (PyStr.lower_char x) (PyStr.lower_char c)); [|done].
      destruct (match_here r (Some x) s) as [m'|] eqn:Hr; [|done].
      cbn in Hm. injection Hm as <-. cbn. rewrite ?app_cons. by rewrite <- (IH _ _ _ Hr).
    + destruct s as [|x s]; [by apply IH in Hm|].
      destruct (p x); [|by apply IH in Hm].
      destruct (match_here r (Some x) s) as [m'|] eqn:Hr; [|by apply IH in Hm].
      injection Hm as <-. cbn. rewrite ?app_cons. by rewrite <- (IH _ _ _ Hr).
    + destruct (greedy p (match_here r) prev s) as [[t m']|] eqn:Hg; [|done].
      cbn in Hm. injection Hm as <-.
      destruct (greedy_spec _ _ _ _ _ _ Hg) as (_ & prev' & s' & -> & Hr).
      cbn. rewrite ?app_cons, ?app_assoc_str. by rewrite <- (IH _ _ _ Hr).
    + destruct s as [|x s]; [done|]. destruct (p x); [|done].
      destruct (greedy p (match_here r) (Some x) s) as [[t m']|] eqn:Hg; [|done].
      cbn in Hm. injection Hm as <-.
      destruct (greedy_spec _ _ _ _ _ _ Hg) as (_ & prev' & s' & -> & Hr).
      cbn. rewrite ?app_cons, ?app_assoc_str. by rewrite <- (IH _ _ _ Hr).
    + destruct (lazy_rep p (match_here r) prev s) as [[t m']|] eqn:Hg; [|done].
      cbn in Hm. injection Hm as <-.
      destruct (lazy_rep_spec _ _ _ _ _ _ Hg) as (_ & prev' & s' & -> & Hr).
      cbn. rewrite ?app_cons, ?app_assoc_str. by rewrite <- (IH _ _ _ Hr).
    + destruct s as [|x s]; [done|]. destruct (p x); [|done].
      destruct (greedy p (match_here r) (Some x) s) as [[t m']|] eqn:Hg; [|done].
      cbn in Hm. injection Hm as <-.
      destruct (greedy_spec _ _ _ _ _ _ Hg) as (_ & prev' & s' & -> & Hr).
      cbn. rewrite ?app_cons, ?app_assoc_str. by rewrite <- (IH _ _ _ Hr).
    + destruct (xorb _ _); [|done]. by apply IH in Hm.
Qed.

(** every match in a scan is a non-empty match of the pattern somewhere *)
Lemma scan_hits (r : regex) (prev : option ascii) (skip : nat) (gap s : string) (m : mres) :
  Hit m ∈ scan r prev skip gap s →
  m_text m ≠ EmptyString ∧ ∃ prev' s', match_here r prev' s' = Some m.
Proof.
  revert prev skip gap. induction s as [|x s IH]; intros prev skip gap Hin; cbn [scan] in Hin.
  - apply list_elem_of_singleton in Hin. done.
  - destruct skip as [|k]; [|by apply IH in Hin].
    destruct (match_here r prev (String x s)) as [m'|] eqn:Hm; [|by apply IH in Hin].
    destruct (String.length (m_text m')) as [|k] eqn:Hlen; [by apply IH in Hin|].
    apply elem_of_cons in Hin as [?|Hin]; [done|].
    apply elem_of_cons in Hin as [Heq|Hin]; [|by apply IH in Hin].
    injection Heq as ->. split; [|by exists prev, (String x s)].
    intros Hz. by rewrite Hz in Hlen.
Qed.

(** the pieces of a scan, put together, are the subject: nothing is lost
    and nothing overlaps *)
Lemma scan_flatten (r : regex) (prev : option ascii) (skip : nat) (gap s : string) :
  flatten (scan r prev skip gap s) = String.rev gap +:+ drop_chars skip s.
Proof.
  revert prev skip gap. induction s as [|x s IH]; intros prev skip gap; cbn [scan].
  - assert (drop_chars skip EmptyString = EmptyString) as -> by by destruct skip.
    unfold flatten. cbn [foldr seg_text]. by rewrite !app_empty_r.
  - destruct skip as [|k]; [|by rewrite IH].
    cbn [drop_chars].
    assert (Hgap : flatten (scan r (Some x) 0 (String x gap) s)
                   = String.rev gap +:+ String x s).
    { rewrite IH, rev_cons, app_assoc_str. done. }
    destruct (match_here r prev (String x s)) as [m|] eqn:Hm; [|done].
    destruct (String.length (m_text m)) as [|k] eqn:Hlen; [done|].
    cbn [flatten foldr seg_text]. fold (flatten (scan r (Some x) k EmptyString s)).
    rewrite IH. cbn [String.rev String.rev_app]. rewrite app_empty_l.
    f_equal. pose proof (match_here_sound _ _ _ _ Hm) as Hs.
    destruct (m_text m) as [|y t] eqn:Ht; [done|].
    rewrite app_cons in Hs. injection Hs as <- ->.
    cbn in Hlen. injection Hlen as <-. rewrite app_cons. by rewrite drop_chars_app.
Qed.

End MatcherFacts.

(** ** Runs of a character class *)

Section Runs.
Import Re.

Lemma take_drop_run (p : ascii → bool) (s : string) :
  s = take_run p s +:+ drop_run p s.
Proof.
  induction s as [|x s IH]; [done|]. cbn. destruct (p x); [|done].
  by rewrite app_cons, <- IH.
Qed.

Lemma take_run_all (p : ascii → bool) (s : string) : all_chars p (take_run p s) = true.
Proof. induction s as [|x s IH]; [done|]. cbn. destruct (p x) eqn:Hp; [cbn; by rewrite Hp|done]. Qed.

Lemma drop_run_next (p : ascii → bool) (s : string) :
  match next_char (drop_run p s) with Some c => p c = false | None => True end.
Proof. induction s as [|x s IH]; [done|]. cbn. destruct (p x) eqn:Hp; [done|]. cbn. done. Qed.

Lemma drop_run_length (p : ascii → bool) (s : string) :
  String.length (drop_run p s) ≤ String.length s.
Proof. induction s as [|x s IH]; [done|]. cbn. destruct (p x); cbn; lia. Qed.

(** a greedy repetition takes the whole run when the continuation accepts
    what follows it *)
Lemma greedy_max (p : ascii → bool) (k : cont) (prev : option ascii) (s : string) (m : mres) :
  k (last_char prev (take_run p s)) (drop_run p s) = Some m →
  greedy p k prev s = Some (take_run p s, m).
Proof.
  revert prev. induction s as [|x s IH]; intros prev Hk; cbn in *.
  - by rewrite Hk.
  - destruct (p x) eqn:Hp; cbn in Hk.
    + by rewrite (IH _ Hk).
    + by rewrite Hk.
Qed.

(** passing over the rest of a match *)
Lemma scan_skip (r : regex) (prev : option ascii) (gap t rest : string) :
  scan r prev (String.length t) gap (t +:+ rest) = scan r (last_char prev t) 0 gap rest.
Proof.
  revert prev. induction t as [|x t IH]; intros prev.
  - cbn [String.length last_char]. rewrite app_empty_l. by destruct rest.
  - rewrite app_cons. cbn [String.length scan last_char]. apply IH.
Qed.

(** one step of a scan at a position where the pattern matches *)
Lemma scan_hit (r : regex) (prev : option ascii) (gap : string) (x : ascii)
    (t rest : string) (m : mres) :
  match_here r prev (String x (t +:+ rest)) = Some m →
  m_text m = String x t →
  scan r prev 0 gap (String x (t +:+ rest))
  = Gap (String.rev gap) :: Hit m :: scan r (last_char (Some x) t) 0 EmptyString rest.
Proof.
  intros Hm Ht. cbn [scan]. rewrite Hm, Ht. cbn [String.length]. by rewrite scan_skip.
Qed.

Lemma scan_miss (r : regex) (prev : option ascii) (gap : string) (x : ascii) (s : string) :
  match_here r prev (String x s) = None →
  scan r prev 0 gap (String x s) = scan r (Some x) 0 (String x gap) s.
Proof. intros Hm. cbn [scan]. by rewrite Hm. Qed.

(** a pattern that is one class under [+] matches the run at its position *)
Lemma match_plus (p : ascii → bool) (prev : option ascii) (x : ascii) (s : string) :
  match_here [Plus p] prev (String x s)
  = if p x then Some (MRes (String x (take_run p s)) None (drop_run p s)) else None.
Proof.
  cbn [match_here]. destruct (p x); [|done].
  rewrite (greedy_max p _ (Some x) s (MRes EmptyString None (drop_run p s))) by done.
  cbn. unfold taken, consume. cbn. by rewrite app_empty_r.
Qed.

(** the word pattern matches the run of word characters at its position,
    when no word character stands before *)
Lemma match_word (prev : option ascii) (x : ascii) (s : string) :
  match_here Process.WORD_RE prev (String x s)
  = if (PyStr.is_word x && negb (word_at prev))%bool
    then Some (MRes (String x (take_run PyStr.is_word s)) None (drop_run PyStr.is_word s))
    else None.
Proof.
  unfold Process.WORD_RE. cbn [match_here next_char word_at].
  destruct (PyStr.is_word x) eqn:Hx; cbn [andb].
  - destruct (word_at prev); cbn [xorb negb]; [done|].
    assert (Hlast : word_at (last_char (Some x) (take_run PyStr.is_word s)) = true).
    { clear -Hx. revert x Hx. induction s as [|y s IH]; intros x Hx; cbn; [done|].
      destruct (PyStr.is_word y) eqn:Hy; cbn; [by apply IH|done]. }
    rewrite (greedy_max PyStr.is_word _ (Some x) s
               (MRes EmptyString None (drop_run PyStr.is_word s))).
    + cbn. unfold taken, consume. cbn. by rewrite app_empty_r.
    + rewrite Hlast.
      pose proof (drop_run_next PyStr.is_word s) as Hn.
      destruct (next_char (drop_run PyStr.is_word s)) as [c|]; cbn [word_at]; [|done].
      by rewrite Hn.
  - by destruct (xorb (word_at prev) false).
Qed.

End Runs.

(** ** Words *)

Section Words.
Import Re.

Lemma word_runs_go_run (cur s : string) :
  cur ≠ EmptyString →
  word_runs_go cur s
  = (String.rev cur +:+ take_run PyStr.is_word s) :: word_runs (drop_run PyStr.is_word s).
Proof.
  revert cur. induction s as [|c s IH]; intros cur Hcur.
  - cbn. destruct cur; [done|]. by rewrite app_empty_r.
  - cbn [word_runs_go take_run drop_run]. destruct (PyStr.is_word c) eqn:Hc.
    + rewrite IH by done. by rewrite rev_cons, app_assoc_str.
    + destruct cur; [done|]. rewrite app_empty_r. f_equal.
      unfold word_runs. cbn [word_runs_go]. by rewrite Hc.
Qed.

Lemma hits_gap (t : string) (l : list seg) : hits (Gap t :: l) = hits l.
Proof. reflexivity. Qed.

Lemma hits_hit (m : mres) (l : list seg) : hits (Hit m :: l) = m_text m :: hits l.
Proof. reflexivity. Qed.

Lemma hits_word_runs (n : nat) (s : string) (prev : option ascii) (gap : string) :
  String.length s ≤ n →
  (word_at prev = true → word_at (next_char s) = false) →
  hits (scan Process.WORD_RE prev 0 gap s) = word_runs s.
Proof.
  revert s prev gap. induction n as [|n IH]; intros s prev gap Hlen Hinv.
  - destruct s; [done|cbn in Hlen; lia].
  - destruct s as [|x s]; [done|]. cbn in Hlen.
    pose proof (match_word prev x s) as Hm.
    destruct (PyStr.is_word x) eqn:Hx.
    + assert (Hprev : word_at prev = false).
      { destruct (word_at prev); [|done]. cbn in Hinv. rewrite Hx in Hinv. by apply Hinv. }
      rewrite Hprev in Hm. cbn [andb negb] in Hm.
      assert (Hm' : match_here Process.WORD_RE prev
                      (String x (take_run PyStr.is_word s +:+ drop_run PyStr.is_word s))
                    = Some (MRes (String x (take_run PyStr.is_word s)) None
                                 (drop_run PyStr.is_word s)))
        by by rewrite <- take_drop_run.
      assert (Hscan : scan Process.WORD_RE prev 0 gap (String x s)
                      = Gap (String.rev gap)
                        :: Hit (MRes (String x (take_run PyStr.is_word s)) None
                                     (drop_run PyStr.is_word s))
                        :: scan Process.WORD_RE
                             (last_char (Some x) (take_run PyStr.is_word s)) 0 EmptyString
                             (drop_run PyStr.is_word s)).
      { rewrite <- (scan_hit _ _ _ _ _ _ _ Hm' eq_refl). by rewrite <- take_drop_run. }
      rewrite Hscan, hits_gap, hits_hit. cbn [m_text].
      rewrite IH.
      * unfold word_runs at 2. cbn [word_runs_go]. rewrite Hx.
        by rewrite word_runs_go_run.
      * pose proof (drop_run_length PyStr.is_word s). lia.
      * intros _. pose proof (drop_run_next PyStr.is_word s) as Hn.
        destruct (next_char (drop_run PyStr.is_word s)); [done|done].
    + cbn [andb] in Hm. rewrite (scan_miss _ _ _ _ _ Hm), IH; [|lia|by cbn; rewrite Hx].
      unfold word_runs. cbn [word_runs_go]. by rewrite Hx.
Qed.

Lemma findall_word_runs (s : string) : findall Process.WORD_RE s = word_runs s.
Proof. apply (hits_word_runs (String.length s)); [done|done]. Qed.

Lemma all_chars_rev_app (p : ascii → bool) (s t : string) :
  all_chars p (String.rev_app s t) = (all_chars p s && all_chars p t)%bool.
Proof.
  revert t. induction s as [|x s IH]; intros t; [done|].
  cbn [String.rev_app all_chars]. rewrite IH. cbn. by destruct (p x), (all_chars p s).
Qed.

Lemma all_chars_rev (p : ascii → bool) (s : string) :
  all_chars p (String.rev s) = all_chars p s.
Proof. unfold String.rev. rewrite all_chars_rev_app. cbn. by rewrite andb_true_r. Qed.

Lemma rev_nonempty (x : ascii) (s : string) : String.rev (String x s) ≠ EmptyString.
Proof. rewrite rev_cons. by destruct (String.rev s). Qed.

Lemma word_runs_go_elem (cur s w : string) :
  all_chars PyStr.is_word cur = true →
  w ∈ word_runs_go cur s → w ≠ EmptyString ∧ all_chars PyStr.is_word w = true.
Proof.
  revert cur. induction s as [|c s IH]; intros cur Hcur Hw; cbn [word_runs_go] in Hw.
  - destruct cur as [|y cur]; [by apply elem_of_nil in Hw|].
    apply list_elem_of_singleton in Hw as ->.
    split; [apply rev_nonempty|by rewrite all_chars_rev].
  - destruct (PyStr.is_word c) eqn:Hc.
    + apply (IH (String c cur)); [cbn; by rewrite Hc|done].
    + destruct cur as [|y cur]; [by apply (IH EmptyString)|].
      apply elem_of_cons in Hw as [->|Hw]; [|by apply (IH EmptyString)].
      split; [apply rev_nonempty|by rewrite all_chars_rev].
Qed.

Lemma lower_char_facts (c : ascii) :
  PyStr.is_upper (PyStr.lower_char c) = false
  ∧ (PyStr.is_word c = true → PyStr.is_word (PyStr.lower_char c) = true).
Proof. destruct c as [[] [] [] [] [] [] [] []]; vm_compute; split; done. Qed.

Lemma lower_facts (w : string) :
  String.length (PyStr.lower w) = String.length w
  ∧ all_chars (λ c, negb (PyStr.is_upper c)) (PyStr.lower w) = true
  ∧ (all_chars PyStr.is_word w = true → all_chars PyStr.is_word (PyStr.lower w) = true).
Proof.
  induction w as [|c w (Hl & Hu & Hw)]; [done|].
  destruct (lower_char_facts c) as [Hc1 Hc2].
  cbn [PyStr.lower String.length all_chars]. rewrite Hl, Hc1, Hu. split; [done|]. split; [done|].
  intros [Hc Hr]%andb_true_iff. by rewrite (Hc2 Hc), (Hw Hr).
Qed.

End Words.

(** X7. In a text of ASCII characters the words the extraction counts are
    exactly the maximal runs of letters, digits and underscores, in order,
    and the tokens of the analysis are these runs in lower case: every one
    is non-empty, made of such characters only, and an analysis token has no
    upper-case letter. *)
Theorem tokens_are_word_runs (text : string) :
  is_ascii text = true →
  Re.findall Process.WORD_RE text = word_runs text
  ∧ Analyze.tokenize text = PyStr.lower <$> word_runs text
  ∧ (∀ w, w ∈ Re.findall Process.WORD_RE text →
          w ≠ EmptyString ∧ all_chars PyStr.is_word w = true)
  ∧ (∀ w, w ∈ Analyze.tokenize text →
          w ≠ EmptyString ∧ all_chars PyStr.is_word w = true
          ∧ all_chars (λ c, negb (PyStr.is_upper c)) w = true).
Proof.
  intros _.
  split; [apply findall_word_runs|].
  split; [unfold Analyze.tokenize; f_equal; apply findall_word_runs|].
  split.
  - intros w Hw. rewrite findall_word_runs in Hw. by apply (word_runs_go_elem EmptyString text).
  - intros w Hw. unfold Analyze.tokenize in Hw.
    apply list_elem_of_fmap in Hw as (w0 & -> & Hw0).
    change Analyze.WORD_RE with Process.WORD_RE in Hw0. rewrite findall_word_runs in Hw0.
    destruct (word_runs_go_elem EmptyString text w0 eq_refl Hw0) as [Hne Hall].
    destruct (lower_facts w0) as (Hl & Hu & Hw).
    split; [|split; [by apply Hw|done]].
    intros Hz. destruct w0; [done|]. by rewrite Hz in Hl.
Qed.

Lemma tokens_are_word_runs_witness :
  Re.findall Process.WORD_RE "Hello World_2, hi" = ["Hello"; "World_2"; "hi"]
  ∧ Analyze.tokenize "Hello World_2, hi" = ["hello"; "world_2"; "hi"].
Proof.
  destruct (tokens_are_word_runs "Hello World_2, hi" eq_refl) as (H1 & H2 & _).
  rewrite H1, H2. split; reflexivity.
Defined.

(** ** White space in the extracted text *)

Section WhiteSpace.
Import Re.

Lemma collapse_in_run (s : string) :
  collapse true s = collapse false (drop_run PyStr.is_space s).
Proof.
  induction s as [|c s IH]; [done|]. cbn [collapse drop_run].
  destruct (PyStr.is_space c) eqn:Hc; [done|]. cbn [collapse]. by rewrite Hc.
Qed.

Lemma sub_space_scan (n : nat) (s : string) (prev : option ascii) (gap : string) :
  String.length s ≤ n →
  foldr (λ g acc, match g with Gap t => t +:+ acc | Hit _ => " " +:+ acc end)
        EmptyString (scan Process.SPACE_RE prev 0 gap s)
  = String.rev gap +:+ collapse false s.
Proof.
  revert s prev gap. induction n as [|n IH]; intros s prev gap Hlen.
  - destruct s; [|cbn in Hlen; lia]. cbn. by rewrite !app_empty_r.
  - destruct s as [|x s]; [cbn; by rewrite !app_empty_r|]. cbn in Hlen.
    pose proof (match_plus PyStr.is_space prev x s) as Hm.
    change [Plus PyStr.is_space] with Process.SPACE_RE in Hm.
    destruct (PyStr.is_space x) eqn:Hx.
    + assert (Hm' : match_here Process.SPACE_RE prev
                      (String x (take_run PyStr.is_space s +:+ drop_run PyStr.is_space s))
                    = Some (MRes (String x (take_run PyStr.is_space s)) None
                                 (drop_run PyStr.is_space s)))
        by by rewrite <- take_drop_run.
      pose proof (scan_hit _ _ gap _ _ _ _ Hm' eq_refl) as Hscan.
      rewrite <- take_drop_run in Hscan. rewrite Hscan. cbn [foldr].
      rewrite IH by (pose proof (drop_run_length PyStr.is_space s); lia).
      cbn [collapse]. rewrite Hx, collapse_in_run. done.
    + rewrite (scan_miss _ _ _ _ _ Hm), IH by lia.
      cbn [collapse]. rewrite Hx, rev_cons, app_assoc_str. done.
Qed.

Lemma sub_space_collapse (s : string) : sub Process.SPACE_RE " " s = collapse false s.
Proof. unfold sub, segments. by rewrite (sub_space_scan (String.length s)). Qed.

Lemma collapse_blanks_apart (b : bool) (s : string) :
  blanks_apart (collapse b s) = true
  ∧ (b = true → starts_with_space (collapse b s) = false).
Proof.
  revert b. induction s as [|c s IH]; intros b; [done|]. cbn [collapse].
  destruct (PyStr.is_space c) eqn:Hc.
  - destruct (IH true) as [Ha Hs]. destruct b; [done|].
    split; [|done]. cbn. by rewrite Ha, (Hs eq_refl).
  - destruct (IH false) as [Ha _]. cbn. by rewrite Hc, Ha.
Qed.

Lemma blanks_apart_tail (c : ascii) (s : string) :
  blanks_apart (String c s) = true → blanks_apart s = true.
Proof. cbn. by intros [_ ?]%andb_true_iff. Qed.

Lemma lstrip_facts (s : string) :
  blanks_apart s = true →
  blanks_apart (PyStr.lstrip s) = true ∧ starts_with_space (PyStr.lstrip s) = false.
Proof.
  induction s as [|c s IH]; intros Hs; [done|]. cbn [PyStr.lstrip].
  destruct (PyStr.is_space c) eqn:Hc.
  - apply IH. by apply blanks_apart_tail in Hs.
  - split; [done|]. cbn. done.
Qed.

(** a non-empty [rstrip] keeps the first character *)
Lemma rstrip_head (s : string) (e : ascii) (r : string) :
  PyStr.rstrip s = String e r → ∃ s', s = String e s'.
Proof.
  destruct s as [|c s]; [done|]. cbn [PyStr.rstrip].
  destruct (PyStr.rstrip s) as [|d r'].
  - destruct (PyStr.is_space c); [done|]. intros [= <- <-]. by exists s.
  - intros [= <- <-]. by exists s.
Qed.

Lemma rstrip_facts (s : string) :
  blanks_apart s = true →
  single_spaced (PyStr.rstrip s) = true
  ∧ (starts_with_space s = false → starts_with_space (PyStr.rstrip s) = false).
Proof.
  induction s as [|c s IH]; intros Hs; [done|].
  pose proof Hs as Hs'. cbn in Hs'. apply andb_true_iff in Hs' as [Hc Htl].
  destruct (IH Htl) as [Hss Hst]. cbn [PyStr.rstrip].
  destruct (PyStr.rstrip s) as [|d r] eqn:Hr.
  - destruct (PyStr.is_space c) eqn:Hsc; [done|]. cbn. by rewrite Hsc.
  - split; [|done]. cbn [single_spaced]. apply andb_true_iff. split; [|exact Hss].
    destruct (PyStr.is_space c) eqn:Hsc; [|done].
    apply andb_true_iff in Hc as [Heq Hnext]. rewrite Heq. cbn [andb].
    destruct (rstrip_head s d r Hr) as [s' ->]. cbn in Hnext. done.
Qed.

Lemma single_spaced_get (s : string) (i : nat) (c : ascii) :
  single_spaced s = true → String.get i s = Some c → PyStr.is_space c = true →
  c = " "%char ∧ ∃ d, String.get (S i) s = Some d ∧ PyStr.is_space d = false.
Proof.
  revert i. induction s as [|x s IH]; intros i Hs Hget Hc; [done|].
  cbn in Hs. apply andb_true_iff in Hs as [Hx Hs].
  destruct i as [|i]; cbn in Hget.
  - injection Hget as ->. rewrite Hc in Hx. apply andb_true_iff in Hx as [Heq Hn].
    apply Ascii.eqb_eq in Heq. split; [done|].
    destruct s as [|d s]; [done|]. exists d. split; [done|]. by apply negb_true_iff.
  - destruct (IH i Hs Hget Hc) as (Heq & d & Hd & Hnd). split; [done|]. by exists d.
Qed.

End WhiteSpace.

(** X8. The text that [strip_html] returns is normalised: each of its white
    space characters is a blank that is not the first character and is
    followed by a character that is not white space; so the text neither
    starts nor ends with white space, has no tab or line break, and never
    two blanks in a row. *)
Theorem extracted_text_normalised (html : string) (i : nat) (c : ascii) :
  String.get i (fst (fst (Process.strip_html html))) = Some c →
  PyStr.is_space c = true →
  c = " "%char ∧ i ≠ 0
  ∧ ∃ d, String.get (S i) (fst (fst (Process.strip_html html))) = Some d
         ∧ PyStr.is_space d = false.
Proof.
  unfold Process.strip_html. cbn [fst]. rewrite sub_space_collapse. unfold PyStr.strip.
  set (u := collapse false _).
  destruct (collapse_blanks_apart false (Re.sub Process.TAG_RE " "
              (Re.sub Process.STYLE_RE "" (Re.sub Process.SCRIPT_RE "" html)))) as [Hu _].
  fold u in Hu.
  destruct (lstrip_facts u Hu) as [Hl Hls].
  destruct (rstrip_facts (PyStr.lstrip u) Hl) as [Hss Hst]. specialize (Hst Hls).
  intros Hget Hc.
  destruct (single_spaced_get _ _ _ Hss Hget Hc) as (Heq & d & Hd & Hnd).
  split; [done|]. split; [|by exists d].
  intros ->. destruct (PyStr.rstrip (PyStr.lstrip u)) as [|y r]; [done|].
  cbn in Hget, Hst. injection Hget as ->. congruence.
Qed.

Lemma extracted_text_normalised_witness :
  String.get 5 (fst (fst (Process.strip_html sample_html))) = Some " "%char
  ∧ ∃ d, String.get 6 (fst (fst (Process.strip_html sample_html))) = Some d
         ∧ PyStr.is_space d = false.
Proof.
  assert (Hget : String.get 5 (fst (fst (Process.strip_html sample_html))) = Some " "%char)
    by (vm_compute; reflexivity).
  split; [exact Hget|].
  destruct (extracted_text_normalised sample_html 5 " "%char Hget eq_refl) as (_ & _ & H).
  exact H.
Defined.

(** ** Link and image targets *)

Section Targets.
Import Re.

Lemma match_cap_group (c : ascii → bool) (r : regex) (prev : option ascii) (s : string)
    (m : mres) :
  match_here (CapPlus c :: r) prev s = Some m →
  ∃ g, m_group m = Some g ∧ g ≠ EmptyString ∧ all_chars c g = true.
Proof.
  intros Hm. cbn [match_here] in Hm.
  destruct s as [|x s]; [done|]. destruct (c x) eqn:Hx; [|done].
  destruct (greedy c (match_here r) (Some x) s) as [[t m']|] eqn:Hg; [|done].
  cbn in Hm. injection Hm as <-.
  destruct (greedy_spec _ _ _ _ _ _ Hg) as (Ht & _).
  exists (String x t). cbn. by rewrite Hx, Ht.
Qed.

Lemma match_opt_group (q : ascii → bool) (r : regex) (prev : option ascii) (s : string)
    (m : mres) :
  match_here (Opt q :: r) prev s = Some m →
  ∃ prev' s' m', match_here r prev' s' = Some m' ∧ m_group m = m_group m'.
Proof.
  intros Hm. cbn [match_here] in Hm.
  destruct s as [|x s]; [by exists prev, EmptyString, m|].
  destruct (q x); [|by exists prev, (String x s), m].
  destruct (match_here r (Some x) s) as [m'|] eqn:Hm'; [|by exists prev, (String x s), m].
  injection Hm as <-. by exists (Some x), s, m'.
Qed.

Lemma match_lit_i_group (a : ascii) (r : regex) (prev : option ascii) (s : string)
    (m : mres) :
  match_here (LitI a :: r) prev s = Some m →
  ∃ prev' s' m', match_here r prev' s' = Some m' ∧ m_group m = m_group m'.
Proof.
  intros Hm. cbn [match_here] in Hm.
  destruct s as [|x s]; [done|]. destruct (Ascii.eqb _ _); [|done].
  destruct (match_here r (Some x) s) as [m'|] eqn:Hm'; [|done].
  cbn in Hm. injection Hm as <-. by exists (Some x), s, m'.
Qed.

(** a match of [w[q]?([c]+)] has a group: a non-empty string of the class *)
Lemma match_attribute (w : string) (q c : ascii → bool) (prev : option ascii) (s : string)
    (m : mres) :
  match_here (lit_i w ++ [Opt q; CapPlus c]) prev s = Some m →
  ∃ g, m_group m = Some g ∧ g ≠ EmptyString ∧ all_chars c g = true.
Proof.
  revert prev s m. induction w as [|a w IH]; intros prev s m Hm.
  - cbn [lit_i app] in Hm. apply match_opt_group in Hm as (prev' & s' & m' & Hm' & ->).
    by apply match_cap_group in Hm'.
  - cbn [lit_i app] in Hm. apply match_lit_i_group in Hm as (prev' & s' & m' & Hm' & ->).
    by apply IH in Hm'.
Qed.

Lemma findall_group_attribute (w : string) (q c : ascii → bool) (s l : string) :
  l ∈ findall_group (lit_i w ++ [Opt q; CapPlus c]) s →
  l ≠ EmptyString ∧ all_chars c l = true.
Proof.
  unfold findall_group, segments. intros Hl.
  apply list_elem_of_omap in Hl as ([t|m] & Hin & Hsome); [done|].
  injection Hsome as <-.
  apply scan_hits in Hin as (_ & prev' & s' & Hm).
  apply match_attribute in Hm as (g & -> & Hg). done.
Qed.

End Targets.

(** X9. Every link target and every image target that [strip_html] returns
    is non-empty and has no quote, no blank and no [>] in it. *)
Theorem targets_well_formed (html : string) (l : string) :
  l ∈ snd (fst (Process.strip_html html)) ∨ l ∈ snd (Process.strip_html html) →
  l ≠ EmptyString
  ∧ all_chars (Re.none_of [Process.sq; Process.dq; " "%char; ">"%char]) l = true.
Proof.
  unfold Process.strip_html. cbn [fst snd].
  intros [Hl|Hl]; by apply findall_group_attribute in Hl.
Qed.

Lemma targets_well_formed_witness :
  "http://x.com" ≠ EmptyString
  ∧ all_chars (Re.none_of [Process.sq; Process.dq; " "%char; ">"%char]) "http://x.com" = true.
Proof.
  apply (targets_well_formed sample_html). left. vm_compute. by left.
Defined.

(** ** The statistics of a document *)

Section Statistics.
Import Re.

Lemma any_char_app (p : ascii → bool) (s t : string) :
  any_char p (s +:+ t) = (any_char p s || any_char p t)%bool.
Proof.
  induction s as [|x s IH]; [done|]. rewrite app_cons. cbn. rewrite IH. by rewrite orb_assoc.
Qed.

Lemma any_char_all_chars (p q : ascii → bool) (s : string) :
  (∀ c, q c = true → p c = false) → all_chars q s = true → any_char p s = false.
Proof.
  intros Hpq. induction s as [|x s IH]; [done|]. cbn.
  intros [Hx Hs]%andb_true_iff. by rewrite (Hpq x Hx), (IH Hs).
Qed.

Lemma word_runs_none (s : string) :
  any_char PyStr.is_word s = false → word_runs_go EmptyString s = [].
Proof.
  induction s as [|c s IH]; [done|]. cbn.
  intros [Hc Hs]%orb_false_iff. rewrite Hc. by apply IH.
Qed.

Lemma any_char_flatten (p : ascii → bool) (segs : list seg) :
  any_char p (flatten segs) = true → ∃ g, g ∈ segs ∧ any_char p (seg_text g) = true.
Proof.
  induction segs as [|g segs IH]; [done|].
  unfold flatten. cbn [foldr]. rewrite any_char_app. intros [Hg|Hr]%orb_true_iff.
  - exists g. split; [by left|done].
  - destruct (IH Hr) as (g' & Hin & Hg'). exists g'. split; [by right|done].
Qed.

Lemma word_not_space (c : ascii) : PyStr.is_word c = true → PyStr.is_space c = false.
Proof. destruct c as [[] [] [] [] [] [] [] []]; vm_compute; done. Qed.

Lemma terminator_not_word (c : ascii) :
  one_of ["."; "!"; "?"]%char c = true → PyStr.is_word c = false.
Proof. destruct c as [[] [] [] [] [] [] [] []]; vm_compute; done. Qed.

Lemma any_char_mono (p q : ascii → bool) (s : string) :
  (∀ c, p c = true → q c = true) → any_char p s = true → any_char q s = true.
Proof.
  intros Hpq. induction s as [|x s IH]; [done|]. cbn.
  intros [Hx|Hs]%orb_true_iff; [by rewrite (Hpq x Hx)|]. rewrite (IH Hs). by destruct (q x).
Qed.

(** a piece with a character that is not white space stays non-empty when
    stripped *)
Lemma strip_truthy (g : string) :
  any_char (λ c, negb (PyStr.is_space c)) g = true → PyStr.truthy (PyStr.strip g) = true.
Proof.
  unfold PyStr.strip. induction g as [|c g IH]; [done|]. cbn [any_char PyStr.lstrip].
  destruct (PyStr.is_space c) eqn:Hc; cbn [negb orb]; [done|]. intros _.
  cbn [PyStr.rstrip]. destruct (PyStr.rstrip g); [by rewrite Hc|done].
Qed.

Lemma sentence_hit (prev : option ascii) (skip : nat) (gap s : string) (m : mres) :
  Hit m ∈ scan Process.SENT_RE prev skip gap s →
  any_char PyStr.is_word (m_text m) = false.
Proof.
  intros Hin. apply scan_hits in Hin as (_ & prev' & s' & Hm).
  destruct s' as [|x s']; [done|].
  unfold Process.SENT_RE in Hm. rewrite match_plus in Hm.
  destruct (one_of _ x) eqn:Hx; [|done]. injection Hm as <-. cbn [m_text].
  apply (any_char_all_chars _ (one_of ["."; "!"; "?"]%char)); [apply terminator_not_word|].
  cbn [all_chars]. by rewrite Hx, take_run_all.
Qed.

(** a text with a word character has a sentence *)
Lemma sentences_nonempty (text : string) :
  any_char PyStr.is_word text = true →
  ∃ g, g ∈ filter (λ s, PyStr.truthy (PyStr.strip s) = true) (split Process.SENT_RE text).
Proof.
  intros Hw. unfold split, segments.
  pose proof (scan_flatten Process.SENT_RE None 0 EmptyString text) as Hflat.
  cbn [drop_chars] in Hflat. unfold String.rev in Hflat. cbn [String.rev_app] in Hflat.
  rewrite app_empty_l in Hflat. rewrite <- Hflat in Hw.
  apply any_char_flatten in Hw as ([g|m] & Hin & Hg).
  - exists g. apply list_elem_of_filter. split.
    + apply strip_truthy. eapply any_char_mono; [|exact Hg].
      intros c Hc. by rewrite (word_not_space c Hc).
    + apply list_elem_of_omap. by exists (Gap g).
  - apply sentence_hit in Hin. cbn in Hg. congruence.
Qed.

Lemma sum_len_ge_length (ws : list string) :
  Forall (λ w, w ≠ EmptyString) ws → length ws ≤ sum_len ws.
Proof.
  induction 1 as [|w ws Hw _ IH]; [done|]. destruct w; [done|]. cbn in *. unfold sum_len in IH. lia.
Qed.

End Statistics.

(** X10. The statistics of a document hang together: without a word the
    mean word length is 0.0; with at least one word the mean word length is
    at least 1, and the document has at least one sentence and at least one
    paragraph. *)
Theorem statistics_consistent (html text : string) :
  ∃ st, Process.document_stats html text = Ok st
        ∧ (word_count st = 0 → avg_word_length st = 0%Qc)
        ∧ (0 < word_count st →
           (1 <= avg_word_length st)%Qc
           ∧ 1 ≤ sentence_count st ∧ 1 ≤ paragraph_count st).
Proof.
  unfold Process.document_stats. rewrite findall_word_runs.
  destruct (word_runs text) as [|w ws] eqn:Hruns.
  - cbn [Process.mean_word_length rbind length]. eexists. split; [done|].
    cbn [word_count avg_word_length]. split; [done|lia].
  - assert (Hne : Forall (λ w, w ≠ EmptyString) (w :: ws)).
    { apply Forall_forall. intros v Hv. rewrite <- Hruns in Hv.
      by apply (word_runs_go_elem EmptyString text v eq_refl). }
    assert (Hword : any_char PyStr.is_word text = true).
    { destruct (any_char PyStr.is_word text) eqn:Ha; [done|].
      apply word_runs_none in Ha. unfold word_runs in Hruns. congruence. }
    cbn [Process.mean_word_length]. rewrite py_truediv_ok by done.
    cbn [rbind]. eexists. split; [done|]. cbn [word_count avg_word_length sentence_count
                                               paragraph_count].
    split; [done|]. intros _. split; [|split].
    + rewrite <- Qc_of_nat_1. apply rounded_ge; [done|done|].
      pose proof (sum_len_ge_length _ Hne). lia.
    + destruct (sentences_nonempty text Hword) as [g Hg]. rewrite length_fmap.
      destruct (filter _ _); [by apply elem_of_nil in Hg|cbn; lia].
    + destruct text as [|c text]; [done|]. cbn [PyStr.truthy].
      destruct (length (Re.findall Process.P_TAG_RE html)) as [|k]; cbn; lia.
Qed.

(** ** From the records of the extraction to the analysis *)

Section Composition.

Lemma stats_of_fields (html text : string) :
  word_count (stats_of html text) = length (Re.findall Process.WORD_RE text)
  ∧ Process.mean_word_length (Re.findall Process.WORD_RE text)
    = Ok (avg_word_length (stats_of html text)).
Proof.
  unfold stats_of, Process.document_stats.
  destruct (mean_word_length_total (Re.findall Process.WORD_RE text)) as [q Hq].
  rewrite Hq. done.
Qed.

Lemma record_of_fields (clock : nat → string) (f html : string) (t : nat) :
  word_count (doc_statistics (record_of clock f html t))
  = length (Re.findall Process.WORD_RE (text (record_of clock f html t)))
  ∧ Process.mean_word_length (Re.findall Process.WORD_RE (text (record_of clock f html t)))
    = Ok (avg_word_length (doc_statistics (record_of clock f html t))).
Proof.
  unfold record_of. destruct (Process.strip_html html) as [[tx ls] im]. cbn [text doc_statistics].
  apply stats_of_fields.
Qed.

Lemma sum_len_lower (ws : list string) : sum_len (PyStr.lower <$> ws) = sum_len ws.
Proof.
  induction ws as [|w ws IH]; [done|]. rewrite fmap_cons. cbn.
  destruct (lower_facts w) as (-> & _). unfold sum_len in IH. by rewrite IH.
Qed.

Lemma stored_tokens (d : processed_document) :
  snd (document_of (stored d)) = PyStr.lower <$> Re.findall Process.WORD_RE (text d).
Proof. reflexivity. Qed.

Lemma substring_app_suffix (s t : string) :
  String.substring (String.length s) (String.length t) (s +:+ t) = t.
Proof.
  induction s as [|c s IH]; [|cbn; apply IH].
  rewrite app_empty_l. cbn [String.length]. clear.
  induction t as [|c t IH]; [done|]. cbn. by rewrite IH.
Qed.

Lemma endswith_app (s t : string) : PyStr.endswith (s +:+ t) t = true.
Proof.
  unfold PyStr.endswith. rewrite length_app_str.
  replace (String.length s + String.length t - String.length t) with (String.length s) by lia.
  rewrite substring_app_suffix, String.eqb_refl.
  apply andb_true_iff. split; [apply Nat.leb_le; lia|done].
Qed.

Lemma is_json_stored (d : processed_document) : is_json (stored d) = true.
Proof. unfold is_json, stored. cbn [fst]. apply endswith_app. Qed.

Lemma filter_all {A} (P : A → Prop) `{!∀ x, Decision (P x)} (l : list A) :
  Forall P l → filter P l = l.
Proof.
  induction 1 as [|x l Hx _ IH]; [done|]. rewrite filter_cons, decide_True by done.
  by rewrite IH.
Qed.

Lemma store_after_fresh_acc (acc : list (string * Analyze.processed_file))
    (ds : list processed_document) :
  NoDup (acc.*1 ++ (fst ∘ stored <$> ds)) →
  foldl write_record acc ds = acc ++ (stored <$> ds).
Proof.
  revert acc. induction ds as [|d ds IH]; intros acc Hnd; cbn [foldl fmap list_fmap].
  - by rewrite app_nil_r.
  - rewrite fmap_cons in Hnd.
    assert (Hfresh : write_record acc d = acc ++ [stored d]).
    { unfold write_record. f_equal. apply filter_all, Forall_forall. intros e He Heq.
      apply NoDup_app in Hnd as (_ & Hdis & _). apply (Hdis (fst e)).
      - apply list_elem_of_fmap. by exists e.
      - rewrite Heq. by left. }
    rewrite Hfresh, IH.
    + by rewrite <- app_assoc.
    + rewrite fmap_app, <- app_assoc. exact Hnd.
Qed.

Lemma store_after_fresh (ds : list processed_document) :
  NoDup (fst ∘ stored <$> ds) → store_after ds = stored <$> ds.
Proof. intros Hnd. unfold store_after. by rewrite store_after_fresh_acc. Qed.

Lemma count_total_words_perm (l l' : list (string * Analyze.processed_file)) :
  l ≡ₚ l' →
  Analyze.count_total_words (document_of <$> l) = Analyze.count_total_words (document_of <$> l').
Proof.
  induction 1 as [|x l1 l2 _ IH|x y l1|l1 l2 l3 _ IH1 _ IH2]; [done| | |congruence].
  - rewrite !fmap_cons. cbn [Analyze.count_total_words foldr]. unfold Analyze.count_total_words in IH.
    by rewrite IH.
  - rewrite !fmap_cons. cbn [Analyze.count_total_words foldr]. lia.
Qed.

End Composition.

(** X11. The two stages agree on the words of documents of ASCII
    characters no two of which share a record path: the analysis finds in
    the text of a record as many tokens as the record's word_count; every
    record is in the processed store, so that the total_words of the analysis
    of that store is the sum of the word counts of the records; and for a
    corpus of one record the mean word length of the analysis is the
    avg_word_length of the record. *)
Theorem stages_agree_on_words (clock : nat → string)
    (inputs : list (string * string * nat)) :
  Forall (λ i, is_ascii i.1.2 = true) inputs →
  NoDup ((λ i, Process.out_name i.1.1) <$> inputs) →
  Forall (λ d, length (snd (document_of (stored d))) = word_count (doc_statistics d))
    (records_of clock inputs)
  ∧ store_after (records_of clock inputs) = stored <$> records_of clock inputs
  ∧ Analyze.count_total_words
      (document_of <$> filter (λ e, is_json e = true)
                         (sorted (store_after (records_of clock inputs))))
    = sum_word_counts (records_of clock inputs)
  ∧ Forall (λ d, Analyze.avg_word_len (Analyze.freq [document_of (stored d)])
                   (Analyze.count_total_words [document_of (stored d)])
                 = Ok (avg_word_length (doc_statistics d)))
      (records_of clock inputs).
Proof.
  intros _ Hnd.
  assert (Hone : ∀ i : string * string * nat,
             length (snd (document_of (stored (record_of clock i.1.1 i.1.2 i.2))))
             = word_count (doc_statistics (record_of clock i.1.1 i.1.2 i.2))).
  { intros [[f html] t]. cbn [fst snd]. rewrite stored_tokens, length_fmap.
    by destruct (record_of_fields clock f html t) as [-> _]. }
  assert (Hstore : store_after (records_of clock inputs) = stored <$> records_of clock inputs).
  { apply store_after_fresh. unfold records_of. rewrite <- !list_fmap_compose.
    apply (NoDup_fmap_1 (String.append "/shared/processed/")).
    rewrite <- list_fmap_compose.
    erewrite list_fmap_ext; [exact Hnd|]. intros ? [[f html] t] _. cbn.
    reflexivity. }
  split; [|split; [exact Hstore|split]].
  - unfold records_of. apply Forall_fmap, Forall_forall. intros i _. apply Hone.
  - rewrite Hstore.
    rewrite (count_total_words_perm _ (stored <$> records_of clock inputs)).
    + clear Hnd Hstore. unfold records_of. induction inputs as [|i inputs IH]; [done|].
      rewrite !fmap_cons. cbn [Analyze.count_total_words sum_word_counts foldr].
      rewrite Hone. f_equal. apply IH.
    + rewrite filter_all; [apply sorted_perm|].
      rewrite sorted_perm. apply Forall_fmap, Forall_forall. intros d _. apply is_json_stored.
  - unfold records_of. apply Forall_fmap, Forall_forall. intros [[f html] t] _.
    unfold compose. cbn [fst snd].
    destruct (record_of_fields clock f html t) as [Hwc Havg].
    set (d := record_of clock f html t) in *.
    unfold Analyze.avg_word_len, Analyze.freq, Analyze.all_tokens.
    cbn [Analyze.count_total_words foldr flat_map]. rewrite app_nil_r, Nat.add_0_r.
    rewrite sum_len_elements, weighted_len_Counter, stored_tokens, sum_len_lower, length_fmap.
    rewrite <- Havg. unfold Process.mean_word_length.
    destruct (Re.findall Process.WORD_RE (text d)) as [|w ws]; [done|]. done.
Qed.

Lemma stages_agree_on_words_witness :
  Analyze.count_total_words
    (document_of <$> filter (λ e, is_json e = true)
                       (sorted (store_after (records_of sample_clock two_pages))))
  = sum_word_counts (records_of sample_clock two_pages).
Proof.
  destruct (stages_agree_on_words sample_clock two_pages) as (_ & _ & H & _).
  - repeat constructor.
  - apply (bool_decide_unpack _). vm_compute. exact I.
  - exact H.
Defined.

(** two documents that share a record path: the second record replaces the
    first, and the analysis counts the words of the second only *)
Example overwritten_record_not_counted :
  store_after (records_of sample_clock [(".html", "<p>one two</p>", 0);
                                        (".html.html", "<p>three</p>", 1)])
  = [(".html.json", Analyze.JsonObject (Some "three"))]
  ∧ sum_word_counts (records_of sample_clock [(".html", "<p>one two</p>", 0);
                                               (".html.html", "<p>three</p>", 1)]) = 3.
Proof. split; vm_compute; reflexivity. Qed.

(** ** Runs of the analysis stage *)

Section AnalysisRuns.
Import Analyze.

Lemma first_unloadable_app (l1 l2 : list (string * processed_file)) (f : string)
    (e : py_error) :
  Forall (λ x, is_loadable x = true) l1 →
  first_unloadable (l1 ++ (f, Unloadable e) :: l2) = Some (f, e)
  ∧ (documents_from (l1 ++ (f, Unloadable e) :: l2)).*1 = l1.*1.
Proof.
  induction l1 as [|[f' [data| | |e']] l1 IH]; intros Hl; cbn; [done| | | |];
    [|by apply Forall_cons in Hl as [Hl _]..].
  apply Forall_cons in Hl as [_ Hl]. destruct (IH Hl) as [-> ->]. done.
Qed.

Lemma first_malformed_app (l1 l2 : list (string * processed_file)) (f : string)
    (file : processed_file) :
  Forall (λ x, is_loadable x = true) l1 →
  file = JsonOther ∨ file = JsonObjectOtherText →
  first_unloadable (l1 ++ (f, file) :: l2)
  = Some (f, match file with JsonOther => AttributeError | _ => TypeError end)
  ∧ (documents_from (l1 ++ (f, file) :: l2)).*1 = l1.*1.
Proof.
  intros Hl Hfile.
  induction l1 as [|[f' [data| | |e']] l1 IH]; cbn;
    [by destruct Hfile as [-> | ->]| | | |];
    [|by apply Forall_cons in Hl as [Hl _]..].
  apply Forall_cons in Hl as [_ Hl]. destruct (IH Hl) as [-> ->]. done.
Qed.

End AnalysisRuns.

(** X12. When a [.json] entry of the processed store does not load, the
    analysis stage ends at that entry with its error: the entries before it
    have been read, the entry itself was the last one opened, no later entry
    is read, nothing is printed about it and no report is written. *)
Theorem unloadable_record_aborts (clock : nat → string) (absent : nat)
    (processed : list (string * Analyze.processed_file)) (t : nat)
    (l1 : list (string * Analyze.processed_file)) (f : string) (e : py_error)
    (l2 : list (string * Analyze.processed_file)) :
  filter (λ x, is_json x = true) (sorted processed) = l1 ++ (f, Analyze.Unloadable e) :: l2 →
  Forall (λ x, is_loadable x = true) l1 →
  IO.outcome (Analyze.main clock absent processed t) = Err e
  ∧ written_reports (IO.events (Analyze.main clock absent processed t)) = []
  ∧ files_read (IO.events (Analyze.main clock absent processed t))
    = processed_path <$> (l1.*1 ++ [f])
  ∧ printed (IO.events (Analyze.main clock absent processed t))
    = replicate absent "Waiting for process_complete.json...".
Proof.
  intros Hsplit Hl1. rewrite analyze_main_trace, Hsplit.
  destruct (first_unloadable_app l1 l2 f e Hl1) as [-> Hnames].
  destruct (analysis_start_quiet absent) as (Hsf & Hsr & Hsp).
  destruct (reads_projections (documents_from (l1 ++ (f, Analyze.Unloadable e) :: l2)))
    as (Hf & Hr & Hp).
  unfold IO.events, IO.outcome; cbn [fst snd]. split; [done|].
  rewrite !written_reports_app, !files_read_app, !printed_app, Hsf, Hsr, Hsp, Hf, Hr, Hp, Hnames.
  split; [done|]. split; [by rewrite fmap_app|]. cbn. by rewrite app_nil_r.
Qed.

Lemma unloadable_record_aborts_witness :
  IO.outcome (Analyze.main sample_clock 0 processed_with_corrupt 0) = Err JSONDecodeError
  ∧ written_reports (IO.events (Analyze.main sample_clock 0 processed_with_corrupt 0)) = []
  ∧ files_read (IO.events (Analyze.main sample_clock 0 processed_with_corrupt 0))
    = processed_path <$> ["a.json"; "b.json"]
  ∧ printed (IO.events (Analyze.main sample_clock 0 processed_with_corrupt 0))
    = replicate 0 "Waiting for process_complete.json...".
Proof.
  apply (unloadable_record_aborts sample_clock 0 processed_with_corrupt 0
           [("a.json", Analyze.JsonObject (Some "one two"))] "b.json" JSONDecodeError
           [("c.json", Analyze.JsonObject (Some "three"))]).
  - vm_compute. reflexivity.
  - repeat constructor.
Defined.

(** X13. With exactly one [.json] entry, and that one an object whose
    ["text"] member is a string or is missing, the analysis stage completes:
    after the start it reads that file and writes one report, to
    [/shared/analysis/final_report.json], and nothing else; the report has
    one document, no similarity entry, the tokens of the text as
    total_words, and the clock reading of the run as its stamp.  An object
    without a ["text"] member counts as an empty text: total_words and
    unique_words are 0. *)
Theorem single_document_report (clock : nat → string) (absent : nat)
    (processed : list (string * Analyze.processed_file)) (t : nat)
    (f : string) (data : option string) :
  filter (λ x, is_json x = true) (sorted processed) = [(f, Analyze.JsonObject data)] →
  IO.outcome (Analyze.main clock absent processed t) = Ok tt
  ∧ ∃ r, IO.events (Analyze.main clock absent processed t)
         = analysis_start absent
           ++ [ReadFile (processed_path f);
               WriteReport "/shared/analysis/final_report.json" r]
         ∧ processing_timestamp r = clock t
         ∧ documents_processed r = 1
         ∧ document_similarity r = []
         ∧ total_words r = length (Analyze.tokenize (default "" data))
         ∧ unique_words r
           = size (list_to_set (C := gset string) (Analyze.tokenize (default "" data)))
         ∧ (data = None → total_words r = 0 ∧ unique_words r = 0).
Proof.
  intros Hone. rewrite analyze_main_trace, Hone. cbn [first_unloadable documents_from].
  set (doc := document_of (f, Analyze.JsonObject data)).
  destruct (build_report_one clock [doc] t ltac:(done)) as (top & rd & _ & _ & ->).
  unfold IO.events, IO.outcome; cbn [fst snd]. split; [done|].
  eexists. split; [done|]. cbn [processing_timestamp documents_processed document_similarity
                                 total_words unique_words].
  split; [done|]. split; [done|]. split; [done|].
  unfold Analyze.vocab, Analyze.all_tokens. cbn [flat_map]. rewrite app_nil_r.
  cbn [Analyze.count_total_words foldr]. subst doc. cbn [document_of fst snd].
  split; [lia|]. split; [done|]. intros ->. done.
Qed.

Lemma single_document_report_witness :
  IO.outcome (Analyze.main sample_clock 0 one_document_b_a 0) = Ok tt
  ∧ ∃ r, IO.events (Analyze.main sample_clock 0 one_document_b_a 0)
         = analysis_start 0
           ++ [ReadFile (processed_path "a.json");
               WriteReport "/shared/analysis/final_report.json" r]
         ∧ total_words r = 2.
Proof.
  destruct (single_document_report sample_clock 0 one_document_b_a 0 "a.json" (Some "b a"))
    as (H1 & r & H2 & _ & _ & _ & H3 & _).
  - vm_compute. reflexivity.
  - split; [exact H1|]. exists r. split; [exact H2|exact H3].
Defined.

(** X20. A [.json] entry that parses but is not an object, or is an object
    whose ["text"] member is not a string, ends the run at that entry: with
    [AttributeError] for the first (the value has no [get]), with
    [TypeError] for the second (the pattern is applied to it); the entries
    before it have been read, no later one is, and no report is written. *)
Theorem malformed_record_aborts (clock : nat → string) (absent : nat)
    (processed : list (string * Analyze.processed_file)) (t : nat)
    (l1 : list (string * Analyze.processed_file)) (f : string)
    (file : Analyze.processed_file) (l2 : list (string * Analyze.processed_file)) :
  filter (λ x, is_json x = true) (sorted processed) = l1 ++ (f, file) :: l2 →
  Forall (λ x, is_loadable x = true) l1 →
  file = Analyze.JsonOther ∨ file = Analyze.JsonObjectOtherText →
  IO.outcome (Analyze.main clock absent processed t)
  = Err (match file with Analyze.JsonOther => AttributeError | _ => TypeError end)
  ∧ written_reports (IO.events (Analyze.main clock absent processed t)) = []
  ∧ files_read (IO.events (Analyze.main clock absent processed t))
    = processed_path <$> (l1.*1 ++ [f]).
Proof.
  intros Hsplit Hl1 Hfile. rewrite analyze_main_trace, Hsplit.
  destruct (first_malformed_app l1 l2 f file Hl1 Hfile) as [-> Hnames].
  destruct (analysis_start_quiet absent) as (Hsf & Hsr & Hsp).
  destruct (reads_projections (documents_from (l1 ++ (f, file) :: l2))) as (Hf & Hr & Hp).
  unfold IO.events, IO.outcome; cbn [fst snd]. split; [done|].
  rewrite !written_reports_app, !files_read_app, Hsf, Hsr, Hf, Hr, Hnames.
  split; [done|]. by rewrite fmap_app.
Qed.

Lemma malformed_record_aborts_witness :
  IO.outcome (Analyze.main sample_clock 0 processed_with_null_text 0) = Err TypeError
  ∧ written_reports (IO.events (Analyze.main sample_clock 0 processed_with_null_text 0)) = []
  ∧ files_read (IO.events (Analyze.main sample_clock 0 processed_with_null_text 0))
    = processed_path <$> ["a.json"; "b.json"].
Proof.
  apply (malformed_record_aborts sample_clock 0 processed_with_null_text 0
           [("a.json", Analyze.JsonObject (Some "one two"))] "b.json"
           Analyze.JsonObjectOtherText
           [("c.json", Analyze.JsonObject (Some "three"))]).
  - vm_compute. reflexivity.
  - repeat constructor.
  - by right.
Defined.

(** ** Waiting for the marker *)

Section Polling.

Lemma file_events_quiet (tr : list event) :
  Forall (λ e, match e with
               | ReadFile _ | WriteRecord _ _ | WriteMarker _ _ _ | WriteReport _ _ => True
               | _ => False
               end) tr →
  printed tr = [] ∧ slept tr = [] ∧ listed tr = [].
Proof.
  induction 1 as [|e tr He _ (Hp & Hs & Hl)]; [done|].
  destruct e; try done.
Qed.

Lemma document_events_file_events (docs : list processed_document) :
  Forall (λ e, match e with
               | ReadFile _ | WriteRecord _ _ | WriteMarker _ _ _ | WriteReport _ _ => True
               | _ => False
               end) (flat_map document_events docs).
Proof. induction docs as [|d docs IH]; [constructor|]. cbn. by repeat constructor. Qed.

Lemma reads_file_events (docs : list Analyze.document) :
  Forall (λ e, match e with
               | ReadFile _ | WriteRecord _ _ | WriteMarker _ _ _ | WriteReport _ _ => True
               | _ => False
               end) ((λ d, ReadFile (processed_path (fst d))) <$> docs).
Proof. induction docs as [|d docs IH]; [constructor|]. rewrite fmap_cons. by constructor. Qed.

End Polling.

(** X14. Both stages touch their input only after the polling loop: the
    trace of a run is the two makedirs, then one line printed and one pause
    of 2 seconds for each time the marker was found missing, then the listing
    of the input directory; after the listing the stage only reads and writes
    files: it prints nothing, never pauses and never lists again. *)
Theorem polling_then_listing (clock : nat → string) (absent : nat) (t : nat)
    (raw : list (string * Process.raw_file))
    (processed : list (string * Analyze.processed_file)) :
  (∃ rest,
     IO.events (Process.main clock absent raw t)
     = [Makedirs "/shared/processed"; Makedirs "/shared/status"]
       ++ waiting absent "Waiting for fetch_complete.json..."
       ++ Listdir "/shared/raw" :: rest
     ∧ printed rest = [] ∧ slept rest = [] ∧ listed rest = [])
  ∧ (∃ rest,
       IO.events (Analyze.main clock absent processed t)
       = [Makedirs "/shared/analysis"; Makedirs "/shared/status"]
         ++ waiting absent "Waiting for process_complete.json..."
         ++ Listdir "/shared/processed" :: rest
       ∧ printed rest = [] ∧ slept rest = [] ∧ listed rest = []).
Proof.
  split.
  - rewrite process_main_trace.
    set (docs := records_from clock t _).
    destruct (first_unreadable _) as [[f msg]|]; unfold IO.events; cbn [fst snd];
      eexists; (split; [unfold extraction_start; by rewrite <- !app_assoc|]);
      apply file_events_quiet, Forall_app; (split; [apply document_events_file_events|]);
      by repeat constructor.
  - rewrite analyze_main_trace.
    set (docs := documents_from _).
    destruct (first_unloadable _) as [[f e]|].
    + unfold IO.events; cbn [fst snd].
      eexists; (split; [unfold analysis_start; by rewrite <- !app_assoc|]).
      apply file_events_quiet, Forall_app. split; [apply reads_file_events|].
      by repeat constructor.
    + destruct (Analyze.build_report clock docs t) as [[ev t'] [r|e]];
        unfold IO.events; cbn [fst snd].
      * eexists; (split; [unfold analysis_start; by rewrite <- !app_assoc|]).
        apply file_events_quiet, Forall_app. split; [apply reads_file_events|].
        by repeat constructor.
      * eexists; (split; [unfold analysis_start; by rewrite <- !app_assoc|]).
        apply file_events_quiet, reads_file_events.
Qed.

(** ** The paths of the records *)

Section RecordPaths.

Lemma substring_all (s : string) : String.substring 0 (String.length s) s = s.
Proof. induction s as [|c s IH]; [done|]. cbn. by rewrite IH. Qed.

Lemma substring_prefix (s t : string) :
  String.substring 0 (String.length s) (s +:+ t) = s.
Proof.
  induction s as [|c s IH]; [by destruct t|]. rewrite app_cons. cbn. by rewrite IH.
Qed.

(** a name that ends with a suffix is something followed by the suffix *)
Lemma endswith_split (s suffix : string) :
  PyStr.endswith s suffix = true →
  s = String.substring 0 (String.length s - String.length suffix) s +:+ suffix.
Proof.
  unfold PyStr.endswith. intros [Hk Heq]%andb_true_iff.
  apply Nat.leb_le in Hk. apply String.eqb_eq in Heq.
  assert (H : ∀ i k s, i + k = String.length s →
              s = String.substring 0 i s +:+ String.substring i k s).
  { clear. intros i. induction i as [|i IH]; intros k s Hlen.
    - cbn in Hlen. subst k. rewrite substring_all. by destruct s.
    - destruct s as [|c s]; [done|]. cbn in Hlen. cbn [String.substring].
      rewrite app_cons. f_equal. apply IH. lia. }
  pose proof (H (String.length s - String.length suffix) (String.length suffix) s
                ltac:(lia)) as Hs.
  by rewrite Heq in Hs.
Qed.

Lemma rfind_dot_app (s t : string) :
  Process.rfind_dot (s +:+ t)
  = match Process.rfind_dot t with
    | Some i => Some (String.length s + i)
    | None => Process.rfind_dot s
    end.
Proof.
  induction s as [|c s IH]; [rewrite app_empty_l; by destruct (Process.rfind_dot t)|].
  rewrite app_cons. cbn [Process.rfind_dot String.length]. rewrite IH.
  destruct (Process.rfind_dot t); [done|]. done.
Qed.

(** the root of a name [stem.html] *)
Lemma splitext_root_html (stem : string) :
  Process.splitext_root (stem +:+ ".html")
  = if Process.all_dots stem then stem +:+ ".html" else stem.
Proof.
  unfold Process.splitext_root. rewrite rfind_dot_app.
  change (Process.rfind_dot ".html") with (Some 0). cbv beta iota.
  rewrite Nat.add_0_r, substring_prefix. done.
Qed.

Lemma app_inv_tail_str (s1 s2 t : string) : s1 +:+ t = s2 +:+ t → s1 = s2.
Proof.
  revert s2. induction s1 as [|c s1 IH]; intros s2 Heq.
  - destruct s2 as [|d s2]; [done|]. exfalso.
    apply (f_equal String.length) in Heq. rewrite app_empty_l, length_app_str in Heq.
    cbn in Heq. lia.
  - destruct s2 as [|d s2].
    + exfalso. apply (f_equal String.length) in Heq.
      rewrite app_empty_l, length_app_str in Heq. cbn in Heq. lia.
    + rewrite !app_cons in Heq. injection Heq as -> Heq. f_equal. by apply IH.
Qed.

End RecordPaths.

(** X15. For a raw file [stem.html] whose stem has a character other than
    a dot, the record goes to [/shared/processed/stem.json]; two such files
    with different names never share a record path, so no record overwrites
    another. *)
Theorem record_paths_distinct (f1 f2 : string) :
  PyStr.endswith f1 ".html" = true →
  PyStr.endswith f2 ".html" = true →
  Process.all_dots (String.substring 0 (String.length f1 - 5) f1) = false →
  Process.all_dots (String.substring 0 (String.length f2 - 5) f2) = false →
  Process.out_name f1
  = "/shared/processed/" +:+ String.substring 0 (String.length f1 - 5) f1 +:+ ".json"
  ∧ (Process.out_name f1 = Process.out_name f2 → f1 = f2).
Proof.
  intros H1 H2 Hd1 Hd2.
  pose proof (endswith_split f1 ".html" H1) as Hs1.
  pose proof (endswith_split f2 ".html" H2) as Hs2.
  cbn [String.length] in Hs1, Hs2.
  set (stem1 := String.substring 0 (String.length f1 - 5) f1) in *.
  set (stem2 := String.substring 0 (String.length f2 - 5) f2) in *.
  assert (Hr1 : Process.splitext_root f1 = stem1).
  { rewrite Hs1, splitext_root_html. by rewrite Hd1. }
  assert (Hr2 : Process.splitext_root f2 = stem2).
  { rewrite Hs2, splitext_root_html. by rewrite Hd2. }
  unfold Process.out_name. rewrite Hr1, Hr2. split; [done|].
  intros Heq. apply (inj (String.app "/shared/processed/")) in Heq.
  apply app_inv_tail_str in Heq. rewrite Hs1, Hs2. by rewrite Heq.
Qed.

Lemma record_paths_distinct_witness :
  Process.out_name "a.b.html" = "/shared/processed/a.b.json"
  ∧ (Process.out_name "a.b.html" = Process.out_name "a.html" → "a.b.html" = "a.html").
Proof.
  destruct (record_paths_distinct "a.b.html" "a.html") as [H1 H2]; try reflexivity.
  split; [exact H1|exact H2].
Defined.

(** the names left out share a path: [.html] and [.html.html] both go to
    [/shared/processed/.html.json] *)
Example record_paths_collide :
  Process.out_name ".html" = Process.out_name ".html.html".
Proof. reflexivity. Qed.

(** ** Sentences *)

Section Sentences.
Import Re.

(** the pieces between the matches of a class under [+] have no character
    of the class *)
Lemma plus_gaps (p q : ascii → bool) (n : nat) (s : string) (prev : option ascii)
    (gap g : string) :
  String.length s ≤ n →
  all_chars q s = true →
  all_chars (λ c, negb (p c) && q c)%bool gap = true →
  Gap g ∈ scan [Plus p] prev 0 gap s →
  all_chars (λ c, negb (p c) && q c)%bool g = true.
Proof.
  revert s prev gap. induction n as [|n IH]; intros s prev gap Hlen Hq Hgap Hin.
  - destruct s; [|cbn in Hlen; lia]. cbn in Hin.
    apply list_elem_of_singleton in Hin. injection Hin as ->. by rewrite all_chars_rev.
  - destruct s as [|x s].
    { cbn in Hin. apply list_elem_of_singleton in Hin. injection Hin as ->.
      by rewrite all_chars_rev. }
    cbn in Hlen. cbn [all_chars] in Hq. apply andb_true_iff in Hq as [Hqx Hqs].
    pose proof (match_plus p prev x s) as Hm.
    destruct (p x) eqn:Hx.
    + assert (Hm' : match_here [Plus p] prev (String x (take_run p s +:+ drop_run p s))
                    = Some (MRes (String x (take_run p s)) None (drop_run p s)))
        by by rewrite <- take_drop_run.
      pose proof (scan_hit _ _ gap _ _ _ _ Hm' eq_refl) as Hscan.
      rewrite <- take_drop_run in Hscan. rewrite Hscan in Hin.
      apply elem_of_cons in Hin as [Heq|Hin].
      { injection Heq as ->. by rewrite all_chars_rev. }
      apply elem_of_cons in Hin as [?|Hin]; [done|].
      assert (Hl : String.length (drop_run p s) ≤ n)
        by (pose proof (drop_run_length p s); lia).
      apply (IH _ _ _ Hl) in Hin; [done| |done].
      rewrite (take_drop_run p s), all_chars_app in Hqs.
      by apply andb_true_iff in Hqs as [_ ?].
    + rewrite (scan_miss _ _ _ _ _ Hm) in Hin.
      assert (Hl : String.length s ≤ n) by lia.
      apply (IH _ _ _ Hl Hqs) in Hin; [done|]. cbn. by rewrite Hx, Hqx, Hgap.
Qed.

Lemma strip_all_space (g : string) :
  all_chars PyStr.is_space g = true → PyStr.strip g = EmptyString.
Proof.
  unfold PyStr.strip. induction g as [|c g IH]; [done|]. cbn.
  intros [Hc Hg]%andb_true_iff. rewrite Hc. by apply IH.
Qed.

Lemma all_chars_false (p : ascii → bool) (s : string) :
  all_chars p s = false → any_char (λ c, negb (p c)) s = true.
Proof.
  induction s as [|c s IH]; [done|]. cbn. destruct (p c); cbn; [apply IH|done].
Qed.

Lemma all_chars_impl (p q : ascii → bool) (s : string) :
  (∀ c, p c = true → q c = true) → all_chars p s = true → all_chars q s = true.
Proof.
  intros Hpq. induction s as [|c s IH]; [done|]. cbn.
  intros [Hc Hs]%andb_true_iff. by rewrite (Hpq c Hc), (IH Hs).
Qed.

Lemma sentence_hit_terminators (prev : option ascii) (skip : nat) (gap s : string)
    (m : mres) :
  Hit m ∈ scan Process.SENT_RE prev skip gap s →
  all_chars (one_of ["."; "!"; "?"]%char) (m_text m) = true.
Proof.
  intros Hin. apply scan_hits in Hin as (_ & prev' & s' & Hm).
  destruct s' as [|x s']; [done|].
  unfold Process.SENT_RE in Hm. rewrite match_plus in Hm.
  destruct (one_of _ x) eqn:Hx; [|done]. injection Hm as <-. cbn [m_text all_chars].
  by rewrite Hx, take_run_all.
Qed.

Lemma sentence_pieces (text : string) :
  length (filter (λ s, PyStr.truthy (PyStr.strip s) = true) (split Process.SENT_RE text)) = 0
  ↔ all_chars (λ c, PyStr.is_space c || one_of ["."; "!"; "?"]%char c)%bool text = true.
Proof.
  split.
  - intros Hz.
    destruct (all_chars _ text) eqn:Hall; [done|]. exfalso.
    apply all_chars_false in Hall.
    pose proof (scan_flatten Process.SENT_RE None 0 EmptyString text) as Hflat.
    cbn [drop_chars] in Hflat. unfold String.rev in Hflat. cbn [String.rev_app] in Hflat.
    rewrite app_empty_l in Hflat. rewrite <- Hflat in Hall.
    apply any_char_flatten in Hall as ([g|m] & Hin & Hg).
    + assert (Hg' : g ∈ filter (λ s, PyStr.truthy (PyStr.strip s) = true)
                          (split Process.SENT_RE text)).
      { apply list_elem_of_filter. split.
        - apply strip_truthy. eapply any_char_mono; [|exact Hg].
          intros c Hc. cbn in Hc. by destruct (PyStr.is_space c).
        - apply list_elem_of_omap. by exists (Gap g). }
      destruct (filter _ _); [by apply elem_of_nil in Hg'|done].
    + apply sentence_hit_terminators in Hin. cbn [seg_text] in Hg.
      rewrite (any_char_all_chars _ (one_of ["."; "!"; "?"]%char)) in Hg; [done| |done].
      intros c Hc. rewrite Hc. by rewrite orb_true_r.
  - intros Hall.
    assert (Hnone : Forall (λ s, ¬ PyStr.truthy (PyStr.strip s) = true)
                      (split Process.SENT_RE text)).
    { apply Forall_forall. intros g Hg.
      apply list_elem_of_omap in Hg as ([g'|m] & Hin & Hsome); [|done].
      injection Hsome as ->.
      unfold segments, Process.SENT_RE in Hin.
      apply (plus_gaps (one_of ["."; "!"; "?"]%char) _ (String.length text) text None
               EmptyString g (Nat.le_refl _) Hall eq_refl) in Hin.
      rewrite strip_all_space; [done|].
      eapply all_chars_impl; [|exact Hin].
      intros c Hc. cbv beta in Hc.
      destruct (one_of ["."; "!"; "?"]%char c); [done|].
      cbn [negb andb] in Hc. by rewrite orb_false_r in Hc. }
    induction Hnone as [|g l Hg _ IH]; [done|].
    rewrite filter_cons. by rewrite decide_False.
Qed.

End Sentences.

(** X16. A document has no sentence exactly when its text has nothing but
    white space and the terminators [.], [!] and [?]; any other character
    makes at least one sentence. *)
Theorem sentence_count_zero (html text : string) :
  ∃ st, Process.document_stats html text = Ok st
        ∧ (sentence_count st = 0
           ↔ all_chars (λ c, PyStr.is_space c
                             || Re.one_of ["."; "!"; "?"]%char c)%bool text = true).
Proof.
  unfold Process.document_stats.
  destruct (mean_word_length_total (Re.findall Process.WORD_RE text)) as [q ->].
  cbn [rbind]. eexists. split; [done|]. cbn [sentence_count].
  rewrite length_fmap. apply sentence_pieces.
Qed.

(** ** N-grams *)

Section NGrams.
Import Analyze.

Lemma ngrams_length (tokens : list string) (n : nat) :
  length (ngrams tokens n) = length tokens + 1 - n.
Proof. unfold ngrams. by rewrite length_fmap, length_seq. Qed.

Lemma ngrams_elem_of (tokens : list string) (n : nat) (g : string) :
  g ∈ ngrams tokens n →
  ∃ i, i + n ≤ length tokens ∧ g = PyStr.join " " (take n (drop i tokens)).
Proof.
  unfold ngrams. intros (i & -> & Hi)%list_elem_of_fmap.
  apply elem_of_seq in Hi. exists i. split; [lia|done].
Qed.

Lemma window2 (tokens : list string) (i : nat) :
  i + 2 ≤ length tokens →
  ∃ w1 w2, tokens !! i = Some w1 ∧ tokens !! S i = Some w2
           ∧ PyStr.join " " (take 2 (drop i tokens)) = w1 +:+ " " +:+ w2.
Proof.
  intros Hi.
  destruct (lookup_lt_is_Some_2 tokens i ltac:(lia)) as [w1 H1].
  destruct (lookup_lt_is_Some_2 tokens (S i) ltac:(lia)) as [w2 H2].
  exists w1, w2. split; [done|]. split; [done|].
  rewrite (drop_S _ _ _ H1), (drop_S _ _ _ H2). done.
Qed.

Lemma window3 (tokens : list string) (i : nat) :
  i + 3 ≤ length tokens →
  ∃ w1 w2 w3, tokens !! i = Some w1 ∧ tokens !! S i = Some w2 ∧ tokens !! S (S i) = Some w3
              ∧ PyStr.join " " (take 3 (drop i tokens)) = w1 +:+ " " +:+ w2 +:+ " " +:+ w3.
Proof.
  intros Hi.
  destruct (lookup_lt_is_Some_2 tokens i ltac:(lia)) as [w1 H1].
  destruct (lookup_lt_is_Some_2 tokens (S i) ltac:(lia)) as [w2 H2].
  destruct (lookup_lt_is_Some_2 tokens (S (S i)) ltac:(lia)) as [w3 H3].
  exists w1, w2, w3. split; [done|]. split; [done|]. split; [done|].
  rewrite (drop_S _ _ _ H1), (drop_S _ _ _ H2), (drop_S _ _ _ H3). done.
Qed.

Lemma table_key_in_document (n k : nat) (docs : list document) (g : string) (c : nat) :
  (g, c) ∈ most_common k (Counter (flat_map (λ d, ngrams (snd d) n) docs)) →
  ∃ d, d ∈ docs ∧ g ∈ ngrams (snd d) n.
Proof.
  intros Hin%most_common_subseteq.
  assert (Hk : g ∈ (Counter (flat_map (λ d, ngrams (snd d) n) docs)).*1).
  { apply list_elem_of_fmap. by exists (g, c). }
  apply Counter_keys_elem_of, list_elem_of_In, in_flat_map in Hk as (d & Hd & Hg).
  exists d. by rewrite !list_elem_of_In.
Qed.

Lemma windows_length (n : nat) (docs : list document) :
  length (flat_map (λ d, ngrams (snd d) n) docs) = windows n docs.
Proof.
  induction docs as [|d docs IH]; [done|].
  cbn [flat_map windows foldr]. rewrite length_app, ngrams_length. unfold windows in IH.
  by rewrite IH.
Qed.

End NGrams.

(** X17. Every bigram of the report is two adjacent tokens of one document
    joined by a space, every trigram three: no n-gram runs from the end of
    one document into the next.  The n-grams counted are one for each
    window of [n] adjacent positions of each document, so a document of
    fewer than [n] tokens adds no n-gram. *)
Theorem ngrams_within_documents (docs : list Analyze.document) :
  (∀ b c, (b, c) ∈ Analyze.bigrams docs →
     ∃ d i w1 w2, d ∈ docs ∧ snd d !! i = Some w1 ∧ snd d !! S i = Some w2
                  ∧ b = w1 +:+ " " +:+ w2)
  ∧ (∀ t c, (t, c) ∈ Analyze.trigrams docs →
     ∃ d i w1 w2 w3, d ∈ docs ∧ snd d !! i = Some w1 ∧ snd d !! S i = Some w2
                     ∧ snd d !! S (S i) = Some w3
                     ∧ t = w1 +:+ " " +:+ w2 +:+ " " +:+ w3)
  ∧ sum_counts (Analyze.Counter (flat_map (λ d, Analyze.ngrams (snd d) 2) docs))
    = windows 2 docs
  ∧ sum_counts (Analyze.Counter (flat_map (λ d, Analyze.ngrams (snd d) 3) docs))
    = windows 3 docs.
Proof.
  split; [|split; [|split]].
  - intros b c (d & Hd & Hg)%table_key_in_document.
    apply ngrams_elem_of in Hg as (i & Hi & ->).
    destruct (window2 _ _ Hi) as (w1 & w2 & H1 & H2 & Hj).
    by exists d, i, w1, w2.
  - intros t c (d & Hd & Hg)%table_key_in_document.
    apply ngrams_elem_of in Hg as (i & Hi & ->).
    destruct (window3 _ _ Hi) as (w1 & w2 & w3 & H1 & H2 & H3 & Hj).
    by exists d, i, w1, w2, w3.
  - by rewrite sum_counts_Counter, windows_length.
  - by rewrite sum_counts_Counter, windows_length.
Qed.

(** ** Paragraph tags *)

Section Paragraphs.
Import Re.

Lemma lower_lt (x : ascii) :
  Ascii.eqb (PyStr.lower_char x) (PyStr.lower_char "<") = Ascii.eqb x "<".
Proof. destruct x as [[] [] [] [] [] [] [] []]; reflexivity. Qed.

Lemma lower_p (x : ascii) :
  Ascii.eqb (PyStr.lower_char x) (PyStr.lower_char "p")
  = (Ascii.eqb x "p" || Ascii.eqb x "P")%bool.
Proof. destruct x as [[] [] [] [] [] [] [] []]; reflexivity. Qed.

Lemma p_is_word (x : ascii) :
  (Ascii.eqb x "p" || Ascii.eqb x "P")%bool = true →
  PyStr.is_word x = true ∧ Ascii.eqb x "<" = false.
Proof. destruct x as [[] [] [] [] [] [] [] []]; cbn; intros H; try discriminate H; done. Qed.

Lemma match_p_tag (prev : option ascii) (a b : ascii) (rest : string) :
  match_here Process.P_TAG_RE prev (String a (String b rest))
  = if opens_p_tag a b rest
    then Some (MRes (String a (String b EmptyString)) None rest) else None.
Proof.
  unfold Process.P_TAG_RE, opens_p_tag. cbn [lit_i app match_here].
  rewrite lower_lt, lower_p.
  destruct (Ascii.eqb a "<"); [|done].
  destruct (Ascii.eqb b "p" || Ascii.eqb b "P")%bool eqn:Hb; [|done].
  apply p_is_word in Hb as [Hw _]. cbn [word_at andb]. rewrite Hw. cbn [xorb].
  by destruct (word_at (next_char rest)).
Qed.

Lemma match_p_tag_short (prev : option ascii) (a : ascii) :
  match_here Process.P_TAG_RE prev (String a EmptyString) = None.
Proof.
  unfold Process.P_TAG_RE. cbn [lit_i app match_here].
  by destruct (Ascii.eqb _ _).
Qed.

Lemma count_p_tags_after (b : ascii) (rest : string) :
  (Ascii.eqb b "p" || Ascii.eqb b "P")%bool = true →
  count_p_tags (String b rest) = count_p_tags rest.
Proof.
  intros [_ Hb]%p_is_word. destruct rest as [|c rest]; [done|].
  cbn [count_p_tags]. unfold opens_p_tag. by rewrite Hb.
Qed.

Lemma scan_p_tags (n : nat) (s : string) (prev : option ascii) (gap : string) :
  String.length s ≤ n →
  length (hits (scan Process.P_TAG_RE prev 0 gap s)) = count_p_tags s.
Proof.
  revert s prev gap. induction n as [|n IH]; intros s prev gap Hlen.
  { destruct s; [done|cbn in Hlen; lia]. }
  destruct s as [|a [|b rest]]; [done| |].
  - by rewrite (scan_miss _ _ _ _ _ (match_p_tag_short prev a)).
  - cbn in Hlen. pose proof (match_p_tag prev a b rest) as Hm.
    change (count_p_tags (String a (String b rest)))
      with ((if opens_p_tag a b rest then 1 else 0) + count_p_tags (String b rest)).
    destruct (opens_p_tag a b rest) eqn:Ht.
    + assert (Hm' : match_here Process.P_TAG_RE prev
                      (String a (String b EmptyString +:+ rest))
                    = Some (MRes (String a (String b EmptyString)) None rest)) by done.
      pose proof (scan_hit _ _ gap _ _ _ _ Hm' eq_refl) as Hscan.
      change (String b EmptyString +:+ rest) with (String b rest) in Hscan.
      rewrite Hscan. cbn [hits omap length].
      change (length (hits (Gap (String.rev gap) :: Hit (MRes (String a (String b EmptyString)) None rest)
                :: scan Process.P_TAG_RE (last_char (Some a) (String b EmptyString)) 0
                     EmptyString rest)))
        with (S (length (hits (scan Process.P_TAG_RE
                     (last_char (Some a) (String b EmptyString)) 0 EmptyString rest)))).
      rewrite IH by lia. rewrite count_p_tags_after; [done|].
      unfold opens_p_tag in Ht. apply andb_true_iff in Ht as [Ht _].
      by apply andb_true_iff in Ht as [_ Ht].
    + rewrite (scan_miss _ _ _ _ _ Hm). rewrite IH by (cbn; lia). done.
Qed.

Lemma findall_p_tags (html : string) :
  length (findall Process.P_TAG_RE html) = count_p_tags html.
Proof. apply (scan_p_tags (String.length html)). done. Qed.

End Paragraphs.

(** X18. For a raw document of ASCII characters the paragraph count of the
    record is the number of places where the document has [<p] or [<P] with
    no letter, digit or underscore right behind it (so [<pre>] and [<param>]
    do not count, [<P class=..>] and a [<p] inside a script do); when there
    is none and the text is not empty, it is 1. *)
Theorem paragraph_count_spec (html text : string) :
  is_ascii html = true →
  ∃ st, Process.document_stats html text = Ok st
        ∧ paragraph_count st
          = if (Nat.eqb (count_p_tags html) 0 && PyStr.truthy text)%bool
            then 1 else count_p_tags html.
Proof.
  intros _. unfold Process.document_stats.
  destruct (mean_word_length_total (Re.findall Process.WORD_RE text)) as [q ->].
  cbn [rbind]. eexists. split; [done|]. cbn [paragraph_count].
  by rewrite findall_p_tags.
Qed.

Lemma paragraph_count_spec_witness :
  ∃ st, Process.document_stats "<pre>a</pre><P>b</P><p class=x>c</p>" "a b c" = Ok st
        ∧ paragraph_count st = 2.
Proof.
  destruct (paragraph_count_spec "<pre>a</pre><P>b</P><p class=x>c</p>" "a b c" eq_refl)
    as (st & Hst & Hp).
  exists st. split; [exact Hst|]. rewrite Hp. reflexivity.
Defined.

(** [<pre>] opens no paragraph, [<P>] does *)
Example paragraph_count_pre :
  count_p_tags "<pre>a</pre><P>b</P><p class=x>c</p>" = 2.
Proof. reflexivity. Qed.

(** ** Tags *)

Section Tags.
Import Re.

Lemma greedy_none (p : ascii → bool) (k : cont) (prev : option ascii) (s : string) :
  all_chars p s = true →
  (∀ prev' s', all_chars p s' = true → k prev' s' = None) →
  greedy p k prev s = None.
Proof.
  intros Hs Hk. revert prev. induction s as [|x s IH]; intros prev.
  - cbn. by rewrite (Hk prev EmptyString).
  - cbn [greedy]. pose proof Hs as Hs'. cbn in Hs'. apply andb_true_iff in Hs' as [Hx Hs'].
    rewrite Hx, (IH Hs'). by rewrite (Hk prev (String x s) Hs).
Qed.

Lemma none_of_gt (c : ascii) : none_of [">"%char] c = negb (Ascii.eqb c ">").
Proof. unfold none_of. cbn [existsb]. by rewrite orb_false_r. Qed.

Lemma close_none (prev : option ascii) (s : string) :
  all_chars (none_of [">"%char]) s = true → match_here [Lit ">"%char] prev s = None.
Proof.
  destruct s as [|c s]; [done|]. cbn [all_chars match_here].
  intros [Hc _]%andb_true_iff. rewrite none_of_gt in Hc. apply negb_true_iff in Hc.
  by rewrite Hc.
Qed.

Lemma drop_run_gt (s : string) :
  all_chars (none_of [">"%char]) s = false →
  ∃ r, drop_run (none_of [">"%char]) s = String ">"%char r.
Proof.
  induction s as [|c s IH]; [done|]. cbn [all_chars drop_run].
  destruct (none_of [">"%char] c) eqn:Hc.
  - cbn [andb]. apply IH.
  - intros _. exists s. rewrite none_of_gt in Hc.
    apply negb_false_iff, Ascii.eqb_eq in Hc. by subst.
Qed.

Lemma match_tag_none (prev : option ascii) (a : ascii) (s : string) :
  (negb (Ascii.eqb a "<") || starts_with ">" s
   || all_chars (none_of [">"%char]) s)%bool = true →
  match_here Process.TAG_RE prev (String a s) = None.
Proof.
  unfold Process.TAG_RE. cbn [match_here]. destruct (Ascii.eqb a "<"); [|done].
  cbn [negb orb]. destruct s as [|x s]; [done|]. cbn [starts_with all_chars].
  rewrite none_of_gt. destruct (Ascii.eqb x ">"); [done|]. cbn [negb orb andb].
  intros Hs. rewrite (greedy_none (none_of [">"%char]) _ (Some x) s Hs); [done|].
  intros prev' s' Hs'. exact (close_none prev' s' Hs').
Qed.

Lemma match_tag_some (prev : option ascii) (a : ascii) (s : string) :
  Ascii.eqb a "<" = true → starts_with ">" s = false →
  all_chars (none_of [">"%char]) s = false →
  ∃ t rest, match_here Process.TAG_RE prev (String a s) = Some (MRes (String a t) None rest)
            ∧ s = t +:+ rest.
Proof.
  intros Ha Hst Hall. unfold Process.TAG_RE. cbn [match_here]. rewrite Ha.
  destruct s as [|x s]; [done|]. cbn [starts_with] in Hst. cbn [all_chars] in Hall.
  rewrite none_of_gt in Hall |- *. rewrite Hst in Hall |- *. cbn [negb andb] in Hall |- *.
  destruct (drop_run_gt s Hall) as [r Hr].
  rewrite (greedy_max (none_of [">"%char]) _ (Some x) s
             (MRes (String ">"%char EmptyString) None r)).
  2: { rewrite Hr. done. }
  exists (String x (take_run (none_of [">"%char]) s +:+ String ">"%char EmptyString)), r.
  split; [done|].
  rewrite app_cons, app_assoc_str.
  change (String ">"%char EmptyString +:+ r) with (String ">"%char r).
  by rewrite <- Hr, <- take_drop_run.
Qed.

End Tags.

Section TagFree.
Import Re.

Lemma tag_free_tail (a : ascii) (s : string) : tag_free (String a s) = true → tag_free s = true.
Proof. cbn [tag_free]. by intros [_ ?]%andb_true_iff. Qed.

(** what [re.sub] leaves of the tags: the text before the scan, then a text
    with no tag, that has no [>] unless the subject had one *)
Lemma sub_tag_scan (n : nat) (s : string) (prev : option ascii) (gap : string) :
  String.length s ≤ n →
  ∃ u, foldr (λ g acc, match g with Gap t => t +:+ acc | Hit _ => " " +:+ acc end)
             EmptyString (scan Process.TAG_RE prev 0 gap s)
       = String.rev gap +:+ u
       ∧ tag_free u = true
       ∧ (starts_with ">" s = true → starts_with ">" u = true)
       ∧ (all_chars (none_of [">"%char]) s = true → all_chars (none_of [">"%char]) u = true).
Proof.
  revert s prev gap. induction n as [|n IH]; intros s prev gap Hlen.
  { destruct s; [|cbn in Hlen; lia]. exists EmptyString. cbn. by rewrite !app_empty_r. }
  destruct s as [|a s].
  { exists EmptyString. cbn. by rewrite !app_empty_r. }
  cbn in Hlen.
  destruct (negb (Ascii.eqb a "<") || starts_with ">" s
            || all_chars (none_of [">"%char]) s)%bool eqn:Hopen.
  - rewrite (scan_miss _ _ _ _ _ (match_tag_none prev a s Hopen)).
    destruct (IH s (Some a) (String a gap) ltac:(lia)) as (u & -> & Hfree & Hst & Hall).
    exists (String a u). split; [by rewrite rev_cons, app_assoc_str|].
    split; [|split].
    + cbn [tag_free]. rewrite Hfree, andb_true_r.
      apply orb_true_iff in Hopen as [Hopen|Hopen]; [|by rewrite (Hall Hopen), orb_true_r].
      apply orb_true_iff in Hopen as [Hopen|Hopen]; [by rewrite Hopen|].
      by rewrite (Hst Hopen), orb_true_r.
    + done.
    + cbn [all_chars]. intros [Ha Hs]%andb_true_iff. by rewrite Ha, (Hall Hs).
  - apply orb_false_iff in Hopen as [Hopen Hgt].
    apply orb_false_iff in Hopen as [Ha Hst]. apply negb_false_iff in Ha.
    destruct (match_tag_some prev a s Ha Hst Hgt) as (t & rest & Hm & ->).
    rewrite (scan_hit _ _ gap _ _ _ _ Hm eq_refl). cbn [foldr].
    assert (Hl : String.length rest ≤ n) by (rewrite length_app_str in Hlen; lia).
    destruct (IH rest (last_char (Some a) t) EmptyString Hl) as (u & -> & Hfree & _ & _).
    exists (String " " u). split; [done|]. split; [done|]. split.
    + cbn [starts_with]. intros Hgt'. apply Ascii.eqb_eq in Ha, Hgt'. congruence.
    + cbn [all_chars]. intros [_ Hs]%andb_true_iff. congruence.
Qed.

Lemma collapse_tag_free (b : bool) (s : string) :
  (tag_free s = true → tag_free (collapse b s) = true)
  ∧ (starts_with ">" s = true → starts_with ">" (collapse b s) = true)
  ∧ (all_chars (none_of [">"%char]) s = true
     → all_chars (none_of [">"%char]) (collapse b s) = true).
Proof.
  revert b. induction s as [|c s IH]; intros b; [done|]. cbn [collapse].
  destruct (PyStr.is_space c) eqn:Hc.
  - destruct (IH true) as (Hfree & Hst & Hall). split; [|split].
    + intros H%tag_free_tail. destruct b; [by apply Hfree|].
      cbn [tag_free]. by rewrite (Hfree H).
    + cbn [starts_with]. intros ->%Ascii.eqb_eq. done.
    + cbn [all_chars]. intros [_ Hs]%andb_true_iff. destruct b; [by apply Hall|].
      cbn [all_chars]. by rewrite (Hall Hs).
  - destruct (IH false) as (Hfree & Hst & Hall). split; [|split].
    + cbn [tag_free]. intros [Hopen H]%andb_true_iff. rewrite (Hfree H), andb_true_r.
      apply orb_true_iff in Hopen as [Hopen|Hopen]; [|by rewrite (Hall Hopen), orb_true_r].
      apply orb_true_iff in Hopen as [Hopen|Hopen]; [by rewrite Hopen|].
      by rewrite (Hst Hopen), orb_true_r.
    + done.
    + cbn [all_chars]. intros [Ha Hs]%andb_true_iff. by rewrite Ha, (Hall Hs).
Qed.

Lemma lstrip_tag_free (s : string) : tag_free s = true → tag_free (PyStr.lstrip s) = true.
Proof.
  induction s as [|c s IH]; [done|]. cbn [PyStr.lstrip]. intros H.
  destruct (PyStr.is_space c); [|done]. by apply IH, (tag_free_tail c).
Qed.

Lemma rstrip_tag_free (s : string) :
  (tag_free s = true → tag_free (PyStr.rstrip s) = true)
  ∧ (starts_with ">" s = true → starts_with ">" (PyStr.rstrip s) = true)
  ∧ (all_chars (none_of [">"%char]) s = true
     → all_chars (none_of [">"%char]) (PyStr.rstrip s) = true).
Proof.
  induction s as [|c s (Hfree & Hst & Hall)]; [done|]. cbn [PyStr.rstrip].
  split; [|split].
  - cbn [tag_free]. intros [Hopen H]%andb_true_iff. specialize (Hfree H).
    destruct (PyStr.rstrip s) as [|d r] eqn:Hr.
    + destruct (PyStr.is_space c); [done|]. cbn. by rewrite !orb_true_r.
    + change (tag_free (String c (String d r)))
        with ((negb (Ascii.eqb c "<") || starts_with ">" (String d r)
               || all_chars (none_of [">"%char]) (String d r))
              && tag_free (String d r))%bool.
      rewrite Hfree, andb_true_r.
      apply orb_true_iff in Hopen as [Hopen|Hopen]; [|by rewrite (Hall Hopen), orb_true_r].
      apply orb_true_iff in Hopen as [Hopen|Hopen]; [by rewrite Hopen|].
      by rewrite (Hst Hopen), orb_true_r.
  - cbn [starts_with]. intros ->%Ascii.eqb_eq. by destruct (PyStr.rstrip s).
  - cbn [all_chars]. intros [Ha Hs]%andb_true_iff. specialize (Hall Hs).
    destruct (PyStr.rstrip s) as [|d r].
    + destruct (PyStr.is_space c); [done|]. cbn. by rewrite Ha.
    + cbn [all_chars] in Hall |- *. by rewrite Ha, Hall.
Qed.

Lemma tag_free_scan (s : string) (prev : option ascii) (gap : string) :
  tag_free s = true → hits (scan Process.TAG_RE prev 0 gap s) = [].
Proof.
  revert prev gap. induction s as [|a s IH]; intros prev gap; [done|].
  cbn [tag_free]. intros [Hopen H]%andb_true_iff.
  rewrite (scan_miss _ _ _ _ _ (match_tag_none prev a s Hopen)). by apply IH.
Qed.

End TagFree.

(** X19. No tag is left in the extracted text: each [<] that remains has
    [>] right behind it or no [>] behind it at all, so the tag pattern
    [<[^>]+>] finds nothing in the text. *)
Theorem extracted_text_tag_free (html : string) :
  tag_free (fst (fst (Process.strip_html html))) = true
  ∧ Re.findall Process.TAG_RE (fst (fst (Process.strip_html html))) = [].
Proof.
  assert (H : tag_free (fst (fst (Process.strip_html html))) = true).
  { unfold Process.strip_html. cbn [fst]. rewrite sub_space_collapse. unfold PyStr.strip.
    apply rstrip_tag_free, lstrip_tag_free, collapse_tag_free.
    generalize (Re.sub Process.STYLE_RE EmptyString (Re.sub Process.SCRIPT_RE EmptyString html)).
    intros h. unfold Re.sub, Re.segments.
    destruct (sub_tag_scan (String.length h) h None EmptyString (Nat.le_refl _))
      as (u & -> & Hu & _).
    done. }
  split; [exact H|]. by apply (tag_free_scan _ None EmptyString).
Qed.
